(** * FbxToLwo: the mesh export pipeline

    A shallow embedding of the vector/matrix algebra ([math/Matrix4.h],
    [math/Matrix4.cpp]), of the per-material vertex index
    ([FbxSurface.h]), of the surface aggregation of
    [ModelExporterBase::addSurface], of the loop of [ExportFbxMesh] that
    feeds it, and of [stream::ExportStream::close].

    Numbers.  A C++ [double] is modelled as an exact real number ([R]):
    the algebraic laws stated below are laws of exact arithmetic.  An
    [unsigned int] is a [Z] in the range [0, 2^32) with the wrap-around
    written out ([u32]); a [std::size_t] that counts the elements of a
    vector is the [nat] length of the list. *)

From Stdlib Require Import Reals Lra Lia ZArith List RNsatz.
From stdpp Require Import gmap strings.

(* ===================================================================== *)
(** ** Vectors *)
(* ===================================================================== *)

Module Vector3.
Local Open Scope R_scope.

(** Modelled from the spec: [BasicVector3<double>] ([math/Vector3.h] is not
    part of the sources at hand); three components read by [x()], [y()],
    [z()] or by index. *)
Record t : Type := Vector3 { x : R; y : R; z : R }.

(** [operator[]] *)
Definition at_ (v : t) (i : nat) : R :=
  match i with
  | O => x v
  | S O => y v
  | _ => z v
  end.

(** Modelled from the spec: [getLength], the Euclidean length. *)
Definition getLength (v : t) : R :=
  sqrt (x v * x v + y v * y v + z v * z v).

(** Modelled from the spec: [getNormalised], "normalize": the vector divided
    by its length. *)
Definition getNormalised (v : t) : t :=
  Vector3 (x v / getLength v) (y v / getLength v) (z v / getLength v).

Lemma vector3_eq_dec (a b : t) : {a = b} + {a <> b}.
Proof.
  destruct a as [a1 a2 a3], b as [b1 b2 b3].
  destruct (Req_dec_T a1 b1) as [->|n1]; [|right; congruence].
  destruct (Req_dec_T a2 b2) as [->|n2]; [|right; congruence].
  destruct (Req_dec_T a3 b3) as [->|n3]; [|right; congruence].
  now left.
Qed.

End Vector3.

Module Vector2.

(** Modelled from the spec: [TexCoord2f], a pair of texture coordinates. *)
Record t : Type := Vector2 { x : R; y : R }.

Lemma vector2_eq_dec (a b : t) : {a = b} + {a <> b}.
Proof.
  destruct a as [a1 a2], b as [b1 b2].
  destruct (Req_dec_T a1 b1) as [->|n1]; [|right; congruence].
  destruct (Req_dec_T a2 b2) as [->|n2]; [|right; congruence].
  now left.
Qed.

End Vector2.

Module Vector4.
Local Open Scope R_scope.

(** [BasicVector4<double>]: four components, [_v[0..3]]. *)
Record t : Type := Vector4 { x : R; y : R; z : R; w : R }.

(** The constructor from a [Vector3] and a W value. *)
Definition ofVector3 (other : Vector3.t) (w_ : R) : t :=
  Vector4 (Vector3.x other) (Vector3.y other) (Vector3.z other) w_.

(** [index(i)] and [operator[]] *)
Definition at_ (v : t) (i : nat) : R :=
  match i with
  | 0%nat => x v
  | 1%nat => y v
  | 2%nat => z v
  | _ => w v
  end.

(** [operator+], element-wise. *)
Definition add (a other : t) : t :=
  Vector4 (x a + x other) (y a + y other) (z a + z other) (w a + w other).

(** [operator-], element-wise. *)
Definition sub (a other : t) : t :=
  Vector4 (x a - x other) (y a - y other) (z a - z other) (w a - w other).

(** [operator*] with a scalar. *)
Definition scale (a : t) (factor : R) : t :=
  Vector4 (x a * factor) (y a * factor) (z a * factor) (w a * factor).

(** [operator/] with a scalar. *)
Definition divide (a : t) (divisor : R) : t :=
  Vector4 (x a / divisor) (y a / divisor) (z a / divisor) (w a / divisor).

Definition dot (a other : t) : R :=
  x a * x other + y a * y other + z a * z other + w a * w other.

(** Projects the homogeneous vector into a Cartesian one, dividing by w. *)
Definition getProjected (v : t) : Vector3.t :=
  Vector3.Vector3 (x v / w v) (y v / w v) (z v / w v).

(** The first three components, as a [Vector3]. *)
Definition getVector3 (v : t) : Vector3.t :=
  Vector3.Vector3 (x v) (y v) (z v).

End Vector4.

(* ===================================================================== *)
(** ** Matrix4 *)
(* ===================================================================== *)

Module Matrix4.
Local Open Scope R_scope.
Import Vector3.

(** The sixteen elements, stored column-wise: [_m[0..3]] is the x column,
    [_m[4..7]] the y column, [_m[8..11]] the z column and [_m[12..15]] the
    translation column. *)
Record t : Type := Matrix4 {
  xx : R; xy : R; xz : R; xw : R;
  yx : R; yy : R; yz : R; yw : R;
  zx : R; zy : R; zz : R; zw : R;
  tx : R; ty : R; tz : R; tw : R }.

(** [_m[i]], also reached through [operator const double*]. *)
Definition _m (m : t) (i : nat) : R :=
  match i with
  | 0%nat => xx m | 1%nat => xy m | 2%nat => xz m | 3%nat => xw m
  | 4%nat => yx m | 5%nat => yy m | 6%nat => yz m | 7%nat => yw m
  | 8%nat => zx m | 9%nat => zy m | 10%nat => zz m | 11%nat => zw m
  | 12%nat => tx m | 13%nat => ty m | 14%nat => tz m | _ => tw m
  end.

Definition byColumns (xx xy xz xw yx yy yz yw zx zy zz zw tx ty tz tw : R) : t :=
  Matrix4 xx xy xz xw yx yy yz yw zx zy zz zw tx ty tz tw.

Definition getIdentity : t :=
  Matrix4 1 0 0 0
          0 1 0 0
          0 0 1 0
          0 0 0 1.

Definition getTranslation (translation : Vector3.t) : t :=
  byColumns
    1 0 0 0
    0 1 0 0
    0 0 1 0
    (x translation) (y translation) (z translation) 1.

Definition getScale (scale : Vector3.t) : t :=
  byColumns
    (at_ scale 0) 0 0 0
    0 (at_ scale 1) 0 0
    0 0 (at_ scale 2) 0
    0 0 0 1.

Definition getTransposed (m : t) : t :=
  Matrix4
    (xx m) (yx m) (zx m) (tx m)
    (xy m) (yy m) (zy m) (ty m)
    (xz m) (yz m) (zz m) (tz m)
    (xw m) (yw m) (zw m) (tw m).

(** The affine inverse.  [det = 1.0f / det] is the reciprocal of the
    determinant of the upper-left 3x3 block. *)
Definition getInverse (m : t) : t :=
  let det :=
      _m m 0 * (_m m 5 * _m m 10 - _m m 9 * _m m 6)
    - _m m 1 * (_m m 4 * _m m 10 - _m m 8 * _m m 6)
    + _m m 2 * (_m m 4 * _m m 9 - _m m 8 * _m m 5) in
  let det := 1 / det in
  let r0 := (_m m 5 * _m m 10 - _m m 6 * _m m 9) * det in
  let r1 := - (_m m 1 * _m m 10 - _m m 2 * _m m 9) * det in
  let r2 := (_m m 1 * _m m 6 - _m m 2 * _m m 5) * det in
  let r3 := 0 in
  let r4 := - (_m m 4 * _m m 10 - _m m 6 * _m m 8) * det in
  let r5 := (_m m 0 * _m m 10 - _m m 2 * _m m 8) * det in
  let r6 := - (_m m 0 * _m m 6 - _m m 2 * _m m 4) * det in
  let r7 := 0 in
  let r8 := (_m m 4 * _m m 9 - _m m 5 * _m m 8) * det in
  let r9 := - (_m m 0 * _m m 9 - _m m 1 * _m m 8) * det in
  let r10 := (_m m 0 * _m m 5 - _m m 1 * _m m 4) * det in
  let r11 := 0 in
  let r12 := - (_m m 12 * r0 + _m m 13 * r4 + _m m 14 * r8) in
  let r13 := - (_m m 12 * r1 + _m m 13 * r5 + _m m 14 * r9) in
  let r14 := - (_m m 12 * r2 + _m m 13 * r6 + _m m 14 * r10) in
  let r15 := 1 in
  Matrix4 r0 r1 r2 r3 r4 r5 r6 r7 r8 r9 r10 r11 r12 r13 r14 r15.

(** The full inverse, through the adjugate matrix. *)
Definition getFullInverse (m : t) : t :=
  let minor01 := zz m * tw m - zw m * tz m in
  let minor02 := zy m * tw m - zw m * ty m in
  let minor03 := zx m * tw m - zw m * tx m in
  let minor04 := zy m * tz m - zz m * ty m in
  let minor05 := zx m * tz m - zz m * tx m in
  let minor06 := zx m * ty m - zy m * tx m in
  let minor07 := yz m * tw m - yw m * tz m in
  let minor08 := yy m * tw m - yw m * ty m in
  let minor09 := yy m * tz m - yz m * ty m in
  let minor10 := yx m * tw m - yw m * tx m in
  let minor11 := yx m * tz m - yz m * tx m in
  let minor12 := yx m * ty m - yy m * tx m in
  let minor13 := yz m * zw m - yw m * zz m in
  let minor14 := yy m * zw m - yw m * zy m in
  let minor15 := yy m * zz m - yz m * zy m in
  let minor16 := yx m * zw m - yw m * zx m in
  let minor17 := yx m * zz m - yz m * zx m in
  let minor18 := yx m * zy m - yy m * zx m in
  let minor3x3_11 := yy m * minor01 - yz m * minor02 + yw m * minor04 in
  let minor3x3_21 := yx m * minor01 - yz m * minor03 + yw m * minor05 in
  let minor3x3_31 := yx m * minor02 - yy m * minor03 + yw m * minor06 in
  let minor3x3_41 := yx m * minor04 - yy m * minor05 + yz m * minor06 in
  let minor3x3_12 := xy m * minor01 - xz m * minor02 + xw m * minor04 in
  let minor3x3_22 := xx m * minor01 - xz m * minor03 + xw m * minor05 in
  let minor3x3_32 := xx m * minor02 - xy m * minor03 + xw m * minor06 in
  let minor3x3_42 := xx m * minor04 - xy m * minor05 + xz m * minor06 in
  let minor3x3_13 := xy m * minor07 - xz m * minor08 + xw m * minor09 in
  let minor3x3_23 := xx m * minor07 - xz m * minor10 + xw m * minor11 in
  let minor3x3_33 := xx m * minor08 - xy m * minor10 + xw m * minor12 in
  let minor3x3_43 := xx m * minor09 - xy m * minor11 + xz m * minor12 in
  let minor3x3_14 := xy m * minor13 - xz m * minor14 + xw m * minor15 in
  let minor3x3_24 := xx m * minor13 - xz m * minor16 + xw m * minor17 in
  let minor3x3_34 := xx m * minor14 - xy m * minor16 + xw m * minor18 in
  let minor3x3_44 := xx m * minor15 - xy m * minor17 + xz m * minor18 in
  let determinant :=
    xx m * minor3x3_11 - xy m * minor3x3_21 + xz m * minor3x3_31
    - xw m * minor3x3_41 in
  let invDet := 1 / determinant in
  byColumns
    (minor3x3_11 * invDet) (- minor3x3_12 * invDet) (minor3x3_13 * invDet) (- minor3x3_14 * invDet)
    (- minor3x3_21 * invDet) (minor3x3_22 * invDet) (- minor3x3_23 * invDet) (minor3x3_24 * invDet)
    (minor3x3_31 * invDet) (- minor3x3_32 * invDet) (minor3x3_33 * invDet) (- minor3x3_34 * invDet)
    (- minor3x3_41 * invDet) (minor3x3_42 * invDet) (- minor3x3_43 * invDet) (minor3x3_44 * invDet).

(** Post-multiply [m] with [other]. *)
Definition getMultipliedBy (m other : t) : t :=
  byColumns
    (_m other 0 * _m m 0 + _m other 1 * _m m 4 + _m other 2 * _m m 8 + _m other 3 * _m m 12)
    (_m other 0 * _m m 1 + _m other 1 * _m m 5 + _m other 2 * _m m 9 + _m other 3 * _m m 13)
    (_m other 0 * _m m 2 + _m other 1 * _m m 6 + _m other 2 * _m m 10 + _m other 3 * _m m 14)
    (_m other 0 * _m m 3 + _m other 1 * _m m 7 + _m other 2 * _m m 11 + _m other 3 * _m m 15)
    (_m other 4 * _m m 0 + _m other 5 * _m m 4 + _m other 6 * _m m 8 + _m other 7 * _m m 12)
    (_m other 4 * _m m 1 + _m other 5 * _m m 5 + _m other 6 * _m m 9 + _m other 7 * _m m 13)
    (_m other 4 * _m m 2 + _m other 5 * _m m 6 + _m other 6 * _m m 10 + _m other 7 * _m m 14)
    (_m other 4 * _m m 3 + _m other 5 * _m m 7 + _m other 6 * _m m 11 + _m other 7 * _m m 15)
    (_m other 8 * _m m 0 + _m other 9 * _m m 4 + _m other 10 * _m m 8 + _m other 11 * _m m 12)
    (_m other 8 * _m m 1 + _m other 9 * _m m 5 + _m other 10 * _m m 9 + _m other 11 * _m m 13)
    (_m other 8 * _m m 2 + _m other 9 * _m m 6 + _m other 10 * _m m 10 + _m other 11 * _m m 14)
    (_m other 8 * _m m 3 + _m other 9 * _m m 7 + _m other 10 * _m m 11 + _m other 11 * _m m 15)
    (_m other 12 * _m m 0 + _m other 13 * _m m 4 + _m other 14 * _m m 8 + _m other 15 * _m m 12)
    (_m other 12 * _m m 1 + _m other 13 * _m m 5 + _m other 14 * _m m 9 + _m other 15 * _m m 13)
    (_m other 12 * _m m 2 + _m other 13 * _m m 6 + _m other 14 * _m m 10 + _m other 15 * _m m 14)
    (_m other 12 * _m m 3 + _m other 13 * _m m 7 + _m other 14 * _m m 11 + _m other 15 * _m m 15).

Definition getPremultipliedBy (m other : t) : t := getMultipliedBy other m.

(** The point is taken with a W component of 1. *)
Definition transformPoint (m : t) (point : Vector3.t) : Vector3.t :=
  Vector3
    (xx m * at_ point 0 + yx m * at_ point 1 + zx m * at_ point 2 + tx m)
    (xy m * at_ point 0 + yy m * at_ point 1 + zy m * at_ point 2 + ty m)
    (xz m * at_ point 0 + yz m * at_ point 1 + zz m * at_ point 2 + tz m).

(** The direction is taken with a W component of 0: no translation. *)
Definition transformDirection (m : t) (direction : Vector3.t) : Vector3.t :=
  Vector3
    (xx m * at_ direction 0 + yx m * at_ direction 1 + zx m * at_ direction 2)
    (xy m * at_ direction 0 + yy m * at_ direction 1 + zy m * at_ direction 2)
    (xz m * at_ direction 0 + yz m * at_ direction 1 + zz m * at_ direction 2).

(** The translation column, [translation()]. *)
Definition translation (m : t) : Vector3.t := Vector3 (tx m) (ty m) (tz m).

(** A matrix is affine when its bottom row is (0, 0, 0, 1). *)
Definition isAffine (m : t) : Prop :=
  xw m = 0 /\ yw m = 0 /\ zw m = 0 /\ tw m = 1.

(** The determinant of the upper-left 3x3 block, as [getInverse] computes
    it. *)
Definition det3 (m : t) : R :=
    _m m 0 * (_m m 5 * _m m 10 - _m m 9 * _m m 6)
  - _m m 1 * (_m m 4 * _m m 10 - _m m 8 * _m m 6)
  + _m m 2 * (_m m 4 * _m m 9 - _m m 8 * _m m 5).

(** The columns of the matrix, as vectors. *)
Definition xCol (m : t) : Vector4.t := Vector4.Vector4 (xx m) (xy m) (xz m) (xw m).
Definition yCol (m : t) : Vector4.t := Vector4.Vector4 (yx m) (yy m) (yz m) (yw m).
Definition zCol (m : t) : Vector4.t := Vector4.Vector4 (zx m) (zy m) (zz m) (zw m).
Definition tCol (m : t) : Vector4.t := Vector4.Vector4 (tx m) (ty m) (tz m) (tw m).

(** Transforms a 4-element vector. *)
Definition transform (m : t) (vector4 : Vector4.t) : Vector4.t :=
  Vector4.Vector4
    (_m m 0 * Vector4.at_ vector4 0 + _m m 4 * Vector4.at_ vector4 1
     + _m m 8 * Vector4.at_ vector4 2 + _m m 12 * Vector4.at_ vector4 3)
    (_m m 1 * Vector4.at_ vector4 0 + _m m 5 * Vector4.at_ vector4 1
     + _m m 9 * Vector4.at_ vector4 2 + _m m 13 * Vector4.at_ vector4 3)
    (_m m 2 * Vector4.at_ vector4 0 + _m m 6 * Vector4.at_ vector4 1
     + _m m 10 * Vector4.at_ vector4 2 + _m m 14 * Vector4.at_ vector4 3)
    (_m m 3 * Vector4.at_ vector4 0 + _m m 7 * Vector4.at_ vector4 1
     + _m m 11 * Vector4.at_ vector4 2 + _m m 15 * Vector4.at_ vector4 3).

(** [_m[i] = v] *)
Definition set_m (m : t) (i : nat) (v : R) : t :=
  match m with
  | Matrix4 a0 a1 a2 a3 a4 a5 a6 a7 a8 a9 a10 a11 a12 a13 a14 a15 =>
    match i with
    | 0%nat => Matrix4 v a1 a2 a3 a4 a5 a6 a7 a8 a9 a10 a11 a12 a13 a14 a15
    | 1%nat => Matrix4 a0 v a2 a3 a4 a5 a6 a7 a8 a9 a10 a11 a12 a13 a14 a15
    | 2%nat => Matrix4 a0 a1 v a3 a4 a5 a6 a7 a8 a9 a10 a11 a12 a13 a14 a15
    | 3%nat => Matrix4 a0 a1 a2 v a4 a5 a6 a7 a8 a9 a10 a11 a12 a13 a14 a15
    | 4%nat => Matrix4 a0 a1 a2 a3 v a5 a6 a7 a8 a9 a10 a11 a12 a13 a14 a15
    | 5%nat => Matrix4 a0 a1 a2 a3 a4 v a6 a7 a8 a9 a10 a11 a12 a13 a14 a15
    | 6%nat => Matrix4 a0 a1 a2 a3 a4 a5 v a7 a8 a9 a10 a11 a12 a13 a14 a15
    | 7%nat => Matrix4 a0 a1 a2 a3 a4 a5 a6 v a8 a9 a10 a11 a12 a13 a14 a15
    | 8%nat => Matrix4 a0 a1 a2 a3 a4 a5 a6 a7 v a9 a10 a11 a12 a13 a14 a15
    | 9%nat => Matrix4 a0 a1 a2 a3 a4 a5 a6 a7 a8 v a10 a11 a12 a13 a14 a15
    | 10%nat => Matrix4 a0 a1 a2 a3 a4 a5 a6 a7 a8 a9 v a11 a12 a13 a14 a15
    | 11%nat => Matrix4 a0 a1 a2 a3 a4 a5 a6 a7 a8 a9 a10 v a12 a13 a14 a15
    | 12%nat => Matrix4 a0 a1 a2 a3 a4 a5 a6 a7 a8 a9 a10 a11 v a13 a14 a15
    | 13%nat => Matrix4 a0 a1 a2 a3 a4 a5 a6 a7 a8 a9 a10 a11 a12 v a14 a15
    | 14%nat => Matrix4 a0 a1 a2 a3 a4 a5 a6 a7 a8 a9 a10 a11 a12 a13 v a15
    | _ => Matrix4 a0 a1 a2 a3 a4 a5 a6 a7 a8 a9 a10 a11 a12 a13 a14 v
    end
  end.

(** [std::swap(_m[i], _m[j])] *)
Definition swap_m (i j : nat) (m : t) : t :=
  set_m (set_m m i (_m m j)) j (_m m i).

(** Transposes the matrix in place: six swaps, one after the other. *)
Definition transpose (m : t) : t :=
  let m := swap_m 1 4 m in
  let m := swap_m 2 8 m in
  let m := swap_m 3 12 m in
  let m := swap_m 6 9 m in
  let m := swap_m 7 13 m in
  swap_m 11 14 m.

(** The in-place operations: the value of [*this] afterwards. *)
Definition multiplyBy (m other : t) : t := getMultipliedBy m other.

Definition premultiplyBy (m other : t) : t := getPremultipliedBy m other.

Definition translateBy (m : t) (translation : Vector3.t) : t :=
  multiplyBy m (getTranslation translation).

Definition getTranslatedBy (m : t) (translation : Vector3.t) : t :=
  getMultipliedBy m (getTranslation translation).

Definition scaleBy (m : t) (scale : Vector3.t) : t :=
  multiplyBy m (getScale scale).

(** [scaleBy(scale, pivot)]: translate by the pivot, scale, translate by the
    negated pivot. *)
Definition scaleByPivot (m : t) (scale pivot : Vector3.t) : t :=
  let m := translateBy m pivot in
  let m := scaleBy m scale in
  translateBy m (Vector3 (- x pivot) (- y pivot) (- z pivot)).

(** [operator-] on matrices, element-wise. *)
Definition minus (l r : t) : t :=
  byColumns
    (xx l - xx r) (xy l - xy r) (xz l - xz r) (xw l - xw r)
    (yx l - yx r) (yy l - yy r) (yz l - yz r) (yw l - yw r)
    (zx l - zx r) (zy l - zy r) (zz l - zz r) (zw l - zw r)
    (tx l - tx r) (ty l - ty r) (tz l - tz r) (tw l - tw r).

Definition getRotationAboutXForSinCos (s c : R) : t :=
  byColumns
    1 0 0 0
    0 c s 0
    0 (- s) c 0
    0 0 0 1.

Definition getRotationAboutYForSinCos (s c : R) : t :=
  byColumns
    c 0 (- s) 0
    0 1 0 0
    s 0 c 0
    0 0 0 1.

Definition getRotationAboutZForSinCos (s c : R) : t :=
  byColumns
    c s 0 0
    (- s) c 0 0
    0 0 1 0
    0 0 0 1.

(** The rotation for euler angles in radians, in the order (x, y, z). *)
Definition getRotationForEulerXYZ (euler : Vector3.t) : t :=
  let cx := cos (at_ euler 0) in
  let sx := sin (at_ euler 0) in
  let cy := cos (at_ euler 1) in
  let sy := sin (at_ euler 1) in
  let cz := cos (at_ euler 2) in
  let sz := sin (at_ euler 2) in
  byColumns
    (cy * cz)
    (cy * sz)
    (- sy)
    0
    (sx * sy * cz + cx * - sz)
    (sx * sy * sz + cx * cz)
    (sx * cy)
    0
    (cx * sy * cz + sx * sz)
    (cx * sy * sz + - sx * cz)
    (cx * cy)
    0
    0
    0
    0
    1.

(** The rotation about an axis (which must be normalised) by an angle. *)
Definition getRotation (axis : Vector3.t) (angle : R) : t :=
  let cosPhi := cos angle in
  let sinPhi := sin angle in
  let oneMinusCosPhi := 1 - cos angle in
  let x := x axis in
  let y := y axis in
  let z := z axis in
  byColumns
    (cosPhi + oneMinusCosPhi * x * x) (oneMinusCosPhi * x * y - sinPhi * z)
    (oneMinusCosPhi * x * z + sinPhi * y) 0
    (oneMinusCosPhi * y * x + sinPhi * z) (cosPhi + oneMinusCosPhi * y * y)
    (oneMinusCosPhi * y * z - sinPhi * x) 0
    (oneMinusCosPhi * z * x - sinPhi * y) (oneMinusCosPhi * z * y + sinPhi * x)
    (cosPhi + oneMinusCosPhi * z * z) 0
    0 0 0 1.

(** The determinant of the matrix, as [getFullInverse] computes it from its
    minors. *)
Definition determinant (m : t) : R :=
  let minor01 := zz m * tw m - zw m * tz m in
  let minor02 := zy m * tw m - zw m * ty m in
  let minor03 := zx m * tw m - zw m * tx m in
  let minor04 := zy m * tz m - zz m * ty m in
  let minor05 := zx m * tz m - zz m * tx m in
  let minor06 := zx m * ty m - zy m * tx m in
  let minor3x3_11 := yy m * minor01 - yz m * minor02 + yw m * minor04 in
  let minor3x3_21 := yx m * minor01 - yz m * minor03 + yw m * minor05 in
  let minor3x3_31 := yx m * minor02 - yy m * minor03 + yw m * minor06 in
  let minor3x3_41 := yx m * minor04 - yy m * minor05 + yz m * minor06 in
  xx m * minor3x3_11 - xy m * minor3x3_21 + xz m * minor3x3_31
  - xw m * minor3x3_41.

(** Orthonormal: the transposed matrix is a two-sided inverse. *)
Definition orthonormal (m : t) : Prop :=
  getMultipliedBy (getTransposed m) m = getIdentity
  /\ getMultipliedBy m (getTransposed m) = getIdentity.

End Matrix4.

(* ===================================================================== *)
(** ** Machine integers and exceptions *)
(* ===================================================================== *)

(** An [unsigned int] is 32 bits wide; arithmetic on it wraps around. *)
Definition u32 (z : Z) : Z := (z mod 2 ^ 32)%Z.

(** [static_cast<unsigned int>] of a [std::size_t]. *)
Definition static_cast_u32 (n : nat) : Z := u32 (Z.of_nat n).

(** The exceptions the code throws or catches, with their [what()]. *)
Inductive exception : Type :=
| runtime_error (what : string)
| filesystem_error (what : string).

(** How a call ends: it returns, or it throws. *)
Inductive outcome (A : Type) : Type :=
| Returned (a : A)
| Thrown (e : exception).
Arguments Returned {A} a.
Arguments Thrown {A} e.

(* ===================================================================== *)
(** ** ArbitraryMeshVertex *)
(* ===================================================================== *)

Module ArbitraryMeshVertex.

(** Modelled from the spec: the vertex record ([export/ArbitraryMeshVertex.h]
    is not part of the sources at hand): position, normal, texture
    coordinate and colour, under the names the callers use.  Two vertices
    are identical iff all four fields are equal component by component
    ([export/VertexHashing.h], absent too, supplies that equality to the
    hash map). *)
Record t : Type := ArbitraryMeshVertex {
  vertex : Vector3.t;
  normal : Vector3.t;
  texcoord : Vector2.t;
  colour : Vector3.t }.

Lemma vertex_eq_dec (a b : t) : {a = b} + {a <> b}.
Proof.
  destruct a as [a1 a2 a3 a4], b as [b1 b2 b3 b4].
  destruct (Vector3.vector3_eq_dec a1 b1) as [->|n1]; [|right; congruence].
  destruct (Vector3.vector3_eq_dec a2 b2) as [->|n2]; [|right; congruence].
  destruct (Vector2.vector2_eq_dec a3 b3) as [->|n3]; [|right; congruence].
  destruct (Vector3.vector3_eq_dec a4 b4) as [->|n4]; [|right; congruence].
  now left.
Qed.

(** The vertex [ConstructMeshVertex] builds for a geometry without normals,
    texture coordinates and colours: the position, and the defaults
    (1,0,0), (0,0) and (1,1,1). *)
Definition ofPosition (px py pz : R) : t :=
  ArbitraryMeshVertex
    (Vector3.Vector3 px py pz) (Vector3.Vector3 1 0 0)
    (Vector2.Vector2 0 0) (Vector3.Vector3 1 1 1).

End ArbitraryMeshVertex.

(* ===================================================================== *)
(** ** FbxSurface: the per-material vertex index *)
(* ===================================================================== *)

Module FbxSurface.

(** [std::unordered_map<ArbitraryMeshVertex, std::size_t>] as an association
    list in insertion order, keys compared with the vertex equality. *)
Definition VertexIndexMap : Type := list (ArbitraryMeshVertex.t * nat).

Record t : Type := FbxSurface {
  indices : list Z;
  vertices : list ArbitraryMeshVertex.t;
  material : string;
  vertexIndices : VertexIndexMap }.

(** A default-constructed surface. *)
Definition empty : t := FbxSurface [] [] "" [].

Definition getVertexArray (s : t) : list ArbitraryMeshVertex.t := vertices s.
Definition getIndexArray (s : t) : list Z := indices s.
Definition getActiveMaterial (s : t) : string := material s.

(** [unordered_map::find]: the entry stored under [key], if any. *)
Fixpoint find (key : ArbitraryMeshVertex.t) (m : VertexIndexMap)
  : option (ArbitraryMeshVertex.t * nat) :=
  match m with
  | [] => None
  | (k, i) :: rest =>
    if ArbitraryMeshVertex.vertex_eq_dec k key then Some (k, i) else find key rest
  end.

(** [unordered_map::try_emplace]: the map afterwards, the entry the returned
    iterator points to, and whether the insertion took place. *)
Definition try_emplace (key : ArbitraryMeshVertex.t) (value : nat)
  (m : VertexIndexMap)
  : VertexIndexMap * (ArbitraryMeshVertex.t * nat) * bool :=
  match find key m with
  | Some entry => (m, entry, false)
  | None => (m ++ [(key, value)], (key, value), true)
  end.

Definition addVertex (vertex : ArbitraryMeshVertex.t) (s : t) : t :=
  let '(vertexIndices', first, second) :=
    try_emplace vertex (length (vertices s)) (vertexIndices s) in
  let vertices' :=
    if second then vertices s ++ [fst first] else vertices s in
  {| indices := indices s ++ [static_cast_u32 (snd first)];
     vertices := vertices';
     material := material s;
     vertexIndices := vertexIndices' |}.

(** [n] successive calls of [addVertex] with the same vertex. *)
Fixpoint addVertexTimes (n : nat) (vertex : ArbitraryMeshVertex.t) (s : t) : t :=
  match n with
  | O => s
  | S n' => addVertexTimes n' vertex (addVertex vertex s)
  end.

(** The calls of [addVertex] with the vertices of [vs], first to last. *)
Definition addVertices (vs : list ArbitraryMeshVertex.t) (s : t) : t :=
  fold_left (fun acc v => addVertex v acc) vs s.

(** [surface.material = name], as [ExportFbxMesh] names its surfaces. *)
Definition setMaterial (name : string) (s : t) : t :=
  {| indices := indices s;
     vertices := vertices s;
     material := name;
     vertexIndices := vertexIndices s |}.

(** One triangle over the corners (0,0,0), (1,0,0), (0,1,0), as
    [ExportFbxMesh] builds it: a named surface and three [addVertex]. *)
Definition corner0 : ArbitraryMeshVertex.t := ArbitraryMeshVertex.ofPosition 0 0 0.
Definition corner1 : ArbitraryMeshVertex.t := ArbitraryMeshVertex.ofPosition 1 0 0.
Definition corner2 : ArbitraryMeshVertex.t := ArbitraryMeshVertex.ofPosition 0 1 0.

Definition triangle (name : string) : t :=
  addVertices [corner0; corner1; corner2] (setMaterial name empty).

(** The hash index and the vertex array agree: every entry of the index
    names the position of its key in the array, and every vertex of the
    array is found in the index under its own position. *)
Definition consistent (s : t) : Prop :=
  (forall v e, find v (vertexIndices s) = Some e ->
     fst e = v /\ vertices s !! snd e = Some v) /\
  (forall i v, vertices s !! i = Some v ->
     find v (vertexIndices s) = Some (v, i)).

(** Every stored index addresses a vertex of the array. *)
Definition indicesValid (s : t) : Prop :=
  Forall (fun idx => (0 <= idx < Z.of_nat (length (vertices s)))%Z) (indices s).

(** The index stored at position [k] addresses the vertex [v] of the
    array. *)
Definition resolves (s : t) (k : nat) (v : ArbitraryMeshVertex.t) : Prop :=
  exists idx : Z,
    indices s !! k = Some idx /\ (0 <= idx)%Z
    /\ vertices s !! Z.to_nat idx = Some v.

End FbxSurface.

(* ===================================================================== *)
(** ** ModelExporterBase: surface aggregation *)
(* ===================================================================== *)

Module ModelExporterBase.

Record Surface : Type := mkSurface {
  materialName : string;
  vertices : list ArbitraryMeshVertex.t;
  indices : list Z }.

(** [std::map<std::string, Surface>] *)
Abbreviation Surfaces := (gmap string Surface).

(** Looks the surface of [name] up, creating an empty one under that name
    when there is none.  The C++ function returns a reference into the map:
    here the current value of that slot and the map. *)
Definition ensureSurface (name : string) (_surfaces : Surfaces)
  : Surface * Surfaces :=
  match _surfaces !! name with
  | Some surf => (surf, _surfaces)
  | None =>
    let surf := {| materialName := name; vertices := []; indices := [] |} in
    (surf, <[name := surf]> _surfaces)
  end.

(** The vertex [addSurface] constructs from an incoming one. *)
Definition transformVertex (localToWorld invTranspTransform : Matrix4.t)
  (meshVertex : ArbitraryMeshVertex.t) : ArbitraryMeshVertex.t :=
  ArbitraryMeshVertex.ArbitraryMeshVertex
    (Matrix4.transformPoint localToWorld (ArbitraryMeshVertex.vertex meshVertex))
    (Vector3.getNormalised
       (Matrix4.transformPoint invTranspTransform
          (ArbitraryMeshVertex.normal meshVertex)))
    (ArbitraryMeshVertex.texcoord meshVertex)
    (ArbitraryMeshVertex.colour meshVertex).

(** The loop [for (i = 0; i < indices.size() - 2; i += 3)]: three
    [push_back] per round onto [out].  Each round advances [i] by 3, so
    [length indices] rounds of fuel are never used up.  The subtraction
    [indices.size() - 2] does not wrap: the loop is reached only with at
    least 3 indices. *)
Fixpoint reverseWindingLoop (fuel : nat) (indices : list Z) (indexStart : Z)
  (i : nat) (out : list Z) : list Z :=
  match fuel with
  | O => out
  | S fuel' =>
    if (i <? length indices - 2)%nat then
      reverseWindingLoop fuel' indices indexStart (i + 3)
        (out ++ [u32 (nth (i + 2) indices 0%Z + indexStart);
                 u32 (nth (i + 1) indices 0%Z + indexStart);
                 u32 (nth (i + 0) indices 0%Z + indexStart)])
    else out
  end.

(** The indices that loop appends, by recursion on the incoming indices:
    each full triple, reversed and offset; what is left over after the last
    full triple is dropped. *)
Fixpoint reversedTriangles (indexStart : Z) (indices : list Z) : list Z :=
  match indices with
  | i0 :: i1 :: i2 :: rest =>
    u32 (i2 + indexStart) :: u32 (i1 + indexStart) :: u32 (i0 + indexStart)
      :: reversedTriangles indexStart rest
  | _ => []
  end.

Definition rejectMessage : string :=
  "Rejecting model surface with less than 3 indices.".

(** The error of a rejected index buffer, the spec's [InvalidGeometry]. *)
Definition InvalidGeometry : exception := runtime_error rejectMessage.

Definition addSurface (incoming : FbxSurface.t) (localToWorld : Matrix4.t)
  (_surfaces : Surfaces) : Surfaces * outcome unit :=
  let name := FbxSurface.getActiveMaterial incoming in
  let '(surface, _surfaces) := ensureSurface name _surfaces in
  let invTranspTransform :=
    Matrix4.getTransposed (Matrix4.getFullInverse localToWorld) in
  let indexStart := static_cast_u32 (length (vertices surface)) in
  let vertices_in := FbxSurface.getVertexArray incoming in
  let indices_in := FbxSurface.getIndexArray incoming in
  if (length indices_in <? 3)%nat then
    (_surfaces, Thrown (runtime_error rejectMessage))
  else
    let vertices' :=
      fold_left
        (fun acc meshVertex =>
           acc ++ [transformVertex localToWorld invTranspTransform meshVertex])
        vertices_in (vertices surface) in
    let indices' :=
      reverseWindingLoop (length indices_in) indices_in indexStart 0
        (indices surface) in
    (<[name := {| materialName := materialName surface;
                  vertices := vertices';
                  indices := indices' |}]> _surfaces,
     Returned tt).

(** The surface the reference returned by [ensureSurface] denotes: the one
    stored under [name], or a new, empty one. *)
Definition surfaceOf (name : string) (_surfaces : Surfaces) : Surface :=
  fst (ensureSurface name _surfaces).

(** The surface [addSurface] leaves under the material of an accepted
    incoming surface. *)
Definition aggregated (incoming : FbxSurface.t) (localToWorld : Matrix4.t)
  (surface : Surface) : Surface :=
  {| materialName := materialName surface;
     vertices :=
       vertices surface
       ++ map (transformVertex localToWorld
                 (Matrix4.getTransposed (Matrix4.getFullInverse localToWorld)))
            (FbxSurface.getVertexArray incoming);
     indices :=
       indices surface
       ++ reversedTriangles (static_cast_u32 (length (vertices surface)))
            (FbxSurface.getIndexArray incoming) |}.

(** The loop of [ExportFbxMesh] over [surfacesByMaterial]: one [addSurface]
    per surface, with one transform; there is no [try] around the call, so
    the first exception leaves the loop. *)
Fixpoint addSurfaces (surfacesByMaterial : list FbxSurface.t)
  (transform : Matrix4.t) (_surfaces : Surfaces) : Surfaces * outcome unit :=
  match surfacesByMaterial with
  | [] => (_surfaces, Returned tt)
  | surface :: rest =>
    match addSurface surface transform _surfaces with
    | (_surfaces', Returned _) => addSurfaces rest transform _surfaces'
    | (_surfaces', Thrown e) => (_surfaces', Thrown e)
    end
  end.

(** The invariant of a [Surface]: indices address vertices, and come in
    triples. *)
Definition surfaceValid (s : Surface) : Prop :=
  Forall (fun idx => (0 <= idx < Z.of_nat (length (vertices s)))%Z) (indices s)
  /\ (length (indices s) mod 3 = 0)%nat.

(** The exporter states a sequence of [addSurface] calls reaches from a
    fresh exporter, every incoming surface having valid indices. *)
Inductive reachable : Surfaces -> Prop :=
| reachable_empty : reachable ∅
| reachable_addSurface (st : Surfaces) (incoming : FbxSurface.t)
    (localToWorld : Matrix4.t) :
    reachable st ->
    FbxSurface.indicesValid incoming ->
    reachable (fst (addSurface incoming localToWorld st)).

(** A polygon (triangle) which is part of a model surface. *)
Record ModelPolygon : Type := mkModelPolygon {
  a : ArbitraryMeshVertex.t;
  b : ArbitraryMeshVertex.t;
  c : ArbitraryMeshVertex.t }.

(** One round of the loop of [addPolygons]: three vertices and the three
    indices [indexStart], [indexStart + 1], [indexStart + 2] are pushed. *)
Definition addPolygon (surface : Surface) (poly : ModelPolygon) : Surface :=
  let indexStart := static_cast_u32 (length (vertices surface)) in
  let transformed := poly in
  {| materialName := materialName surface;
     vertices := vertices surface ++ [a transformed] ++ [b transformed]
                 ++ [c transformed];
     indices := indices surface ++ [indexStart] ++ [u32 (indexStart + 1)]
                ++ [u32 (indexStart + 2)] |}.

Definition addPolygons (name : string) (polys : list ModelPolygon)
  (_surfaces : Surfaces) : Surfaces :=
  let '(surface, _surfaces) := ensureSurface name _surfaces in
  <[name := fold_left addPolygon polys surface]> _surfaces.

(** The index stored at position [k] of a surface addresses the vertex [v]
    of its array. *)
Definition resolves (s : Surface) (k : nat) (v : ArbitraryMeshVertex.t) : Prop :=
  exists idx : Z,
    indices s !! k = Some idx /\ (0 <= idx)%Z
    /\ vertices s !! Z.to_nat idx = Some v.

(** The exporter states reached from a fresh exporter by [addSurface] calls
    (with incoming surfaces of valid indices) and [addPolygons] calls. *)
Inductive reachableByCalls : Surfaces -> Prop :=
| reachableByCalls_empty : reachableByCalls ∅
| reachableByCalls_addSurface (st : Surfaces) (incoming : FbxSurface.t)
    (localToWorld : Matrix4.t) :
    reachableByCalls st ->
    FbxSurface.indicesValid incoming ->
    reachableByCalls (fst (addSurface incoming localToWorld st))
| reachableByCalls_addPolygons (st : Surfaces) (name : string)
    (polys : list ModelPolygon) :
    reachableByCalls st ->
    reachableByCalls (addPolygons name polys st).

End ModelExporterBase.

(* ===================================================================== *)
(** ** ExportStream: writing through a temporary file *)
(* ===================================================================== *)

Module ExportStream.

(** The regular files of the file system: path to content.  A
    [std::filesystem::path] is its string. *)
Abbreviation Files := (gmap string string).

(** [operator/] on paths: the two parts joined by the separator. *)
Definition path_append (p q : string) : string := p +:+ "/" +:+ q.

(** A [std::ofstream]: whether it is open, and what was written to it but
    has not reached the file yet. *)
Record ofstream : Type := mkOfstream {
  is_open : bool;
  buffered : string }.

Record t : Type := ExportStream {
  _tempFile : string;
  _tempStream : ofstream;
  _outputDirectory : string;
  _filename : string }.

(** What the environment makes fail: opening the temporary file, removing
    the target, renaming; a failing [std::filesystem] call throws a
    [filesystem_error] with the given [what()]. *)
Record Faults : Type := mkFaults {
  open_fails : bool;
  remove_fails : option string;
  rename_fails : option string }.

(** [std::filesystem::exists] *)
Definition fs_exists (p : string) (files : Files) : bool :=
  bool_decide (is_Some (files !! p)).

(** [std::filesystem::remove]: deletes the file and tells whether there was
    one; a failing call leaves the files as they are. *)
Definition fs_remove (fault : option string) (p : string) (files : Files)
  : Files * outcome bool :=
  match fault with
  | Some what => (files, Thrown (filesystem_error what))
  | None => (delete p files, Returned (fs_exists p files))
  end.

(** [std::filesystem::rename]: moves the file, replacing one at the new
    path; a failing call leaves the files as they are. *)
Definition fs_rename (fault : option string) (old_p new_p : string)
  (files : Files) : Files * outcome unit :=
  match fault with
  | Some what => (files, Thrown (filesystem_error what))
  | None =>
    match files !! old_p with
    | Some content => (<[new_p := content]> (delete old_p files), Returned tt)
    | None => (files, Thrown (filesystem_error "No such file or directory"))
    end
  end.

(** [std::ofstream::close]: what is still buffered reaches the file. *)
Definition ofstream_close (p : string) (s : ofstream) (files : Files)
  : ofstream * Files :=
  if is_open s then
    match files !! p with
    | Some content =>
      (mkOfstream false "", <[p := content +:+ buffered s]> files)
    | None => (mkOfstream false "", files)
    end
  else (s, files).

(** The constructor: the temporary file is the target's name with a leading
    underscore, in the output directory; opening it truncates it. *)
Definition open (outputDirectory filename : string) (env : Faults)
  (files : Files) : Files * outcome t :=
  let targetPath := outputDirectory in
  let _tempFile := path_append targetPath ("_" +:+ filename) in
  if open_fails env then
    (files,
     Thrown (runtime_error ("Cannot open file for writing: " +:+ _tempFile)))
  else
    (<[_tempFile := ""]> files,
     Returned (ExportStream _tempFile (mkOfstream true "") outputDirectory
                 filename)).

(** Writing to [getStream()]. *)
Definition write (data : string) (es : t) : t :=
  ExportStream (_tempFile es)
    (mkOfstream (is_open (_tempStream es))
       (buffered (_tempStream es) +:+ data))
    (_outputDirectory es) (_filename es).

Definition close (es : t) (env : Faults) (files : Files)
  : t * Files * outcome unit :=
  let '(stream', files) := ofstream_close (_tempFile es) (_tempStream es) files in
  let es := ExportStream (_tempFile es) stream' (_outputDirectory es)
              (_filename es) in
  let targetPath := path_append (_outputDirectory es) (_filename es) in
  let '(files, thrown) :=
    if fs_exists targetPath files then
      match fs_remove (remove_fails env) targetPath files with
      | (files', Returned _) => (files', None)
      | (files', Thrown (filesystem_error what)) =>
        (files',
         Some (runtime_error ("Could not remove the existing file "
                              +:+ targetPath +:+ ": " +:+ what)))
      | (files', Thrown e) => (files', Some e)
      end
    else (files, None) in
  match thrown with
  | Some e => (es, files, Thrown e)
  | None =>
    match fs_rename (rename_fails env) (_tempFile es) targetPath files with
    | (files', Returned _) => (es, files', Returned tt)
    | (files', Thrown (filesystem_error _)) =>
      (es, files',
       Thrown (runtime_error ("Could not rename the temporary file: "
                              +:+ _tempFile es)))
    | (files', Thrown e) => (es, files', Thrown e)
    end
  end.

(** A stream for "out/model.lwo" with "LWO2" written to it and not flushed
    yet, the files at that moment (an older target exists), and an environment
    where renaming fails. *)
Definition sampleStream : t :=
  write "LWO2"
    (ExportStream "out/_model.lwo" (mkOfstream true "") "out" "model.lwo").

Definition sampleFiles : Files :=
  <["out/_model.lwo" := ""]> (<["out/model.lwo" := "old"]> ∅).

Definition renameFails : Faults := mkFaults false None (Some "EXDEV").

(** What the constructor establishes about the paths. *)
Definition wellFormed (es : t) : Prop :=
  _tempFile es = path_append (_outputDirectory es) ("_" +:+ _filename es).

Definition targetPath (es : t) : string :=
  path_append (_outputDirectory es) (_filename es).

(** Several writes to [getStream()], first to last. *)
Definition writeAll (datas : list string) (es : t) : t :=
  fold_left (fun e d => write d e) datas es.

(** Everything written, in order. *)
Definition allOf (datas : list string) : string :=
  fold_left (fun acc d => acc +:+ d) datas "".

End ExportStream.

(* ===================================================================== *)
(** ** Endian-aware writers *)
(* ===================================================================== *)

Module Endian.

(** A byte is a [Z] in the range [0, 256); an output stream is the list of
    the bytes written to it so far. *)

(** The bytes of an unsigned value of [size] bytes, most significant byte
    first. *)
Fixpoint bigEndianBytes (size : nat) (value : Z) : list Z :=
  match size with
  | O => []
  | S size' => bigEndianBytes size' (value / 256) ++ [(value mod 256)%Z]
  end.

(** The object representation of such a value in the memory of the host:
    what [reinterpret_cast<char*>(&output)] points to. *)
Definition objectRepresentation (hostIsBigEndian : bool) (size : nat)
  (value : Z) : list Z :=
  if hostIsBigEndian then bigEndianBytes size value
  else rev (bigEndianBytes size value).

(** [writeBigEndian]: the bytes of [output] are reversed unless
    [__BIG_ENDIAN__] is defined, and then written. *)
Definition writeBigEndian (BIG_ENDIAN_defined : bool) (stream : list Z)
  (output : list Z) : list Z :=
  let output := if BIG_ENDIAN_defined then output else rev output in
  stream ++ output.

(** [writeLittleEndian]: the bytes of [output] are reversed if
    [__BIG_ENDIAN__] is defined, and then written. *)
Definition writeLittleEndian (BIG_ENDIAN_defined : bool) (stream : list Z)
  (output : list Z) : list Z :=
  let output := if BIG_ENDIAN_defined then rev output else output in
  stream ++ output.

(** Reading an unsigned value from bytes, most significant byte first. *)
Definition readBigEndian (bytes : list Z) : Z :=
  fold_left (fun acc byte => (acc * 256 + byte)%Z) bytes 0%Z.

End Endian.

(* ===================================================================== *)
(** ** AABB *)
(* ===================================================================== *)

Module AABB.
Local Open Scope R_scope.
Import Vector3.

(** An axis-aligned bounding box: its centre and its half-extents. *)
Record t : Type := AABB { origin : Vector3.t; extents : Vector3.t }.

(** One round of the loop of [includePoint], for the axis [i]: the new
    [origin[i]] and [extents[i]]. *)
Definition includePointAxis (origin_i extents_i point_i : R) : R * R :=
  let axisDisp := point_i - origin_i in
  let halfDif := 1 / 2 * (Rabs axisDisp - extents_i) in
  if Rlt_dec 0 halfDif then
    (origin_i + (if Rlt_dec 0 axisDisp then halfDif else - halfDif),
     extents_i + halfDif)
  else (origin_i, extents_i).

(** One round of the loop of [includeAABB], for the axis [i]. *)
Definition includeAABBAxis (origin_i extents_i other_origin_i other_extents_i : R)
  : R * R :=
  let displacement := other_origin_i - origin_i in
  let difference := other_extents_i - extents_i in
  if Rlt_dec (Rabs difference) (Rabs displacement) then
    let half_difference := 1 / 2 * (Rabs displacement + difference) in
    if Rlt_dec 0 half_difference then
      (origin_i + (if Rle_dec 0 displacement then half_difference
                   else - half_difference),
       extents_i + half_difference)
    else (origin_i, extents_i)
  else if Rlt_dec 0 difference then (other_origin_i, other_extents_i)
  else (origin_i, extents_i).

Section Validity.

(** [isValid] is declared in a header that is not among the sources; the
    functions below are given for any such test. *)
Variable isValid : t -> bool.

Definition includePoint (box : t) (point : Vector3.t) : t :=
  if negb (isValid box) then AABB point (Vector3 0 0 0)
  else
    let ax := includePointAxis (x (origin box)) (x (extents box)) (x point) in
    let ay := includePointAxis (y (origin box)) (y (extents box)) (y point) in
    let az := includePointAxis (z (origin box)) (z (extents box)) (z point) in
    AABB (Vector3 (fst ax) (fst ay) (fst az))
         (Vector3 (snd ax) (snd ay) (snd az)).

Definition includeAABB (box other : t) : t :=
  if isValid box && isValid other then
    let ax := includeAABBAxis (x (origin box)) (x (extents box))
                (x (origin other)) (x (extents other)) in
    let ay := includeAABBAxis (y (origin box)) (y (extents box))
                (y (origin other)) (y (extents other)) in
    let az := includeAABBAxis (z (origin box)) (z (extents box))
                (z (origin other)) (z (extents other)) in
    AABB (Vector3 (fst ax) (fst ay) (fst az))
         (Vector3 (snd ax) (snd ay) (snd az))
  else if isValid other then AABB (origin other) (extents other)
  else box.

End Validity.

Definition createFromOrientedAABB (aabb : t) (transform : Matrix4.t) : t :=
  AABB
    (Matrix4.transformPoint transform (origin aabb))
    (Vector3
       (Rabs (Matrix4._m transform 0 * at_ (extents aabb) 0)
        + Rabs (Matrix4._m transform 4 * at_ (extents aabb) 1)
        + Rabs (Matrix4._m transform 8 * at_ (extents aabb) 2))
       (Rabs (Matrix4._m transform 1 * at_ (extents aabb) 0)
        + Rabs (Matrix4._m transform 5 * at_ (extents aabb) 1)
        + Rabs (Matrix4._m transform 9 * at_ (extents aabb) 2))
       (Rabs (Matrix4._m transform 2 * at_ (extents aabb) 0)
        + Rabs (Matrix4._m transform 6 * at_ (extents aabb) 1)
        + Rabs (Matrix4._m transform 10 * at_ (extents aabb) 2))).

(** The point lies in the box: on each axis within the half-extent of the
    centre. *)
Definition contains (box : t) (p : Vector3.t) : Prop :=
  Rabs (x p - x (origin box)) <= x (extents box)
  /\ Rabs (y p - y (origin box)) <= y (extents box)
  /\ Rabs (z p - z (origin box)) <= z (extents box).

Definition nonNegative (box : t) : Prop :=
  0 <= x (extents box) /\ 0 <= y (extents box) /\ 0 <= z (extents box).

End AABB.

(* ===================================================================== *)
(** ** FbxToLwo: from the scene to the exporter *)
(* ===================================================================== *)

Module FbxToLwo.
Local Open Scope R_scope.

(** What the scene library gives of a geometry: the vertex positions, the
    optional arrays of normals, texture coordinates and colours (a null
    pointer is [None]), the optional per-triangle material indices, and the
    face indices, whose count is [getIndexCount()].  An array read outside
    its bounds, undefined in C++, yields a default here. *)
Record Geometry : Type := mkGeometry {
  getVertices : list Vector3.t;
  getNormals : option (list Vector3.t);
  getUVs : option (list Vector2.t);
  getColors : option (list Vector4.t);
  getMaterials : option (list Z);
  getFaceIndices : list Z }.

Definition getIndexCount (geometry : Geometry) : nat :=
  length (getFaceIndices geometry).

(** A mesh: its geometry and the names of its materials. *)
Record Mesh : Type := mkMesh {
  getGeometry : Geometry;
  getMaterialNames : list string }.

Definition getMaterialCount (mesh : Mesh) : nat :=
  length (getMaterialNames mesh).

(** A scene: its meshes, and whether its up axis is the Y axis. *)
Record Scene : Type := mkScene {
  getMeshes : list Mesh;
  upAxisIsY : bool }.

(** [array[index]] with an [int] index. *)
Definition at3 (array : list Vector3.t) (index : Z) : Vector3.t :=
  nth (Z.to_nat index) array (Vector3.Vector3 0 0 0).
Definition at2 (array : list Vector2.t) (index : Z) : Vector2.t :=
  nth (Z.to_nat index) array (Vector2.Vector2 0 0).
Definition at4 (array : list Vector4.t) (index : Z) : Vector4.t :=
  nth (Z.to_nat index) array (Vector4.Vector4 0 0 0 0).

Definition ConstructMeshVertex (geometry : Geometry) (index : Z)
  : ArbitraryMeshVertex.t :=
  let vertices := getVertices geometry in
  let normals := getNormals geometry in
  let uvs := getUVs geometry in
  let colours := getColors geometry in
  ArbitraryMeshVertex.ArbitraryMeshVertex
    (Vector3.Vector3 (Vector3.x (at3 vertices index))
       (Vector3.y (at3 vertices index)) (Vector3.z (at3 vertices index)))
    (match normals with
     | Some normals =>
       Vector3.Vector3 (Vector3.x (at3 normals index))
         (Vector3.y (at3 normals index)) (Vector3.z (at3 normals index))
     | None => Vector3.Vector3 1 0 0
     end)
    (match uvs with
     | Some uvs =>
       Vector2.Vector2 (Vector2.x (at2 uvs index))
         (1 - Vector2.y (at2 uvs index))
     | None => Vector2.Vector2 0 0
     end)
    (match colours with
     | Some colours =>
       Vector3.Vector3 (Vector4.x (at4 colours index))
         (Vector4.y (at4 colours index)) (Vector4.z (at4 colours index))
     | None => Vector3.Vector3 1 1 1
     end).

(** The loop that names the surfaces: [surfacesByMaterial[m].material =
    material->name] for every material [m]. *)
Definition nameSurfaces (names : list string)
  (surfacesByMaterial : list FbxSurface.t) : list FbxSurface.t :=
  fold_left
    (fun acc m => alter (FbxSurface.setMaterial (nth m names "")) m acc)
    (seq 0 (length names)) surfacesByMaterial.

(** The surfaces before the triangles are distributed: one per material, or
    a single one named "Material" for a mesh without materials. *)
Definition initialSurfaces (mesh : Mesh) : list FbxSurface.t :=
  let surfacesByMaterial := repeat FbxSurface.empty (getMaterialCount mesh) in
  let surfacesByMaterial :=
    if (getMaterialCount mesh =? 0)%nat
    then surfacesByMaterial ++ [FbxSurface.setMaterial "Material" FbxSurface.empty]
    else surfacesByMaterial in
  nameSurfaces (getMaterialNames mesh) surfacesByMaterial.

(** The material index of the triangle that starts at face index [i]. *)
Definition materialIndexAt (geometry : Geometry) (i : nat) : Z :=
  let polyIndex := (i / 3)%nat in
  match getMaterials geometry with
  | Some materials => nth polyIndex materials 0%Z
  | None => 0%Z
  end.

(** The three vertex indices of that triangle, in the order they are added:
    the last face index of a polygon is stored negative and 1-based. *)
Definition indexA (geometry : Geometry) (i : nat) : Z :=
  (nth (i + 2) (getFaceIndices geometry) 0 * -1 - 1)%Z.
Definition indexB (geometry : Geometry) (i : nat) : Z :=
  nth (i + 1) (getFaceIndices geometry) 0%Z.
Definition indexC (geometry : Geometry) (i : nat) : Z :=
  nth (i + 0) (getFaceIndices geometry) 0%Z.

(** One round of the loop over the triangles. *)
Definition addTriangle (geometry : Geometry) (i : nat)
  (surfacesByMaterial : list FbxSurface.t) : list FbxSurface.t :=
  let materialIndex := Z.to_nat (materialIndexAt geometry i) in
  let s := alter (FbxSurface.addVertex
                    (ConstructMeshVertex geometry (indexA geometry i)))
             materialIndex surfacesByMaterial in
  let s := alter (FbxSurface.addVertex
                    (ConstructMeshVertex geometry (indexB geometry i)))
             materialIndex s in
  alter (FbxSurface.addVertex
           (ConstructMeshVertex geometry (indexC geometry i)))
    materialIndex s.

(** The loop [for (int i = 0; i < geometry->getIndexCount(); i += 3)];
    [getIndexCount()] rounds of fuel are never used up. *)
Fixpoint triangleLoop (fuel : nat) (geometry : Geometry) (i : nat)
  (surfacesByMaterial : list FbxSurface.t) : list FbxSurface.t :=
  match fuel with
  | O => surfacesByMaterial
  | S fuel' =>
    if (i <? getIndexCount geometry)%nat then
      triangleLoop fuel' geometry (i + 3)
        (addTriangle geometry i surfacesByMaterial)
    else surfacesByMaterial
  end.

(** The surfaces of a mesh, as they are handed to the exporter. *)
Definition surfacesOfMesh (mesh : Mesh) : list FbxSurface.t :=
  triangleLoop (getIndexCount (getGeometry mesh)) (getGeometry mesh) 0
    (initialSurfaces mesh).

(** What every surface of a mesh satisfies while it is built. *)
Definition wellBuilt (s : FbxSurface.t) : Prop :=
  FbxSurface.consistent s /\ FbxSurface.indicesValid s
  /\ (length (FbxSurface.indices s) mod 3 = 0)%nat.

Definition allSlots (P : FbxSurface.t -> Prop) (l : list FbxSurface.t) : Prop :=
  forall m s, l !! m = Some s -> P s.

Definition noIndices (s : FbxSurface.t) : Prop := FbxSurface.indices s = [].

(** The vertices of all surfaces of a mesh, counted. *)
Fixpoint totalVertices (l : list FbxSurface.t) : nat :=
  match l with
  | [] => 0%nat
  | s :: rest => (length (FbxSurface.vertices s) + totalVertices rest)%nat
  end.

Section Degrees.

(** [degrees_to_radians] is declared in a header that is not among the
    sources; what follows is given for any such conversion. *)
Variable degrees_to_radians : R -> R.

Definition euler_degrees_to_radians (euler : Vector3.t) : Vector3.t :=
  Vector3.Vector3
    (degrees_to_radians (Vector3.x euler))
    (degrees_to_radians (Vector3.y euler))
    (degrees_to_radians (Vector3.z euler)).

Definition getRotationForEulerXYZDegrees (euler : Vector3.t) : Matrix4.t :=
  Matrix4.getRotationForEulerXYZ (euler_degrees_to_radians euler).

(** The transform of the meshes of a scene. *)
Definition sceneTransform (UpAxisIsY : bool) : Matrix4.t :=
  let transform := Matrix4.getIdentity in
  if UpAxisIsY then
    Matrix4.getPremultipliedBy transform
      (getRotationForEulerXYZDegrees (Vector3.Vector3 90 0 0))
  else transform.

(** The body of the loop of [ExportFbxMesh] over the meshes. *)
Definition exportMesh (UpAxisIsY : bool) (mesh : Mesh)
  (exporter : ModelExporterBase.Surfaces)
  : ModelExporterBase.Surfaces * outcome unit :=
  let surfacesByMaterial := surfacesOfMesh mesh in
  let transform := sceneTransform UpAxisIsY in
  ModelExporterBase.addSurfaces surfacesByMaterial transform exporter.

Fixpoint exportMeshes (UpAxisIsY : bool) (meshes : list Mesh)
  (exporter : ModelExporterBase.Surfaces)
  : ModelExporterBase.Surfaces * outcome unit :=
  match meshes with
  | [] => (exporter, Returned tt)
  | mesh :: rest =>
    match exportMesh UpAxisIsY mesh exporter with
    | (exporter', Returned _) => exportMeshes UpAxisIsY rest exporter'
    | (exporter', Thrown e) => (exporter', Thrown e)
    end
  end.

Definition ExportFbxMesh (scene : Scene)
  (exporter : ModelExporterBase.Surfaces)
  : ModelExporterBase.Surfaces * outcome unit :=
  exportMeshes (upAxisIsY scene) (getMeshes scene) exporter.

End Degrees.

(** A mesh of one triangle with the corners (0,0,0), (1,0,0), (0,1,0), one
    material, and no normals, texture coordinates or colours. *)
Definition sampleMesh : Mesh :=
  mkMesh
    (mkGeometry
       [Vector3.Vector3 0 0 0; Vector3.Vector3 1 0 0; Vector3.Vector3 0 1 0]
       None None None None [0; 1; -3]%Z)
    ["Stone"].

(** *** Predicates on the surfaces built and stored *)

(** The three indices at [n], [n + 1], [n + 2] address [u], [v], [w]. *)
Definition triple (s : FbxSurface.t) (n : nat) (u v w : ArbitraryMeshVertex.t)
  : Prop :=
  FbxSurface.resolves s n u /\ FbxSurface.resolves s (n + 1) v
  /\ FbxSurface.resolves s (n + 2) w.

(** The surface [s] holds what [s0] holds, and possibly more behind it. *)
Definition extends (s0 s : FbxSurface.t) : Prop :=
  (exists l, FbxSurface.indices s = FbxSurface.indices s0 ++ l)
  /\ (exists l, FbxSurface.vertices s = FbxSurface.vertices s0 ++ l)
  /\ FbxSurface.material s = FbxSurface.material s0.

(** The vertex count of the surface a name denotes. *)
Definition cap (st : ModelExporterBase.Surfaces) (name : string) : nat :=
  length (ModelExporterBase.vertices (ModelExporterBase.surfaceOf name st)).

(** Every surface of the exporter has indices inside its vertex array. *)
Definition allValid (st : ModelExporterBase.Surfaces) : Prop :=
  forall n s, st !! n = Some s -> ModelExporterBase.surfaceValid s.

(** The three indices at [n], [n + 1], [n + 2] of a Surface address [u],
    [v], [w]. *)
Definition tripleOf (s : ModelExporterBase.Surface) (n : nat)
  (u v w : ArbitraryMeshVertex.t) : Prop :=
  ModelExporterBase.resolves s n u /\ ModelExporterBase.resolves s (n + 1) v
  /\ ModelExporterBase.resolves s (n + 2) w.

End FbxToLwo.

(* ===================================================================== *)
(** * Properties of the matrix algebra *)
(* ===================================================================== *)

Module Matrix4Facts.
Import Vector3 Matrix4.
Local Open Scope R_scope.

(** Unfolds the matrix operations down to equations between reals. *)
Ltac mat_unfold :=
  unfold getMultipliedBy, getPremultipliedBy, getInverse, getFullInverse,
    getTransposed, transformPoint, transformDirection, translation,
    getIdentity, getTranslation, getScale, byColumns, det3, _m, at_ in *;
  cbn [xx xy xz xw yx yy yz yw zx zy zz zw tx ty tz tw x y z] in *.

Lemma getMultipliedBy_assoc (A B C : Matrix4.t) :
  getMultipliedBy (getMultipliedBy A B) C
  = getMultipliedBy A (getMultipliedBy B C).
Proof.
  destruct A, B, C. mat_unfold. f_equal; ring.
Qed.

Lemma getMultipliedBy_transformPoint (A B : Matrix4.t) (p : Vector3.t) :
  isAffine B ->
  transformPoint (getMultipliedBy A B) p
  = transformPoint A (transformPoint B p).
Proof.
  intros (Hx & Hy & Hz & Hw).
  destruct A, B, p. mat_unfold. subst. f_equal; ring.
Qed.

Lemma getIdentity_transformPoint (p : Vector3.t) :
  transformPoint getIdentity p = p.
Proof. destruct p. mat_unfold. f_equal; ring. Qed.

Lemma getFullInverse_identity : getFullInverse getIdentity = getIdentity.
Proof. mat_unfold. f_equal; field. Qed.

Lemma getTransposed_identity : getTransposed getIdentity = getIdentity.
Proof. reflexivity. Qed.

(** For a matrix whose bottom row starts with three zeros, the transposed
    full inverse has a zero translation column. *)
Lemma normalMatrix_translation (T : Matrix4.t) :
  xw T = 0 -> yw T = 0 -> zw T = 0 ->
  translation (getTransposed (getFullInverse T)) = Vector3 0 0 0.
Proof.
  intros Hx Hy Hz. destruct T. mat_unfold. subst. f_equal; ring.
Qed.

Lemma transformPoint_zero_translation (N : Matrix4.t) (n : Vector3.t) :
  translation N = Vector3 0 0 0 ->
  transformPoint N n = transformDirection N n.
Proof.
  destruct N, n. mat_unfold. intros [= -> -> ->]. f_equal; ring.
Qed.

Lemma getNormalised_unit_x : getNormalised (Vector3 1 0 0) = Vector3 1 0 0.
Proof.
  unfold getNormalised, getLength; cbn [x y z].
  replace (1 * 1 + 0 * 0 + 0 * 0) with 1 by ring.
  rewrite sqrt_1. f_equal; field.
Qed.

Lemma getNormalised_half_x : getNormalised (Vector3 (1 / 2) 0 0) = Vector3 1 0 0.
Proof.
  unfold getNormalised, getLength; cbn [x y z].
  replace (1 / 2 * (1 / 2) + 0 * 0 + 0 * 0) with ((1 / 2) * (1 / 2)) by ring.
  rewrite sqrt_square by lra. f_equal; field.
Qed.

(** C7: for every affine matrix T whose upper-left 3x3 block has a non-zero
    determinant and every point p, transforming p by T and then by
    T.getInverse() gives p back, over exact arithmetic.  The 3x3 block of
    getInverse() is the inverse of the 3x3 block of T (the cofactors over
    the determinant), its translation is minus that inverse applied to the
    translation of T, and getInverse() is a two-sided inverse of T under
    getMultipliedBy. *)
Theorem getInverse_roundtrip (T : Matrix4.t) (p : Vector3.t) :
  isAffine T -> det3 T <> 0 ->
  transformPoint (getInverse T) (transformPoint T p) = p
  /\ transformDirection (getInverse T) (transformDirection T p) = p
  /\ (tx (getInverse T) = - x (transformDirection (getInverse T) (translation T))
      /\ ty (getInverse T) = - y (transformDirection (getInverse T) (translation T))
      /\ tz (getInverse T) = - z (transformDirection (getInverse T) (translation T)))
  /\ getMultipliedBy (getInverse T) T = getIdentity
  /\ getMultipliedBy T (getInverse T) = getIdentity.
Proof.
  intros (Hx & Hy & Hz & Hw) Hdet.
  destruct T, p. mat_unfold. subst.
  repeat split; try (f_equal; field; exact Hdet); ring.
Qed.

Lemma getInverse_roundtrip_witness :
  transformPoint (getInverse (getScale (Vector3 2 1 1)))
    (transformPoint (getScale (Vector3 2 1 1)) (Vector3 1 2 3))
  = Vector3 1 2 3.
Proof.
  apply (getInverse_roundtrip (getScale (Vector3 2 1 1)) (Vector3 1 2 3)).
  - mat_unfold. repeat split; reflexivity.
  - mat_unfold. lra.
Defined.

(** The statement of C9 as written fails for a matrix B that is not affine:
    with A the translation by (1,0,0) and B the identity with its last
    element doubled, the product moves the origin to (2,0,0), while B and
    then A move it to (1,0,0). *)
Lemma getMultipliedBy_transformPoint_not_general :
  let A := getTranslation (Vector3 1 0 0) in
  let B := byColumns 1 0 0 0  0 1 0 0  0 0 1 0  0 0 0 2 in
  transformPoint (getMultipliedBy A B) (Vector3 0 0 0) = Vector3 2 0 0
  /\ transformPoint A (transformPoint B (Vector3 0 0 0)) = Vector3 1 0 0
  /\ transformPoint (getMultipliedBy A B) (Vector3 0 0 0)
     <> transformPoint A (transformPoint B (Vector3 0 0 0)).
Proof.
  cbv zeta. mat_unfold.
  split; [f_equal; ring|].
  split; [f_equal; ring|].
  intros [= H]. lra.
Qed.

(** C9 (amended): for all matrices A and every affine matrix B (bottom row
    (0,0,0,1)) and every point p, A.getMultipliedBy(B).transformPoint(p)
    equals A.transformPoint(B.transformPoint(p)); and getMultipliedBy is
    associative for all matrices A, B, C. *)
Theorem getMultipliedBy_composes :
  (forall (A B : Matrix4.t) (p : Vector3.t),
     isAffine B ->
     transformPoint (getMultipliedBy A B) p
     = transformPoint A (transformPoint B p))
  /\ (forall A B C : Matrix4.t,
        getMultipliedBy (getMultipliedBy A B) C
        = getMultipliedBy A (getMultipliedBy B C)).
Proof.
  split.
  - exact getMultipliedBy_transformPoint.
  - exact getMultipliedBy_assoc.
Qed.

Lemma getMultipliedBy_composes_witness :
  isAffine (getScale (Vector3 2 1 1))
  /\ transformPoint
       (getMultipliedBy (getTranslation (Vector3 1 0 0)) (getScale (Vector3 2 1 1)))
       (Vector3 1 2 3)
     = transformPoint (getTranslation (Vector3 1 0 0))
         (transformPoint (getScale (Vector3 2 1 1)) (Vector3 1 2 3)).
Proof.
  assert (H : isAffine (getScale (Vector3 2 1 1)))
    by (mat_unfold; repeat split; reflexivity).
  split; [exact H|].
  exact (proj1 getMultipliedBy_composes _ _ _ H).
Defined.

End Matrix4Facts.

(* ===================================================================== *)
(** * Further laws of the matrix algebra *)
(* ===================================================================== *)

(** The matrix entries are real numbers: what follows holds of the formulas
    of the code without the rounding of the doubles. *)

Module Matrix4Laws.
Import Vector3 Matrix4 Matrix4Facts.
Local Open Scope R_scope.

(** Unfolds the vector and matrix operations down to equations between
    reals. *)
Ltac mat_unfold_all :=
  unfold scaleByPivot in *;
  unfold translateBy, getTranslatedBy, scaleBy in *;
  unfold transform, xCol, yCol, zCol, tCol, transpose, swap_m, set_m,
    multiplyBy, premultiplyBy, minus, getRotationAboutXForSinCos,
    getRotationAboutYForSinCos, getRotationAboutZForSinCos,
    getRotationForEulerXYZ, getRotation, determinant,
    Vector4.ofVector3, Vector4.add, Vector4.sub, Vector4.scale,
    Vector4.divide, Vector4.dot, Vector4.getProjected, Vector4.getVector3,
    Vector4.at_ in *;
  mat_unfold;
  cbn [Vector4.x Vector4.y Vector4.z Vector4.w
       xx xy xz xw yx yy yz yw zx zy zz zw tx ty tz tw x y z] in *.

Lemma transform_product (A B : Matrix4.t) (v : Vector4.t) :
  transform (getMultipliedBy A B) v = transform A (transform B v).
Proof. destruct A, B, v. mat_unfold_all. f_equal; ring. Qed.

(** X1: over exact arithmetic (the doubles of the code taken as real
    numbers, without rounding), the product transforms as the two factors in
    turn, for all matrices and all 4-element vectors; so does the product with a third matrix,
    whichever way it is bracketed, and getPremultipliedBy applies its
    argument last. *)
Theorem transform_getMultipliedBy (A B C : Matrix4.t) (v : Vector4.t) :
  transform (getMultipliedBy A B) v = transform A (transform B v)
  /\ transform (getMultipliedBy (getMultipliedBy A B) C) v
     = transform (getMultipliedBy A (getMultipliedBy B C)) v
  /\ transform (getPremultipliedBy A B) v = transform B (transform A v).
Proof.
  unfold getPremultipliedBy. rewrite !transform_product. auto.
Qed.

(** X2: transformPoint is transform on the point with W = 1 and
    transformDirection is transform on the direction with W = 0, the fourth
    component of the result dropped; an affine matrix leaves that fourth
    component as it was, so nothing is lost. *)
Theorem transformPoint_is_transform (m : Matrix4.t) (p : Vector3.t) :
  transformPoint m p = Vector4.getVector3 (transform m (Vector4.ofVector3 p 1))
  /\ transformDirection m p
     = Vector4.getVector3 (transform m (Vector4.ofVector3 p 0))
  /\ (isAffine m ->
      forall v : Vector4.t, Vector4.w (transform m v) = Vector4.w v).
Proof.
  destruct m, p. mat_unfold_all.
  split; [f_equal; ring|]. split; [f_equal; ring|].
  intros (Hx & Hy & Hz & Hw) v. cbn in Hx, Hy, Hz, Hw. subst.
  destruct v. mat_unfold_all. ring.
Qed.

Lemma transformPoint_is_transform_witness :
  Vector4.w (transform (getTranslation (Vector3 1 2 3)) (Vector4.Vector4 4 5 6 1))
  = 1.
Proof.
  apply (transformPoint_is_transform (getTranslation (Vector3 1 2 3))
           (Vector3 0 0 0)).
  repeat split; reflexivity.
Defined.

Lemma getMultipliedBy_identity_l (m : Matrix4.t) :
  getMultipliedBy getIdentity m = m.
Proof. destruct m. mat_unfold. f_equal; ring. Qed.

Lemma getMultipliedBy_identity_r (m : Matrix4.t) :
  getMultipliedBy m getIdentity = m.
Proof. destruct m. mat_unfold. f_equal; ring. Qed.

(** X3: the identity matrix is a left and a right unit of getMultipliedBy
    (and so of getPremultipliedBy), and transforms every vector into
    itself. *)
Theorem getIdentity_unit (m : Matrix4.t) (v : Vector4.t) :
  getMultipliedBy getIdentity m = m
  /\ getMultipliedBy m getIdentity = m
  /\ getPremultipliedBy getIdentity m = m
  /\ getPremultipliedBy m getIdentity = m
  /\ transform getIdentity v = v.
Proof.
  unfold getPremultipliedBy.
  rewrite getMultipliedBy_identity_l, getMultipliedBy_identity_r.
  repeat split. destruct v. mat_unfold_all. f_equal; ring.
Qed.

Lemma getTransposed_getMultipliedBy (A B : Matrix4.t) :
  getTransposed (getMultipliedBy A B)
  = getMultipliedBy (getTransposed B) (getTransposed A).
Proof. destruct A, B. mat_unfold. f_equal; ring. Qed.

Lemma getTransposed_involutive (m : Matrix4.t) :
  getTransposed (getTransposed m) = m.
Proof. now destruct m. Qed.

(** X4: the in-place transpose() (six swaps) gives the matrix
    getTransposed() returns; transposing twice gives the matrix back; the
    transpose of a product is the product of the transposes in reverse
    order. *)
Theorem transpose_laws (A B : Matrix4.t) :
  transpose A = getTransposed A
  /\ getTransposed (getTransposed A) = A
  /\ transpose (transpose A) = A
  /\ getTransposed (getMultipliedBy A B)
     = getMultipliedBy (getTransposed B) (getTransposed A).
Proof.
  split; [now destruct A|]. split; [apply getTransposed_involutive|].
  split; [now destruct A|]. apply getTransposed_getMultipliedBy.
Qed.

(** X5: over exact arithmetic (without rounding), the transposed matrix is
    the adjoint for the dot product of 4-element vectors. *)
Theorem transform_getTransposed_dot (m : Matrix4.t) (a b : Vector4.t) :
  Vector4.dot (transform (getTransposed m) a) b
  = Vector4.dot a (transform m b).
Proof. destruct m, a, b. mat_unfold_all. ring. Qed.

(** [transform] is linear: it distributes over the sum and the difference
    of vectors and commutes with the multiplication by a scalar. *)
Theorem transform_linear (m : Matrix4.t) (a b : Vector4.t) (k : R) :
  transform m (Vector4.add a b) = Vector4.add (transform m a) (transform m b)
  /\ transform m (Vector4.sub a b)
     = Vector4.sub (transform m a) (transform m b)
  /\ transform m (Vector4.scale a k) = Vector4.scale (transform m a) k.
Proof.
  destruct m, a, b. mat_unfold_all.
  repeat split; f_equal; ring.
Qed.

(** The reciprocal of the determinant, as a number [i] with
    [determinant * i = 1]. *)
Ltac name_invDet H i Hi :=
  match goal with
  | |- context [1 / ?d] =>
    set (i := 1 / d) in *;
    assert (Hi : d * i = 1) by (subst i; field; exact H);
    clearbody i
  end.

Lemma getFullInverse_left (m : Matrix4.t) :
  determinant m <> 0 -> getMultipliedBy (getFullInverse m) m = getIdentity.
Proof.
  intros H. destruct m. mat_unfold_all. name_invDet H i Hi.
  f_equal; first [ring | rewrite <- Hi; ring].
Qed.

Lemma getFullInverse_right (m : Matrix4.t) :
  determinant m <> 0 -> getMultipliedBy m (getFullInverse m) = getIdentity.
Proof.
  intros H. destruct m. mat_unfold_all. name_invDet H i Hi.
  f_equal; first [ring | rewrite <- Hi; ring].
Qed.

(** X6: for every matrix, affine or not, whose determinant is not zero,
    getFullInverse() is a two-sided inverse under getMultipliedBy, and
    transforming by the matrix and then by its full inverse gives every
    vector back. *)
Theorem getFullInverse_inverse (m : Matrix4.t) (v : Vector4.t) :
  determinant m <> 0 ->
  getMultipliedBy (getFullInverse m) m = getIdentity
  /\ getMultipliedBy m (getFullInverse m) = getIdentity
  /\ transform (getFullInverse m) (transform m v) = v.
Proof.
  intros H. split; [exact (getFullInverse_left m H)|].
  split; [exact (getFullInverse_right m H)|].
  rewrite <- transform_product, (getFullInverse_left m H).
  destruct v. mat_unfold_all. f_equal; ring.
Qed.

Lemma getFullInverse_inverse_witness :
  getMultipliedBy
    (getFullInverse (byColumns 1 0 0 1  0 1 0 0  0 0 1 0  0 0 0 2))
    (byColumns 1 0 0 1  0 1 0 0  0 0 1 0  0 0 0 2)
  = getIdentity.
Proof.
  apply (getFullInverse_inverse (byColumns 1 0 0 1  0 1 0 0  0 0 1 0  0 0 0 2)
           (Vector4.Vector4 0 0 0 1)).
  mat_unfold_all. lra.
Defined.

(** *** The two inverses *)

Lemma getInverse_left (T : Matrix4.t) :
  isAffine T -> det3 T <> 0 -> getMultipliedBy (getInverse T) T = getIdentity.
Proof.
  intros (Hx & Hy & Hz & Hw) Hdet. destruct T. mat_unfold. subst.
  f_equal; field; exact Hdet.
Qed.

Lemma getInverse_right (T : Matrix4.t) :
  isAffine T -> det3 T <> 0 -> getMultipliedBy T (getInverse T) = getIdentity.
Proof.
  intros (Hx & Hy & Hz & Hw) Hdet. destruct T. mat_unfold. subst.
  f_equal; field; exact Hdet.
Qed.

Lemma determinant_affine (T : Matrix4.t) :
  isAffine T -> determinant T = det3 T.
Proof.
  intros (Hx & Hy & Hz & Hw). destruct T. mat_unfold_all. subst. ring.
Qed.

(** A left inverse and a right inverse of one matrix are equal. *)
Lemma inverse_unique (A M B : Matrix4.t) :
  getMultipliedBy A M = getIdentity -> getMultipliedBy M B = getIdentity ->
  A = B.
Proof.
  intros HA HB.
  rewrite <- (getMultipliedBy_identity_r A), <- HB.
  rewrite <- getMultipliedBy_assoc, HA.
  apply getMultipliedBy_identity_l.
Qed.

Lemma getInverse_isAffine (T : Matrix4.t) : isAffine (getInverse T).
Proof. destruct T. mat_unfold. repeat split. Qed.

Lemma getMultipliedBy_isAffine (A B : Matrix4.t) :
  isAffine A -> isAffine B -> isAffine (getMultipliedBy A B).
Proof.
  intros (Ax & Ay & Az & Aw) (Bx & By & Bz & Bw).
  destruct A, B. mat_unfold. unfold isAffine. cbn. subst.
  repeat split; ring.
Qed.

Lemma det3_getMultipliedBy (A B : Matrix4.t) :
  isAffine B -> det3 (getMultipliedBy A B) = det3 A * det3 B.
Proof.
  intros (Bx & By & Bz & Bw). destruct A, B. mat_unfold. subst. ring.
Qed.

Lemma det3_getInverse (T : Matrix4.t) :
  det3 T <> 0 -> det3 (getInverse T) * det3 T = 1.
Proof. intros H. destruct T. mat_unfold. field. exact H. Qed.

Lemma det3_getInverse_neq (T : Matrix4.t) :
  det3 T <> 0 -> det3 (getInverse T) <> 0.
Proof.
  intros H E. pose proof (det3_getInverse T H) as P. rewrite E in P. lra.
Qed.

Lemma getFullInverse_getInverse (T : Matrix4.t) :
  isAffine T -> det3 T <> 0 -> getFullInverse T = getInverse T.
Proof.
  intros Ha Hd. apply (inverse_unique _ T).
  - apply getFullInverse_left. now rewrite determinant_affine.
  - now apply getInverse_right.
Qed.

(** X7: over exact arithmetic (without rounding), on an affine matrix whose
    3x3 block is invertible the affine inverse and the full inverse are the
    same matrix, and it is affine. *)
Theorem getFullInverse_affine (T : Matrix4.t) :
  isAffine T -> det3 T <> 0 ->
  getFullInverse T = getInverse T /\ isAffine (getFullInverse T).
Proof.
  intros Ha Hd. rewrite (getFullInverse_getInverse T Ha Hd).
  split; [reflexivity|apply getInverse_isAffine].
Qed.

Lemma getFullInverse_affine_witness :
  getFullInverse (getTranslation (Vector3 1 2 3))
  = getInverse (getTranslation (Vector3 1 2 3)).
Proof.
  apply (getFullInverse_affine (getTranslation (Vector3 1 2 3))).
  - repeat split; reflexivity.
  - mat_unfold. lra.
Defined.

(** X8: over exact arithmetic (without rounding), getInverse undoes itself
    and reverses products: for affine
    matrices with invertible 3x3 blocks, the inverse of the inverse is the
    matrix, and the inverse of A.getMultipliedBy(B) is
    B.getInverse().getMultipliedBy(A.getInverse()). *)
Theorem getInverse_laws (A B : Matrix4.t) :
  isAffine A -> det3 A <> 0 -> isAffine B -> det3 B <> 0 ->
  getInverse (getInverse A) = A
  /\ getInverse (getMultipliedBy A B)
     = getMultipliedBy (getInverse B) (getInverse A).
Proof.
  intros HaA HdA HaB HdB. split.
  - apply (inverse_unique _ (getInverse A)).
    + apply getInverse_left; [apply getInverse_isAffine|].
      now apply det3_getInverse_neq.
    + now apply getInverse_left.
  - apply (inverse_unique _ (getMultipliedBy A B)).
    + apply getInverse_left; [now apply getMultipliedBy_isAffine|].
      rewrite det3_getMultipliedBy by exact HaB.
      now apply Rmult_integral_contrapositive.
    + rewrite getMultipliedBy_assoc.
      rewrite <- (getMultipliedBy_assoc B).
      rewrite (getInverse_right B HaB HdB), getMultipliedBy_identity_l.
      now apply getInverse_right.
Qed.

Lemma getInverse_laws_witness :
  getInverse (getInverse (getScale (Vector3 2 1 1))) = getScale (Vector3 2 1 1).
Proof.
  assert (Ha : isAffine (getScale (Vector3 2 1 1)))
    by (repeat split; reflexivity).
  assert (Hd : det3 (getScale (Vector3 2 1 1)) <> 0) by (mat_unfold; lra).
  exact (proj1 (getInverse_laws _ _ Ha Hd Ha Hd)).
Defined.

(** The 3x3 block of transpose(fullInverse(T)) is the inverse transpose of
    the 3x3 block of T: a vector transformed by the one and a vector
    transformed by the other have the dot product they had before. *)
Lemma normalMatrix_dot (T : Matrix4.t) (n d : Vector3.t) :
  isAffine T -> det3 T <> 0 ->
  x (transformDirection (getTransposed (getFullInverse T)) n)
  * x (transformDirection T d)
  + y (transformDirection (getTransposed (getFullInverse T)) n)
    * y (transformDirection T d)
  + z (transformDirection (getTransposed (getFullInverse T)) n)
    * z (transformDirection T d)
  = x n * x d + y n * y d + z n * z d.
Proof.
  intros Ha Hd. rewrite (getFullInverse_getInverse T Ha Hd).
  destruct Ha as (Hx & Hy & Hz & Hw). destruct T, n, d. mat_unfold. subst.
  field. exact Hd.
Qed.

(** X9: why normals go through the transposed inverse.  Over exact
    arithmetic (without rounding), for an affine T
    with invertible 3x3 block and N = transpose(fullInverse(T)), the dot
    product of a normal transformed by N with a direction transformed by T
    is the dot product of the two before; so the normal addSurface stores
    for a vertex stays perpendicular to every transformed edge the incoming
    normal was perpendicular to. *)
Theorem normal_stays_perpendicular (T : Matrix4.t) (n p q : Vector3.t) :
  isAffine T -> det3 T <> 0 ->
  let N := getTransposed (getFullInverse T) in
  (forall d : Vector3.t,
     x (transformDirection N n) * x (transformDirection T d)
     + y (transformDirection N n) * y (transformDirection T d)
     + z (transformDirection N n) * z (transformDirection T d)
     = x n * x d + y n * y d + z n * z d)
  /\ (x n * (x p - x q) + y n * (y p - y q) + z n * (z p - z q) = 0 ->
      forall v : ArbitraryMeshVertex.t,
        ArbitraryMeshVertex.normal v = n ->
        let n' := ArbitraryMeshVertex.normal
                    (ModelExporterBase.transformVertex T N v) in
        x n' * (x (transformPoint T p) - x (transformPoint T q))
        + y n' * (y (transformPoint T p) - y (transformPoint T q))
        + z n' * (z (transformPoint T p) - z (transformPoint T q)) = 0).
Proof.
  intros Ha Hd N.
  assert (Hdir : forall d : Vector3.t,
     x (transformDirection N n) * x (transformDirection T d)
     + y (transformDirection N n) * y (transformDirection T d)
     + z (transformDirection N n) * z (transformDirection T d)
     = x n * x d + y n * y d + z n * z d)
    by (intros d; exact (normalMatrix_dot T n d Ha Hd)).
  split; [exact Hdir|].
  intros Hperp v Hv n'. subst n'.
  unfold ModelExporterBase.transformVertex.
  cbn [ArbitraryMeshVertex.normal]. rewrite Hv.
  assert (Ht : translation N = Vector3 0 0 0)
    by (destruct Ha as (Hx & Hy & Hz & Hw); now apply normalMatrix_translation).
  rewrite (transformPoint_zero_translation N n Ht).
  specialize (Hdir (Vector3 (x p - x q) (y p - y q) (z p - z q))).
  cbn [x y z] in Hdir. rewrite Hperp in Hdir.
  assert (He : forall a b c : R,
            x (transformDirection T (Vector3 a b c)) = xx T * a + yx T * b + zx T * c
            /\ y (transformDirection T (Vector3 a b c)) = xy T * a + yy T * b + zy T * c
            /\ z (transformDirection T (Vector3 a b c)) = xz T * a + yz T * b + zz T * c)
    by (intros; repeat split; reflexivity).
  destruct (He (x p - x q) (y p - y q) (z p - z q)) as (E1 & E2 & E3).
  rewrite E1, E2, E3 in Hdir. clear He E1 E2 E3.
  set (m := transformDirection N n) in *.
  unfold getNormalised. cbn [x y z].
  unfold transformPoint, at_. cbn [x y z].
  unfold Rdiv.
  replace (x m * / getLength m *
             (xx T * x p + yx T * y p + zx T * z p + tx T
              - (xx T * x q + yx T * y q + zx T * z q + tx T))
           + y m * / getLength m *
             (xy T * x p + yy T * y p + zy T * z p + ty T
              - (xy T * x q + yy T * y q + zy T * z q + ty T))
           + z m * / getLength m *
             (xz T * x p + yz T * y p + zz T * z p + tz T
              - (xz T * x q + yz T * y q + zz T * z q + tz T)))
    with (/ getLength m *
          (x m * (xx T * (x p - x q) + yx T * (y p - y q) + zx T * (z p - z q))
           + y m * (xy T * (x p - x q) + yy T * (y p - y q) + zy T * (z p - z q))
           + z m * (xz T * (x p - x q) + yz T * (y p - y q) + zz T * (z p - z q))))
    by ring.
  rewrite Hdir. ring.
Qed.

Lemma normal_stays_perpendicular_witness :
  let T := getScale (Vector3 2 1 1) in
  let N := getTransposed (getFullInverse T) in
  x (transformDirection N (Vector3 1 1 0)) * x (transformDirection T (Vector3 1 (-1) 0))
  + y (transformDirection N (Vector3 1 1 0)) * y (transformDirection T (Vector3 1 (-1) 0))
  + z (transformDirection N (Vector3 1 1 0)) * z (transformDirection T (Vector3 1 (-1) 0))
  = 1 * 1 + 1 * (-1) + 0 * 0.
Proof.
  assert (Ha : isAffine (getScale (Vector3 2 1 1)))
    by (repeat split; reflexivity).
  assert (Hd : det3 (getScale (Vector3 2 1 1)) <> 0) by (mat_unfold; lra).
  exact (proj1 (normal_stays_perpendicular (getScale (Vector3 2 1 1))
                  (Vector3 1 1 0) (Vector3 0 0 0) (Vector3 0 0 0) Ha Hd)
           (Vector3 1 (-1) 0)).
Defined.

End Matrix4Laws.

(* ===================================================================== *)
(** * Properties of the vertex index of FbxSurface *)
(* ===================================================================== *)

Module FbxSurfaceFacts.
Import FbxSurface.

Lemma u32_range (z : Z) : (0 <= u32 z < 2 ^ 32)%Z.
Proof. unfold u32. apply Z.mod_pos_bound. lia. Qed.

Lemma u32_small (z : Z) : (0 <= z < 2 ^ 32)%Z -> u32 z = z.
Proof. intros H. unfold u32. apply Z.mod_small. exact H. Qed.

Lemma u32_le (z : Z) : (0 <= z)%Z -> (u32 z <= z)%Z.
Proof. intros H. unfold u32. apply Z.mod_le; lia. Qed.

Lemma find_key (key : ArbitraryMeshVertex.t) (m : VertexIndexMap) e :
  find key m = Some e -> fst e = key.
Proof.
  induction m as [|[k i] rest IH]; cbn; [discriminate|].
  destruct (ArbitraryMeshVertex.vertex_eq_dec k key) as [->|].
  - now intros [= <-].
  - exact IH.
Qed.

Lemma find_app (key k : ArbitraryMeshVertex.t) (i : nat) (m : VertexIndexMap) :
  find key (m ++ [(k, i)])
  = match find key m with
    | Some e => Some e
    | None => if ArbitraryMeshVertex.vertex_eq_dec k key then Some (k, i) else None
    end.
Proof.
  induction m as [|[k' i'] rest IH]; cbn; [reflexivity|].
  destruct (ArbitraryMeshVertex.vertex_eq_dec k' key); [reflexivity|exact IH].
Qed.

(** [addVertex] of a vertex the index already holds. *)
Lemma addVertex_known (v : ArbitraryMeshVertex.t) (s : t) e :
  find v (vertexIndices s) = Some e ->
  addVertex v s
  = {| indices := indices s ++ [static_cast_u32 (snd e)];
       vertices := vertices s;
       material := material s;
       vertexIndices := vertexIndices s |}.
Proof. intros H. unfold addVertex, try_emplace. now rewrite H. Qed.

(** [addVertex] of a vertex the index does not hold yet. *)
Lemma addVertex_new (v : ArbitraryMeshVertex.t) (s : t) :
  find v (vertexIndices s) = None ->
  addVertex v s
  = {| indices := indices s ++ [static_cast_u32 (length (vertices s))];
       vertices := vertices s ++ [v];
       material := material s;
       vertexIndices := vertexIndices s ++ [(v, length (vertices s))] |}.
Proof. intros H. unfold addVertex, try_emplace. now rewrite H. Qed.

Lemma consistent_empty : consistent empty.
Proof. split; cbn; intros; discriminate. Qed.

Lemma consistent_find_None (s : t) (v : ArbitraryMeshVertex.t) :
  consistent s -> find v (vertexIndices s) = None -> v ∉ vertices s.
Proof.
  intros [_ Hv] Hnone [i Hi]%list_elem_of_lookup.
  apply Hv in Hi. congruence.
Qed.

Lemma consistent_find_Some (s : t) (v : ArbitraryMeshVertex.t) e :
  consistent s -> find v (vertexIndices s) = Some e ->
  e = (v, snd e) /\ vertices s !! snd e = Some v
  /\ (snd e < length (vertices s))%nat.
Proof.
  intros [Hm _] He. destruct (Hm _ _ He) as [Hk Hl].
  split; [destruct e; cbn in *; congruence|].
  split; [exact Hl|]. eapply lookup_lt_Some, Hl.
Qed.

Lemma addVertex_consistent (v : ArbitraryMeshVertex.t) (s : t) :
  consistent s -> consistent (addVertex v s).
Proof.
  intros Hc. destruct (find v (vertexIndices s)) as [e|] eqn:Hf.
  - rewrite (addVertex_known _ _ _ Hf). exact Hc.
  - rewrite (addVertex_new _ _ Hf). destruct Hc as [Hm Hv].
    split; cbn [vertexIndices vertices].
    + intros w e. rewrite find_app.
      destruct (find w (vertexIndices s)) as [e'|] eqn:Hw.
      * intros [= <-]. destruct (Hm _ _ Hw) as [Hk Hl].
        split; [exact Hk|]. rewrite lookup_app_l; [exact Hl|].
        eapply lookup_lt_Some, Hl.
      * destruct (ArbitraryMeshVertex.vertex_eq_dec v w) as [->|]; [|discriminate].
        intros [= <-]. cbn. split; [reflexivity|].
        rewrite lookup_app_r by lia. now rewrite Nat.sub_diag.
    + intros i w Hi. rewrite find_app.
      destruct (decide (i < length (vertices s))%nat) as [Hlt|Hge].
      * rewrite lookup_app_l in Hi by exact Hlt. now rewrite (Hv _ _ Hi).
      * rewrite lookup_app_r in Hi by lia.
        destruct (i - length (vertices s))%nat as [|k] eqn:Hk;
          [|destruct k; discriminate].
        cbn in Hi. injection Hi as <-. rewrite Hf.
        destruct (ArbitraryMeshVertex.vertex_eq_dec v v) as [_|]; [|congruence].
        do 2 f_equal. lia.
Qed.

Lemma addVertices_cons (v : ArbitraryMeshVertex.t)
  (vs : list ArbitraryMeshVertex.t) (s : t) :
  addVertices (v :: vs) s = addVertices vs (addVertex v s).
Proof. reflexivity. Qed.

Lemma addVertices_consistent (vs : list ArbitraryMeshVertex.t) (s : t) :
  consistent s -> consistent (addVertices vs s).
Proof.
  revert s. unfold addVertices.
  induction vs as [|v vs IH]; intros s Hc; cbn; [exact Hc|].
  apply IH, addVertex_consistent, Hc.
Qed.

(** A consistent surface holds no vertex twice. *)
Lemma consistent_NoDup (s : t) : consistent s -> NoDup (vertices s).
Proof.
  intros [_ Hv]. apply NoDup_alt. intros i j v Hi Hj.
  apply Hv in Hi, Hj. congruence.
Qed.

Lemma addVertex_indicesValid (v : ArbitraryMeshVertex.t) (s : t) :
  consistent s -> indicesValid s -> indicesValid (addVertex v s).
Proof.
  intros Hc Hi. unfold indicesValid in *.
  destruct (find v (vertexIndices s)) as [e|] eqn:Hf.
  - rewrite (addVertex_known _ _ _ Hf); cbn [indices vertices].
    destruct (consistent_find_Some _ _ _ Hc Hf) as (_ & _ & Hlt).
    apply Forall_app; split; [exact Hi|].
    constructor; [|constructor]. unfold static_cast_u32.
    pose proof (u32_range (Z.of_nat (snd e))).
    pose proof (u32_le (Z.of_nat (snd e))). lia.
  - rewrite (addVertex_new _ _ Hf); cbn [indices vertices].
    rewrite length_app; cbn [length].
    apply Forall_app; split.
    + eapply Forall_impl; [exact Hi|]. cbn. intros. lia.
    + constructor; [|constructor]. unfold static_cast_u32.
      pose proof (u32_range (Z.of_nat (length (vertices s)))).
      pose proof (u32_le (Z.of_nat (length (vertices s)))). lia.
Qed.

Lemma addVertices_indicesValid (vs : list ArbitraryMeshVertex.t) (s : t) :
  consistent s -> indicesValid s -> indicesValid (addVertices vs s).
Proof.
  revert s. unfold addVertices.
  induction vs as [|v vs IH]; intros s Hc Hi; cbn; [exact Hi|].
  apply IH; [apply addVertex_consistent, Hc|apply addVertex_indicesValid; assumption].
Qed.

(** After one [addVertex v], the index holds [v]; further calls with [v]
    only repeat its index. *)
Lemma addVertexTimes_known (n : nat) (v : ArbitraryMeshVertex.t) (s : t) e :
  find v (vertexIndices s) = Some e ->
  addVertexTimes n v s
  = {| indices := indices s ++ repeat (static_cast_u32 (snd e)) n;
       vertices := vertices s;
       material := material s;
       vertexIndices := vertexIndices s |}.
Proof.
  revert s. induction n as [|n IH]; intros s Hf; cbn [addVertexTimes repeat].
  - rewrite app_nil_r. now destruct s.
  - rewrite (addVertex_known _ _ _ Hf). rewrite IH by exact Hf.
    cbn [indices vertices material vertexIndices].
    now rewrite <- app_assoc.
Qed.

Lemma addVertexTimes_new (n : nat) (v : ArbitraryMeshVertex.t) (s : t) :
  find v (vertexIndices s) = None ->
  addVertexTimes (S n) v s
  = {| indices :=
         indices s ++ repeat (static_cast_u32 (length (vertices s))) (S n);
       vertices := vertices s ++ [v];
       material := material s;
       vertexIndices := vertexIndices s ++ [(v, length (vertices s))] |}.
Proof.
  intros Hf. cbn [addVertexTimes]. rewrite (addVertex_new _ _ Hf).
  rewrite (addVertexTimes_known n v _ (v, length (vertices s))).
  - cbn [indices vertices material vertexIndices snd repeat].
    now rewrite <- app_assoc.
  - cbn [vertexIndices]. rewrite find_app, Hf.
    destruct (ArbitraryMeshVertex.vertex_eq_dec v v); congruence.
Qed.

(** C6: N >= 1 insertions of one vertex value v.  Into a fresh surface they
    store N times the index 0 and leave the vertex array with the single
    entry v.  Into any surface whose index agrees with its vertex array they
    store N times one and the same index, and the array keeps its entries
    and gains v at most once.  The first insertion of a vertex that is new
    to a surface (of fewer than 2^32 vertices) appends it and records the
    index len(vertices) - 1 of the array as it is then; that index was not
    issued before, the indices stored so far remain as they were, and every
    entry of the hash index keeps its number. *)
Theorem addVertex_dedup_idempotent (v : ArbitraryMeshVertex.t) (N : nat) :
  (1 <= N)%nat ->
  (indices (addVertexTimes N v empty) = repeat 0%Z N
   /\ vertices (addVertexTimes N v empty) = [v])
  /\ (forall s : t, consistent s ->
        exists idx : Z,
          indices (addVertexTimes N v s) = indices s ++ repeat idx N
          /\ (v ∈ vertices s ->
              vertices (addVertexTimes N v s) = vertices s)
          /\ (v ∉ vertices s ->
              vertices (addVertexTimes N v s) = vertices s ++ [v]))
  /\ (forall s : t,
        consistent s -> indicesValid s -> v ∉ vertices s ->
        (Z.of_nat (length (vertices s)) < 2 ^ 32)%Z ->
        let s' := addVertex v s in
        vertices s' = vertices s ++ [v]
        /\ indices s'
           = indices s ++ [Z.of_nat (length (vertices s') - 1)]
        /\ (Z.of_nat (length (vertices s') - 1) ∉ indices s)
        /\ (forall w e, find w (vertexIndices s) = Some e ->
              find w (vertexIndices s') = Some e)).
Proof.
  intros HN. destruct N as [|n]; [lia|]. split; [|split].
  - rewrite addVertexTimes_new by reflexivity. cbn [indices vertices empty].
    split; reflexivity.
  - intros s Hc. destruct (find v (vertexIndices s)) as [e|] eqn:Hf.
    + exists (static_cast_u32 (snd e)).
      rewrite (addVertexTimes_known _ _ _ _ Hf); cbn [indices vertices].
      split; [reflexivity|]. split; [reflexivity|].
      intros Hnot. exfalso. apply Hnot.
      destruct (consistent_find_Some _ _ _ Hc Hf) as (_ & Hl & _).
      eapply list_elem_of_lookup_2, Hl.
    + exists (static_cast_u32 (length (vertices s))).
      rewrite (addVertexTimes_new _ _ _ Hf); cbn [indices vertices].
      split; [reflexivity|]. split; [|reflexivity].
      intros Hin. exfalso. exact (consistent_find_None _ _ Hc Hf Hin).
  - intros s Hc Hi Hnot Hlen s'. subst s'.
    assert (Hf : find v (vertexIndices s) = None).
    { destruct (find v (vertexIndices s)) as [e|] eqn:Hf; [|reflexivity].
      exfalso. apply Hnot.
      destruct (consistent_find_Some _ _ _ Hc Hf) as (_ & Hl & _).
      eapply list_elem_of_lookup_2, Hl. }
    rewrite (addVertex_new _ _ Hf); cbn [indices vertices vertexIndices].
    rewrite length_app; cbn [length].
    replace (length (vertices s) + 1 - 1)%nat with (length (vertices s)) by lia.
    split; [reflexivity|]. split.
    { unfold static_cast_u32. rewrite u32_small by lia. reflexivity. }
    split.
    { intros Hin. unfold indicesValid in Hi.
      rewrite Forall_forall in Hi. apply Hi in Hin. lia. }
    intros w e Hw. rewrite find_app, Hw. reflexivity.
Qed.

Lemma addVertex_dedup_idempotent_witness :
  (1 <= 3)%nat
  /\ indices (addVertexTimes 3 (ArbitraryMeshVertex.ofPosition 0 0 0) empty) = [0; 0; 0]%Z
  /\ vertices (addVertexTimes 3 (ArbitraryMeshVertex.ofPosition 0 0 0) empty)
     = [ArbitraryMeshVertex.ofPosition 0 0 0].
Proof.
  assert (H : (1 <= 3)%nat) by lia.
  split; [exact H|].
  exact (proj1 (addVertex_dedup_idempotent (ArbitraryMeshVertex.ofPosition 0 0 0) 3 H)).
Defined.

End FbxSurfaceFacts.

(* ===================================================================== *)
(** * Properties of the surface aggregation *)
(* ===================================================================== *)

Module ModelExporterBaseFacts.
Import ModelExporterBase.
Import FbxSurfaceFacts.

(** Induction over a list three elements at a time. *)
Lemma list_ind3 {A : Type} (P : list A -> Prop) :
  P [] -> (forall a, P [a]) -> (forall a b, P [a; b]) ->
  (forall a b c l, P l -> P (a :: b :: c :: l)) ->
  forall l, P l.
Proof.
  intros H0 H1 H2 H3. fix IH 1.
  intros [|a [|b [|c l]]]; [exact H0|apply H1|apply H2|apply H3, IH].
Qed.

(** The vertex loop appends the transformed vertices, in order. *)
Lemma vertexLoop_map {A B : Type} (f : A -> B) (l : list A) (acc : list B) :
  fold_left (fun acc a => acc ++ [f a]) l acc = acc ++ map f l.
Proof.
  revert acc. induction l as [|a l IH]; intros acc; cbn.
  - now rewrite app_nil_r.
  - rewrite IH. now rewrite <- app_assoc.
Qed.

(** The winding loop, started at the end of a prefix [done], appends the
    reversed triangles of the rest, whenever the fuel covers the rest. *)
Lemma reverseWindingLoop_from (fuel : nat) (done rest : list Z)
  (indexStart : Z) (out : list Z) :
  (length rest <= fuel)%nat ->
  reverseWindingLoop fuel (done ++ rest) indexStart (length done) out
  = out ++ reversedTriangles indexStart rest.
Proof.
  revert done rest out. induction fuel as [|fuel IH]; intros done rest out Hf.
  - destruct rest; [|cbn in Hf; lia]. cbn. now rewrite app_nil_r.
  - cbn [reverseWindingLoop]. rewrite length_app.
    destruct rest as [|a [|b [|c rest]]]; cbn [length reversedTriangles].
    + rewrite (proj2 (Nat.ltb_ge _ _)) by lia. now rewrite app_nil_r.
    + rewrite (proj2 (Nat.ltb_ge _ _)) by lia. now rewrite app_nil_r.
    + rewrite (proj2 (Nat.ltb_ge _ _)) by lia. now rewrite app_nil_r.
    + rewrite (proj2 (Nat.ltb_lt _ _)) by lia.
      rewrite !app_nth2 by lia.
      replace (length done + 2 - length done)%nat with 2%nat by lia.
      replace (length done + 1 - length done)%nat with 1%nat by lia.
      replace (length done + 0 - length done)%nat with 0%nat by lia.
      cbn [nth].
      replace (done ++ a :: b :: c :: rest) with ((done ++ [a; b; c]) ++ rest)
        by (now rewrite <- app_assoc).
      replace (length done + 3)%nat with (length (done ++ [a; b; c]))
        by (rewrite length_app; reflexivity).
      rewrite IH by (cbn in Hf; lia).
      now rewrite <- app_assoc.
Qed.

Lemma reverseWindingLoop_spec (indices : list Z) (indexStart : Z)
  (out : list Z) :
  reverseWindingLoop (length indices) indices indexStart 0 out
  = out ++ reversedTriangles indexStart indices.
Proof. exact (reverseWindingLoop_from (length indices) [] indices indexStart out (le_n _)). Qed.

Lemma reversedTriangles_length (indexStart : Z) (indices : list Z) :
  length (reversedTriangles indexStart indices) = (3 * (length indices / 3))%nat.
Proof.
  induction indices as [| | |a b c l IH] using list_ind3; try reflexivity.
  cbn [reversedTriangles length]. rewrite IH.
  change (S (S (S (length l)))) with (3 + length l)%nat.
  replace (3 + length l)%nat with (length l + 1 * 3)%nat by lia.
  rewrite Nat.div_add by lia. lia.
Qed.

Lemma reversedTriangles_lookup (indexStart : Z) (indices : list Z) (k : nat)
  (i0 i1 i2 : Z) :
  indices !! (3 * k)%nat = Some i0 ->
  indices !! (3 * k + 1)%nat = Some i1 ->
  indices !! (3 * k + 2)%nat = Some i2 ->
  reversedTriangles indexStart indices !! (3 * k)%nat = Some (u32 (i2 + indexStart))
  /\ reversedTriangles indexStart indices !! (3 * k + 1)%nat = Some (u32 (i1 + indexStart))
  /\ reversedTriangles indexStart indices !! (3 * k + 2)%nat = Some (u32 (i0 + indexStart)).
Proof.
  revert indices. induction k as [|k IH]; intros indices H0 H1 H2.
  - destruct indices as [|a [|b [|c l]]]; cbn in *; try discriminate.
    injection H0 as <-. injection H1 as <-. injection H2 as <-. auto.
  - destruct indices as [|a [|b [|c l]]];
      try (apply lookup_lt_Some in H2; cbn in H2; lia).
    replace (3 * S k)%nat with (S (S (S (3 * k)))) in * by lia.
    cbn in H0, H1, H2. cbn [reversedTriangles].
    exact (IH l H0 H1 H2).
Qed.

Lemma reversedTriangles_bound (indexStart bound : Z) (indices : list Z) :
  (0 <= indexStart)%Z ->
  Forall (fun idx => 0 <= idx < bound)%Z indices ->
  Forall (fun idx => 0 <= idx < bound + indexStart)%Z
    (reversedTriangles indexStart indices).
Proof.
  intros Hs.
  induction indices as [| | |a b c l IH] using list_ind3; intros H;
    cbn [reversedTriangles]; try constructor.
  - apply Forall_cons_1 in H as [Ha H].
    apply Forall_cons_1 in H as [Hb H].
    apply Forall_cons_1 in H as [Hc H].
    pose proof (u32_range (c + indexStart)).
    pose proof (u32_le (c + indexStart)). lia.
  - apply Forall_cons_1 in H as [Ha H].
    apply Forall_cons_1 in H as [Hb H].
    apply Forall_cons_1 in H as [Hc H].
    constructor; [|constructor; [|apply IH, H]].
    + pose proof (u32_range (b + indexStart)).
      pose proof (u32_le (b + indexStart)). lia.
    + pose proof (u32_range (a + indexStart)).
      pose proof (u32_le (a + indexStart)). lia.
Qed.

(** *** ensureSurface *)

Lemma ensureSurface_lookup (name : string) (st : Surfaces) :
  snd (ensureSurface name st) !! name = Some (fst (ensureSurface name st)).
Proof.
  unfold ensureSurface. destruct (st !! name) eqn:H; cbn; [exact H|].
  apply lookup_insert_eq.
Qed.

Lemma ensureSurface_lookup_ne (name other : string) (st : Surfaces) :
  name <> other -> snd (ensureSurface name st) !! other = st !! other.
Proof.
  intros Hne. unfold ensureSurface. destruct (st !! name); cbn; [reflexivity|].
  now apply lookup_insert_ne.
Qed.

Lemma ensureSurface_new (name : string) (st : Surfaces) :
  st !! name = None ->
  ensureSurface name st
  = (mkSurface name [] [], <[name := mkSurface name [] []]> st).
Proof. intros H. unfold ensureSurface. now rewrite H. Qed.

Lemma ensureSurface_existing (name : string) (st : Surfaces) surf :
  st !! name = Some surf -> ensureSurface name st = (surf, st).
Proof. intros H. unfold ensureSurface. now rewrite H. Qed.

(** *** addSurface, case by case *)

Lemma addSurface_rejected (incoming : FbxSurface.t) (T : Matrix4.t)
  (st : Surfaces) :
  (length (FbxSurface.getIndexArray incoming) < 3)%nat ->
  addSurface incoming T st
  = (snd (ensureSurface (FbxSurface.getActiveMaterial incoming) st),
     Thrown InvalidGeometry).
Proof.
  intros H. unfold addSurface.
  destruct (ensureSurface _ st) as [surface st'].
  now rewrite (proj2 (Nat.ltb_lt _ _) H).
Qed.

Lemma addSurface_accepted (incoming : FbxSurface.t) (T : Matrix4.t)
  (st : Surfaces) :
  (3 <= length (FbxSurface.getIndexArray incoming))%nat ->
  addSurface incoming T st
  = (<[FbxSurface.getActiveMaterial incoming :=
         aggregated incoming T
           (fst (ensureSurface (FbxSurface.getActiveMaterial incoming) st))]>
       (snd (ensureSurface (FbxSurface.getActiveMaterial incoming) st)),
     Returned tt).
Proof.
  intros H. unfold addSurface, aggregated.
  destruct (ensureSurface _ st) as [surface st']. cbn [fst snd].
  rewrite (proj2 (Nat.ltb_ge _ _)) by lia.
  now rewrite vertexLoop_map, reverseWindingLoop_spec.
Qed.

Lemma addSurface_cases (incoming : FbxSurface.t) (T : Matrix4.t)
  (st : Surfaces) :
  ((length (FbxSurface.getIndexArray incoming) < 3)%nat
   /\ snd (addSurface incoming T st) = Thrown InvalidGeometry)
  \/ ((3 <= length (FbxSurface.getIndexArray incoming))%nat
      /\ snd (addSurface incoming T st) = Returned tt).
Proof.
  destruct (le_lt_dec 3 (length (FbxSurface.getIndexArray incoming))) as [H|H].
  - right. split; [exact H|]. now rewrite addSurface_accepted.
  - left. split; [exact H|]. now rewrite addSurface_rejected.
Qed.

(** The loop on five indices: one triangle, the two left-over indices are
    dropped; the offset wraps at 2^32. *)
Example reverseWindingLoop_five :
  reverseWindingLoop 5 [0; 1; 2; 3; 4]%Z 10 0 [7; 8; 9]%Z
  = [7; 8; 9; 12; 11; 10]%Z.
Proof. reflexivity. Qed.

Example reverseWindingLoop_wraps :
  reverseWindingLoop 3 [0; 1; 2]%Z (2 ^ 32 - 1) 0 [] = [1; 0; 2 ^ 32 - 1]%Z.
Proof. reflexivity. Qed.

End ModelExporterBaseFacts.

Module PipelineFacts.
Import ModelExporterBase.
Import FbxSurfaceFacts ModelExporterBaseFacts Matrix4Facts Matrix4Laws.

Lemma surfaceOf_new (name : string) (st : Surfaces) :
  st !! name = None -> surfaceOf name st = mkSurface name [] [].
Proof. intros H. unfold surfaceOf. now rewrite ensureSurface_new. Qed.

Lemma surfaceOf_existing (name : string) (st : Surfaces) surf :
  st !! name = Some surf -> surfaceOf name st = surf.
Proof. intros H. unfold surfaceOf. now rewrite (ensureSurface_existing _ _ _ H). Qed.

Lemma addSurface_accepted_lookup (incoming : FbxSurface.t) (T : Matrix4.t)
  (st : Surfaces) :
  (3 <= length (FbxSurface.getIndexArray incoming))%nat ->
  fst (addSurface incoming T st) !! FbxSurface.getActiveMaterial incoming
  = Some (aggregated incoming T
            (surfaceOf (FbxSurface.getActiveMaterial incoming) st)).
Proof.
  intros H. rewrite (addSurface_accepted _ _ _ H). cbn [fst].
  apply lookup_insert_eq.
Qed.

Lemma addSurface_lookup_ne (incoming : FbxSurface.t) (T : Matrix4.t)
  (st : Surfaces) (other : string) :
  FbxSurface.getActiveMaterial incoming <> other ->
  fst (addSurface incoming T st) !! other = st !! other.
Proof.
  intros Hne.
  destruct (le_lt_dec 3 (length (FbxSurface.getIndexArray incoming))) as [H|H].
  - rewrite (addSurface_accepted _ _ _ H). cbn [fst].
    rewrite lookup_insert_ne by exact Hne.
    now apply ensureSurface_lookup_ne.
  - rewrite (addSurface_rejected _ _ _ H). cbn [fst].
    now apply ensureSurface_lookup_ne.
Qed.

(** *** The sample triangle *)

Ltac vertex_cases :=
  repeat match goal with
  | |- context [ArbitraryMeshVertex.vertex_eq_dec ?a ?b] =>
    let E := fresh "E" in
    destruct (ArbitraryMeshVertex.vertex_eq_dec a b) as [E|E];
    [try (exfalso; injection E; intros; lra)|try congruence]
  end.

Lemma triangle_eq (name : string) :
  FbxSurface.triangle name
  = {| FbxSurface.indices := [0; 1; 2]%Z;
       FbxSurface.vertices :=
         [FbxSurface.corner0; FbxSurface.corner1; FbxSurface.corner2];
       FbxSurface.material := name;
       FbxSurface.vertexIndices :=
         [(FbxSurface.corner0, 0%nat); (FbxSurface.corner1, 1%nat);
          (FbxSurface.corner2, 2%nat)] |}.
Proof.
  unfold FbxSurface.triangle, FbxSurface.corner0, FbxSurface.corner1,
    FbxSurface.corner2, ArbitraryMeshVertex.ofPosition.
  rewrite addVertices_cons, addVertex_new by reflexivity.
  cbn [FbxSurface.setMaterial FbxSurface.empty FbxSurface.indices
       FbxSurface.vertices FbxSurface.material FbxSurface.vertexIndices
       app length].
  rewrite addVertices_cons, addVertex_new by (cbn; vertex_cases; reflexivity).
  cbn [FbxSurface.indices FbxSurface.vertices FbxSurface.material
       FbxSurface.vertexIndices app length].
  rewrite addVertices_cons, addVertex_new by (cbn; vertex_cases; reflexivity).
  cbn [FbxSurface.indices FbxSurface.vertices FbxSurface.material
       FbxSurface.vertexIndices app length].
  reflexivity.
Qed.

Lemma triangle_consistent (name : string) :
  FbxSurface.consistent (FbxSurface.triangle name).
Proof.
  apply addVertices_consistent. split; cbn; intros; discriminate.
Qed.

Lemma triangle_indicesValid (name : string) :
  FbxSurface.indicesValid (FbxSurface.triangle name).
Proof.
  apply addVertices_indicesValid.
  - split; cbn; intros; discriminate.
  - constructor.
Qed.

Lemma transformVertex_identity (a b c : R) :
  transformVertex Matrix4.getIdentity
    (Matrix4.getTransposed (Matrix4.getFullInverse Matrix4.getIdentity))
    (ArbitraryMeshVertex.ofPosition a b c)
  = ArbitraryMeshVertex.ofPosition a b c.
Proof.
  rewrite getFullInverse_identity, getTransposed_identity.
  unfold transformVertex, ArbitraryMeshVertex.ofPosition.
  cbn [ArbitraryMeshVertex.vertex ArbitraryMeshVertex.normal
       ArbitraryMeshVertex.texcoord ArbitraryMeshVertex.colour].
  now rewrite !getIdentity_transformPoint, getNormalised_unit_x.
Qed.

Lemma aggregated_triangle_identity (name : string) (surface : Surface) :
  aggregated (FbxSurface.triangle name) Matrix4.getIdentity surface
  = {| materialName := materialName surface;
       vertices :=
         vertices surface
         ++ [FbxSurface.corner0; FbxSurface.corner1; FbxSurface.corner2];
       indices :=
         indices surface
         ++ reversedTriangles (static_cast_u32 (length (vertices surface)))
              [0; 1; 2]%Z |}.
Proof.
  unfold aggregated. rewrite triangle_eq.
  unfold FbxSurface.getVertexArray, FbxSurface.getIndexArray.
  cbn [FbxSurface.vertices FbxSurface.indices map].
  unfold FbxSurface.corner0, FbxSurface.corner1, FbxSurface.corner2.
  now rewrite !transformVertex_identity.
Qed.

(** *** Vertices are appended, not merged *)

(** The statement of C1 as written fails: the sample triangle of material
    "M" added twice under the identity transform leaves a surface of six
    vertices, each corner twice. *)
Lemma addSurface_twice_duplicates :
  let st1 := fst (addSurface (FbxSurface.triangle "M") Matrix4.getIdentity ∅) in
  let st2 := fst (addSurface (FbxSurface.triangle "M") Matrix4.getIdentity st1) in
  exists s : Surface,
    st2 !! "M" = Some s
    /\ vertices s
       = [FbxSurface.corner0; FbxSurface.corner1; FbxSurface.corner2;
          FbxSurface.corner0; FbxSurface.corner1; FbxSurface.corner2]
    /\ ~ NoDup (vertices s).
Proof.
  cbv zeta.
  assert (Hacc : (3 <= length (FbxSurface.getIndexArray (FbxSurface.triangle "M")))%nat)
    by (rewrite triangle_eq; cbn; lia).
  pose proof (addSurface_accepted_lookup _ Matrix4.getIdentity ∅ Hacc) as H1.
  replace (FbxSurface.getActiveMaterial (FbxSurface.triangle "M")) with "M" in H1
    by (now rewrite triangle_eq).
  rewrite (surfaceOf_new "M" ∅) in H1 by apply lookup_empty.
  pose proof (addSurface_accepted_lookup _ Matrix4.getIdentity
                (fst (addSurface (FbxSurface.triangle "M") Matrix4.getIdentity ∅))
                Hacc) as H2.
  replace (FbxSurface.getActiveMaterial (FbxSurface.triangle "M")) with "M" in H2
    by (now rewrite triangle_eq).
  rewrite (surfaceOf_existing _ _ _ H1) in H2.
  rewrite !aggregated_triangle_identity in H2.
  eexists. split; [exact H2|]. cbn [vertices app]. split; [reflexivity|].
  intros Hnd. apply NoDup_cons in Hnd as [Hnd _]. apply Hnd.
  do 2 apply list_elem_of_further. apply list_elem_of_here.
Qed.

(** C1 (amended): for every accepted call of addSurface, each vertex of the
    incoming surface is transformed and appended, in order, to the vertex
    sequence of the target Surface: afterwards that sequence is the previous
    one followed by the transformed incoming vertices.  The dedup index of
    FbxSurface::addVertex has been applied before, to the incoming surface:
    a surface built by addVertex calls holds no two identical vertices.
    Nothing is merged across addSurface calls. *)
Theorem addSurface_appends_vertices :
  (forall (incoming : FbxSurface.t) (T : Matrix4.t) (st : Surfaces),
     (3 <= length (FbxSurface.getIndexArray incoming))%nat ->
     exists s : Surface,
       fst (addSurface incoming T st) !! FbxSurface.getActiveMaterial incoming
       = Some s
       /\ vertices s
          = vertices (surfaceOf (FbxSurface.getActiveMaterial incoming) st)
            ++ map (transformVertex T
                      (Matrix4.getTransposed (Matrix4.getFullInverse T)))
                 (FbxSurface.getVertexArray incoming)
       /\ length (vertices s)
          = (length (vertices (surfaceOf (FbxSurface.getActiveMaterial incoming) st))
             + length (FbxSurface.getVertexArray incoming))%nat)
  /\ (forall (vs : list ArbitraryMeshVertex.t) (name : string),
        NoDup (FbxSurface.getVertexArray
                 (FbxSurface.addVertices vs
                    (FbxSurface.setMaterial name FbxSurface.empty)))).
Proof.
  split.
  - intros incoming T st Hacc. eexists.
    split; [exact (addSurface_accepted_lookup _ _ _ Hacc)|].
    cbn [aggregated vertices]. split; [reflexivity|].
    now rewrite length_app, length_map.
  - intros vs name. apply consistent_NoDup, addVertices_consistent.
    split; cbn; intros; discriminate.
Qed.

Lemma addSurface_appends_vertices_witness :
  (3 <= length (FbxSurface.getIndexArray (FbxSurface.triangle "M")))%nat
  /\ exists s : Surface,
       fst (addSurface (FbxSurface.triangle "M") Matrix4.getIdentity ∅) !! "M"
       = Some s
       /\ length (vertices s) = 3%nat.
Proof.
  assert (Hacc : (3 <= length (FbxSurface.getIndexArray (FbxSurface.triangle "M")))%nat)
    by (rewrite triangle_eq; cbn; lia).
  split; [exact Hacc|].
  destruct (proj1 addSurface_appends_vertices (FbxSurface.triangle "M")
              Matrix4.getIdentity ∅ Hacc) as (s & Hs & _ & Hlen).
  exists s. split.
  - rewrite <- Hs. now rewrite triangle_eq.
  - rewrite Hlen. rewrite triangle_eq.
    rewrite surfaceOf_new by apply lookup_empty. reflexivity.
Defined.

(** *** Winding *)

(** C4: for every triangle (i0, i1, i2) of an accepted incoming index list,
    addSurface stores the three indices in the order (i2, i1, i0), each
    offset by the vertex count of the target Surface at the start of the call
    (in 32-bit unsigned arithmetic; the plain sum when it fits 32 bits), after
    the indices the Surface already had.  The vertex data is appended in the
    incoming order whatever the indices are.  A fresh surface fed the
    triangle (0,1,2) ends up with the indices (2,1,0). *)
Theorem addSurface_reverses_winding :
  (forall (incoming : FbxSurface.t) (T : Matrix4.t) (st : Surfaces)
          (k : nat) (i0 i1 i2 : Z),
     (3 <= length (FbxSurface.getIndexArray incoming))%nat ->
     FbxSurface.getIndexArray incoming !! (3 * k)%nat = Some i0 ->
     FbxSurface.getIndexArray incoming !! (3 * k + 1)%nat = Some i1 ->
     FbxSurface.getIndexArray incoming !! (3 * k + 2)%nat = Some i2 ->
     let before := surfaceOf (FbxSurface.getActiveMaterial incoming) st in
     let count := Z.of_nat (length (vertices before)) in
     exists after : Surface,
       addSurface incoming T st
       = (<[FbxSurface.getActiveMaterial incoming := after]>
            (snd (ensureSurface (FbxSurface.getActiveMaterial incoming) st)),
          Returned tt)
       /\ take (length (indices before)) (indices after) = indices before
       /\ indices after !! (length (indices before) + 3 * k)%nat
          = Some (u32 (i2 + u32 count))
       /\ indices after !! (length (indices before) + 3 * k + 1)%nat
          = Some (u32 (i1 + u32 count))
       /\ indices after !! (length (indices before) + 3 * k + 2)%nat
          = Some (u32 (i0 + u32 count))
       /\ (forall i : Z, (0 <= i)%Z -> (i + count < 2 ^ 32)%Z ->
             u32 (i + u32 count) = (i + count)%Z)
       /\ vertices after
          = vertices before
            ++ map (transformVertex T
                      (Matrix4.getTransposed (Matrix4.getFullInverse T)))
                 (FbxSurface.getVertexArray incoming))
  /\ (forall (T : Matrix4.t) (name : string) (v0 v1 v2 : ArbitraryMeshVertex.t)
             (vi : FbxSurface.VertexIndexMap),
        exists after : Surface,
          fst (addSurface (FbxSurface.FbxSurface [0; 1; 2]%Z [v0; v1; v2] name vi)
                 T ∅) !! name = Some after
          /\ indices after = [2; 1; 0]%Z).
Proof.
  split.
  - intros incoming T st k i0 i1 i2 Hacc H0 H1 H2 before count.
    exists (aggregated incoming T before).
    split; [exact (addSurface_accepted _ _ _ Hacc)|].
    cbn [aggregated indices vertices].
    destruct (reversedTriangles_lookup
                (static_cast_u32 (length (vertices before))) _ k _ _ _ H0 H1 H2)
      as (R0 & R1 & R2).
    split; [now rewrite take_app_length|].
    split; [rewrite lookup_app_r by lia;
            replace (length (indices before) + 3 * k - length (indices before))%nat
              with (3 * k)%nat by lia; exact R0|].
    split; [rewrite lookup_app_r by lia;
            replace (length (indices before) + 3 * k + 1 - length (indices before))%nat
              with (3 * k + 1)%nat by lia; exact R1|].
    split; [rewrite lookup_app_r by lia;
            replace (length (indices before) + 3 * k + 2 - length (indices before))%nat
              with (3 * k + 2)%nat by lia; exact R2|].
    split; [|reflexivity].
    intros i Hi Hfit. subst count.
    rewrite (u32_small (Z.of_nat _)) by lia. apply u32_small. lia.
  - intros T name v0 v1 v2 vi. eexists. split.
    + apply (addSurface_accepted_lookup
               (FbxSurface.FbxSurface [0; 1; 2]%Z [v0; v1; v2] name vi) T ∅).
      cbn. lia.
    + cbn [aggregated indices FbxSurface.getActiveMaterial FbxSurface.material].
      rewrite surfaceOf_new by apply lookup_empty. reflexivity.
Qed.

Lemma addSurface_reverses_winding_witness :
  exists after : Surface,
    fst (addSurface (FbxSurface.triangle "M") Matrix4.getIdentity ∅) !! "M"
    = Some after
    /\ indices after !! 0%nat = Some 2%Z
    /\ indices after !! 1%nat = Some 1%Z
    /\ indices after !! 2%nat = Some 0%Z.
Proof.
  assert (Hacc : (3 <= length (FbxSurface.getIndexArray (FbxSurface.triangle "M")))%nat)
    by (rewrite triangle_eq; cbn; lia).
  assert (H0 : FbxSurface.getIndexArray (FbxSurface.triangle "M") !! (3 * 0)%nat
               = Some 0%Z) by (now rewrite triangle_eq).
  assert (H1 : FbxSurface.getIndexArray (FbxSurface.triangle "M") !! (3 * 0 + 1)%nat
               = Some 1%Z) by (now rewrite triangle_eq).
  assert (H2 : FbxSurface.getIndexArray (FbxSurface.triangle "M") !! (3 * 0 + 2)%nat
               = Some 2%Z) by (now rewrite triangle_eq).
  destruct (proj1 addSurface_reverses_winding (FbxSurface.triangle "M")
              Matrix4.getIdentity ∅ 0%nat 0%Z 1%Z 2%Z Hacc H0 H1 H2)
    as (after & Hrun & _ & R0 & R1 & R2 & _).
  exists after.
  replace (FbxSurface.getActiveMaterial (FbxSurface.triangle "M")) with "M"
    in * by (now rewrite triangle_eq).
  rewrite surfaceOf_new in R0, R1, R2 by apply lookup_empty.
  split; [rewrite Hrun; apply lookup_insert_eq|].
  split; [exact R0|]. split; [exact R1|exact R2].
Defined.

(** *** Index validity *)

Lemma surfaceValid_new (name : string) : surfaceValid (mkSurface name [] []).
Proof. split; [constructor|reflexivity]. Qed.

Lemma surfaceOf_valid (name : string) (st : Surfaces) :
  (forall n s, st !! n = Some s -> surfaceValid s) ->
  surfaceValid (surfaceOf name st).
Proof.
  intros Hst. destruct (st !! name) as [surf|] eqn:H.
  - rewrite (surfaceOf_existing _ _ _ H). exact (Hst _ _ H).
  - rewrite (surfaceOf_new _ _ H). apply surfaceValid_new.
Qed.

Lemma aggregated_valid (incoming : FbxSurface.t) (T : Matrix4.t)
  (surface : Surface) :
  FbxSurface.indicesValid incoming -> surfaceValid surface ->
  surfaceValid (aggregated incoming T surface).
Proof.
  intros Hin [Hidx Hlen]. split; cbn [aggregated indices vertices].
  - rewrite length_app, length_map. apply Forall_app. split.
    + eapply Forall_impl; [exact Hidx|]. cbn. intros. lia.
    + pose proof (u32_range (Z.of_nat (length (vertices surface)))) as Hr.
      pose proof (u32_le (Z.of_nat (length (vertices surface)))) as Hle.
      eapply Forall_impl;
        [apply (reversedTriangles_bound
                  (static_cast_u32 (length (vertices surface)))
                  (Z.of_nat (length (FbxSurface.getVertexArray incoming))));
         [unfold static_cast_u32; lia|exact Hin]|].
      cbn. unfold static_cast_u32. intros. lia.
  - rewrite length_app, reversedTriangles_length.
    rewrite (Nat.mul_comm 3), Nat.Div0.mod_add. exact Hlen.
Qed.

Lemma addSurface_preserves_valid (incoming : FbxSurface.t) (T : Matrix4.t)
  (st : Surfaces) :
  FbxSurface.indicesValid incoming ->
  (forall n s, st !! n = Some s -> surfaceValid s) ->
  forall n s, fst (addSurface incoming T st) !! n = Some s -> surfaceValid s.
Proof.
  intros Hin Hst n s.
  destruct (decide (FbxSurface.getActiveMaterial incoming = n)) as [<-|Hne].
  - destruct (le_lt_dec 3 (length (FbxSurface.getIndexArray incoming))) as [H|H].
    + rewrite (addSurface_accepted_lookup _ _ _ H). intros [= <-].
      apply aggregated_valid; [exact Hin|now apply surfaceOf_valid].
    + rewrite (addSurface_rejected _ _ _ H). cbn [fst].
      rewrite ensureSurface_lookup. intros [= <-].
      now apply surfaceOf_valid.
  - rewrite (addSurface_lookup_ne _ _ _ _ Hne). apply Hst.
Qed.

(** C5: in every exporter state reached from a fresh exporter by addSurface
    calls whose incoming surfaces have valid indices, every Surface has all
    its indices below the length of its vertex array, and an index buffer
    whose length is a multiple of 3. *)
Theorem reachable_surfaceValid (st : Surfaces) (name : string) (s : Surface) :
  reachable st -> st !! name = Some s ->
  Forall (fun idx => (0 <= idx < Z.of_nat (length (vertices s)))%Z) (indices s)
  /\ (length (indices s) mod 3 = 0)%nat.
Proof.
  intros Hr. revert name s. induction Hr as [|st incoming T Hr IH Hin].
  - intros name s H. rewrite lookup_empty in H. discriminate.
  - intros name s H.
    exact (addSurface_preserves_valid incoming T st Hin IH name s H).
Qed.

Lemma reachable_surfaceValid_witness :
  exists s : Surface,
    fst (addSurface (FbxSurface.triangle "M") Matrix4.getIdentity ∅) !! "M"
    = Some s
    /\ Forall (fun idx => (0 <= idx < Z.of_nat (length (vertices s)))%Z)
         (indices s)
    /\ (length (indices s) mod 3 = 0)%nat.
Proof.
  assert (Hacc : (3 <= length (FbxSurface.getIndexArray (FbxSurface.triangle "M")))%nat)
    by (rewrite triangle_eq; cbn; lia).
  pose proof (addSurface_accepted_lookup _ Matrix4.getIdentity ∅ Hacc) as H1.
  replace (FbxSurface.getActiveMaterial (FbxSurface.triangle "M")) with "M" in H1
    by (now rewrite triangle_eq).
  eexists. split; [exact H1|].
  apply (reachable_surfaceValid
           (fst (addSurface (FbxSurface.triangle "M") Matrix4.getIdentity ∅)) "M").
  - apply reachable_addSurface; [apply reachable_empty|apply triangle_indicesValid].
  - exact H1.
Defined.

(** *** The rejected index buffer *)

(** C10: when addSurface is called with a material that has no entry in the
    surface map and an index list of fewer than 3 indices, it throws, and the
    map it leaves has a new entry for that material, holding an empty
    Surface of that name: the exporter state is not what it was. *)
Theorem addSurface_rejected_creates_entry (incoming : FbxSurface.t)
  (T : Matrix4.t) (st : Surfaces) :
  st !! FbxSurface.getActiveMaterial incoming = None ->
  (length (FbxSurface.getIndexArray incoming) < 3)%nat ->
  addSurface incoming T st
  = (<[FbxSurface.getActiveMaterial incoming :=
         mkSurface (FbxSurface.getActiveMaterial incoming) [] []]> st,
     Thrown InvalidGeometry)
  /\ fst (addSurface incoming T st) !! FbxSurface.getActiveMaterial incoming
     = Some (mkSurface (FbxSurface.getActiveMaterial incoming) [] [])
  /\ fst (addSurface incoming T st) <> st.
Proof.
  intros Hnew Hshort.
  rewrite (addSurface_rejected _ _ _ Hshort), (ensureSurface_new _ _ Hnew).
  cbn [fst snd]. split; [reflexivity|].
  split; [apply lookup_insert_eq|].
  intros Heq.
  assert (H : (<[FbxSurface.getActiveMaterial incoming :=
                   mkSurface (FbxSurface.getActiveMaterial incoming) [] []]> st)
              !! FbxSurface.getActiveMaterial incoming = None)
    by (rewrite Heq; exact Hnew).
  rewrite lookup_insert_eq in H. discriminate.
Qed.

Lemma addSurface_rejected_creates_entry_witness :
  addSurface (FbxSurface.setMaterial "A" FbxSurface.empty) Matrix4.getIdentity ∅
  = (<["A" := mkSurface "A" [] []]> ∅, Thrown InvalidGeometry).
Proof.
  apply (addSurface_rejected_creates_entry
           (FbxSurface.setMaterial "A" FbxSurface.empty) Matrix4.getIdentity ∅).
  - apply lookup_empty.
  - cbn. lia.
Defined.

(** *** The loop over the materials *)

Lemma addSurfaces_app (pre rest : list FbxSurface.t) (T : Matrix4.t)
  (st : Surfaces) :
  addSurfaces (pre ++ rest) T st
  = match addSurfaces pre T st with
    | (st', Returned _) => addSurfaces rest T st'
    | (st', Thrown e) => (st', Thrown e)
    end.
Proof.
  revert st. induction pre as [|s pre IH]; intros st; cbn; [reflexivity|].
  destruct (addSurface s T st) as [st' [[]|e]]; [apply IH|reflexivity].
Qed.

Lemma addSurfaces_accepted (pre : list FbxSurface.t) (T : Matrix4.t)
  (st : Surfaces) :
  Forall (fun s => (3 <= length (FbxSurface.getIndexArray s))%nat) pre ->
  snd (addSurfaces pre T st) = Returned tt.
Proof.
  revert st. induction pre as [|s pre IH]; intros st H; cbn; [reflexivity|].
  apply Forall_cons_1 in H as [Hs H].
  rewrite (addSurface_accepted _ _ _ Hs). apply IH, H.
Qed.

(** The statement of C2 as written fails: a surface "A" without indices,
    followed by the sample triangle of material "B".  The loop ends with the
    exception of "A"; "B", which alone is aggregated, has contributed
    nothing, and "A" has left an (empty) entry. *)
Lemma geometry_error_aborts_later_materials :
  let bad := FbxSurface.setMaterial "A" FbxSurface.empty in
  let good := FbxSurface.triangle "B" in
  let r := addSurfaces [bad; good] Matrix4.getIdentity ∅ in
  snd r = Thrown InvalidGeometry
  /\ fst r !! "B" = None
  /\ fst r !! "A" = Some (mkSurface "A" [] [])
  /\ exists s : Surface,
       fst (addSurfaces [good] Matrix4.getIdentity ∅) !! "B" = Some s
       /\ length (vertices s) = 3%nat.
Proof.
  cbv zeta. cbn [addSurfaces].
  rewrite (addSurface_rejected (FbxSurface.setMaterial "A" FbxSurface.empty))
    by (cbn; lia).
  cbn [fst snd FbxSurface.getActiveMaterial FbxSurface.setMaterial
       FbxSurface.material].
  rewrite (ensureSurface_new "A" ∅) by apply lookup_empty. cbn [snd].
  split; [reflexivity|].
  split; [rewrite lookup_insert_ne by discriminate; apply lookup_empty|].
  split; [apply lookup_insert_eq|].
  assert (Hacc : (3 <= length (FbxSurface.getIndexArray (FbxSurface.triangle "B")))%nat)
    by (rewrite triangle_eq; cbn; lia).
  pose proof (addSurface_accepted_lookup _ Matrix4.getIdentity ∅ Hacc) as H1.
  replace (FbxSurface.getActiveMaterial (FbxSurface.triangle "B")) with "B" in H1
    by (now rewrite triangle_eq).
  rewrite (addSurface_accepted _ _ _ Hacc). cbn [fst].
  rewrite (addSurface_accepted _ _ _ Hacc) in H1. cbn [fst] in H1.
  eexists. split; [exact H1|].
  rewrite aggregated_triangle_identity. cbn [vertices].
  rewrite surfaceOf_new by apply lookup_empty. reflexivity.
Qed.

(** C2 (amended): an index list of fewer than 3 indices makes addSurface
    throw (the InvalidGeometry error); the Surface of that material receives
    no vertex and no index (a material without an entry gets an empty one).
    The error is not handled locally: the loop of ExportFbxMesh over the
    materials ends with that exception at the first rejected surface, with
    the state the accepted surfaces before it have built, and the surfaces
    after it are not aggregated. *)
Theorem addSurfaces_stops_at_rejected (pre post : list FbxSurface.t)
  (bad : FbxSurface.t) (T : Matrix4.t) (st : Surfaces) :
  Forall (fun s => (3 <= length (FbxSurface.getIndexArray s))%nat) pre ->
  (length (FbxSurface.getIndexArray bad) < 3)%nat ->
  let name := FbxSurface.getActiveMaterial bad in
  let st_pre := fst (addSurfaces pre T st) in
  let st_end := fst (addSurfaces (pre ++ bad :: post) T st) in
  snd (addSurface bad T st_pre) = Thrown InvalidGeometry
  /\ snd (addSurfaces (pre ++ bad :: post) T st) = Thrown InvalidGeometry
  /\ st_end = fst (addSurface bad T st_pre)
  /\ st_end !! name = Some (surfaceOf name st_pre)
  /\ (st_pre !! name = None -> st_end !! name = Some (mkSurface name [] []))
  /\ (forall other : string, name <> other -> st_end !! other = st_pre !! other).
Proof.
  intros Hpre Hbad name st_pre st_end. subst st_end.
  rewrite addSurfaces_app.
  pose proof (addSurfaces_accepted pre T st Hpre) as Hret.
  fold st_pre. destruct (addSurfaces pre T st) as [st' r] eqn:Hrun.
  cbn [fst snd] in *. subst r st_pre. cbn [addSurfaces].
  rewrite (addSurface_rejected _ _ _ Hbad). cbn [fst snd]. fold name.
  split; [reflexivity|]. split; [reflexivity|]. split; [reflexivity|].
  split; [apply ensureSurface_lookup|].
  split.
  - intros Hnone. rewrite (ensureSurface_new _ _ Hnone). apply lookup_insert_eq.
  - intros other Hne. now apply ensureSurface_lookup_ne.
Qed.

Lemma addSurfaces_stops_at_rejected_witness :
  snd (addSurfaces
         ([FbxSurface.triangle "B"]
          ++ FbxSurface.setMaterial "A" FbxSurface.empty
          :: [FbxSurface.triangle "C"])
         Matrix4.getIdentity ∅)
  = Thrown InvalidGeometry.
Proof.
  apply (addSurfaces_stops_at_rejected [FbxSurface.triangle "B"]
           [FbxSurface.triangle "C"]
           (FbxSurface.setMaterial "A" FbxSurface.empty) Matrix4.getIdentity ∅).
  - constructor; [rewrite triangle_eq; cbn; lia|constructor].
  - cbn. lia.
Defined.

(** *** Normals *)

Lemma getNormalised_3_4 :
  Vector3.getNormalised (Vector3.Vector3 3 4 0)
  = Vector3.Vector3 (3 / 5) (4 / 5) 0.
Proof.
  unfold Vector3.getNormalised, Vector3.getLength.
  cbn [Vector3.x Vector3.y Vector3.z].
  replace (3 * 3 + 4 * 4 + 0 * 0)%R with (5 * 5)%R by ring.
  rewrite sqrt_square by lra. f_equal; field.
Qed.

Lemma getNormalised_12_4 :
  Vector3.getNormalised (Vector3.Vector3 12 4 0)
  <> Vector3.Vector3 (3 / 5) (4 / 5) 0.
Proof.
  unfold Vector3.getNormalised, Vector3.getLength.
  cbn [Vector3.x Vector3.y Vector3.z].
  replace (12 * 12 + 4 * 4 + 0 * 0)%R with 160%R by ring.
  intros [= _ Hy _].
  assert (Hpos : (0 < sqrt 160)%R) by (apply sqrt_lt_R0; lra).
  assert (Hsq : (sqrt 160 * sqrt 160 = 160)%R) by (apply sqrt_sqrt; lra).
  assert (H5 : (4 = 4 / 5 * sqrt 160)%R) by (rewrite <- Hy; field; lra).
  assert (Hl : (sqrt 160 = 5)%R) by lra.
  rewrite Hl in Hsq. lra.
Qed.

(** C8: addSurface transforms each normal by N = transpose(fullInverse(T))
    and normalises the result.  For an affine T the translation column of N
    is zero, so it adds nothing: the normal is the normalised image of the
    incoming normal under the 3x3 block of N alone.  For T = scale(2,1,1)
    the normal (1,0,0) comes out as exactly (1,0,0).  That N is the inverse
    transpose, and not T: for an affine T with an invertible 3x3 block, a
    vector transformed by N and a vector transformed by T have the dot
    product they had before; and for T = scale(2,1,1) the normal (6,4,0)
    is stored as (3/5, 4/5, 0), the direction of N(6,4,0) = (3,4,0), where
    T itself would give the direction of (12,4,0), which is another one. *)
Theorem addSurface_normal_transform :
  (forall (T : Matrix4.t) (v : ArbitraryMeshVertex.t),
     Matrix4.isAffine T ->
     let N := Matrix4.getTransposed (Matrix4.getFullInverse T) in
     Matrix4.translation N = Vector3.Vector3 0 0 0
     /\ transformVertex T N v
        = ArbitraryMeshVertex.ArbitraryMeshVertex
            (Matrix4.transformPoint T (ArbitraryMeshVertex.vertex v))
            (Vector3.getNormalised
               (Matrix4.transformDirection N (ArbitraryMeshVertex.normal v)))
            (ArbitraryMeshVertex.texcoord v)
            (ArbitraryMeshVertex.colour v))
  /\ (forall (incoming : FbxSurface.t) (T : Matrix4.t) (st : Surfaces),
        (3 <= length (FbxSurface.getIndexArray incoming))%nat ->
        exists s : Surface,
          fst (addSurface incoming T st) !! FbxSurface.getActiveMaterial incoming
          = Some s
          /\ vertices s
             = vertices (surfaceOf (FbxSurface.getActiveMaterial incoming) st)
               ++ map (transformVertex T
                         (Matrix4.getTransposed (Matrix4.getFullInverse T)))
                    (FbxSurface.getVertexArray incoming))
  /\ (forall v : ArbitraryMeshVertex.t,
        ArbitraryMeshVertex.normal v = Vector3.Vector3 1 0 0 ->
        let T := Matrix4.getScale (Vector3.Vector3 2 1 1) in
        ArbitraryMeshVertex.normal
          (transformVertex T
             (Matrix4.getTransposed (Matrix4.getFullInverse T)) v)
        = Vector3.Vector3 1 0 0)
  /\ (forall (T : Matrix4.t) (n d : Vector3.t),
        Matrix4.isAffine T -> Matrix4.det3 T <> 0%R ->
        let N := Matrix4.getTransposed (Matrix4.getFullInverse T) in
        (Vector3.x (Matrix4.transformDirection N n)
         * Vector3.x (Matrix4.transformDirection T d)
         + Vector3.y (Matrix4.transformDirection N n)
           * Vector3.y (Matrix4.transformDirection T d)
         + Vector3.z (Matrix4.transformDirection N n)
           * Vector3.z (Matrix4.transformDirection T d)
         = Vector3.x n * Vector3.x d + Vector3.y n * Vector3.y d
           + Vector3.z n * Vector3.z d)%R)
  /\ (forall v : ArbitraryMeshVertex.t,
        ArbitraryMeshVertex.normal v = Vector3.Vector3 6 4 0 ->
        let T := Matrix4.getScale (Vector3.Vector3 2 1 1) in
        ArbitraryMeshVertex.normal
          (transformVertex T
             (Matrix4.getTransposed (Matrix4.getFullInverse T)) v)
        = Vector3.Vector3 (3 / 5) (4 / 5) 0
        /\ Vector3.getNormalised
             (Matrix4.transformPoint T (ArbitraryMeshVertex.normal v))
           <> Vector3.Vector3 (3 / 5) (4 / 5) 0).
Proof.
  split; [|split; [|split; [|split]]].
  - intros T v (Hx & Hy & Hz & _) N.
    assert (Ht : Matrix4.translation N = Vector3.Vector3 0 0 0)
      by (apply normalMatrix_translation; assumption).
    split; [exact Ht|].
    unfold transformVertex.
    now rewrite (transformPoint_zero_translation N _ Ht).
  - intros incoming T st Hacc. eexists.
    split; [exact (addSurface_accepted_lookup _ _ _ Hacc)|reflexivity].
  - intros v Hn T. unfold transformVertex.
    cbn [ArbitraryMeshVertex.normal]. rewrite Hn.
    replace (Matrix4.transformPoint _ (Vector3.Vector3 1 0 0))
      with (Vector3.Vector3 (1 / 2) 0 0).
    + apply getNormalised_half_x.
    + subst T. mat_unfold. f_equal; field.
  - intros T n d Ha Hd N. exact (normalMatrix_dot T n d Ha Hd).
  - intros v Hn T. split.
    + unfold transformVertex.
      cbn [ArbitraryMeshVertex.normal]. rewrite Hn.
      replace (Matrix4.transformPoint _ (Vector3.Vector3 6 4 0))
        with (Vector3.Vector3 3 4 0).
      * apply getNormalised_3_4.
      * subst T. mat_unfold. f_equal; field.
    + rewrite Hn.
      replace (Matrix4.transformPoint T (Vector3.Vector3 6 4 0))
        with (Vector3.Vector3 12 4 0).
      * apply getNormalised_12_4.
      * subst T. mat_unfold. f_equal; ring.
Qed.

Lemma addSurface_normal_transform_witness :
  Matrix4.isAffine (Matrix4.getScale (Vector3.Vector3 2 1 1))
  /\ Matrix4.det3 (Matrix4.getScale (Vector3.Vector3 2 1 1)) <> 0%R
  /\ Matrix4.translation
       (Matrix4.getTransposed
          (Matrix4.getFullInverse (Matrix4.getScale (Vector3.Vector3 2 1 1))))
     = Vector3.Vector3 0 0 0
  /\ (let T := Matrix4.getScale (Vector3.Vector3 2 1 1) in
      let N := Matrix4.getTransposed (Matrix4.getFullInverse T) in
      Vector3.x (Matrix4.transformDirection N (Vector3.Vector3 6 4 0))
      * Vector3.x (Matrix4.transformDirection T (Vector3.Vector3 2 (-3) 0))
      + Vector3.y (Matrix4.transformDirection N (Vector3.Vector3 6 4 0))
        * Vector3.y (Matrix4.transformDirection T (Vector3.Vector3 2 (-3) 0))
      + Vector3.z (Matrix4.transformDirection N (Vector3.Vector3 6 4 0))
        * Vector3.z (Matrix4.transformDirection T (Vector3.Vector3 2 (-3) 0))
      = 6 * 2 + 4 * (-3) + 0 * 0)%R
  /\ ArbitraryMeshVertex.normal
       (transformVertex (Matrix4.getScale (Vector3.Vector3 2 1 1))
          (Matrix4.getTransposed
             (Matrix4.getFullInverse (Matrix4.getScale (Vector3.Vector3 2 1 1))))
          (ArbitraryMeshVertex.ArbitraryMeshVertex (Vector3.Vector3 0 0 0)
             (Vector3.Vector3 6 4 0) (Vector2.Vector2 0 0)
             (Vector3.Vector3 1 1 1)))
     = Vector3.Vector3 (3 / 5) (4 / 5) 0.
Proof.
  assert (H : Matrix4.isAffine (Matrix4.getScale (Vector3.Vector3 2 1 1)))
    by (repeat split; reflexivity).
  assert (Hd : Matrix4.det3 (Matrix4.getScale (Vector3.Vector3 2 1 1)) <> 0%R)
    by (mat_unfold; lra).
  split; [exact H|]. split; [exact Hd|].
  split; [exact (proj1 (proj1 addSurface_normal_transform
                          (Matrix4.getScale (Vector3.Vector3 2 1 1))
                          FbxSurface.corner0 H))|].
  split.
  - exact (proj1 (proj2 (proj2 (proj2 addSurface_normal_transform)))
             (Matrix4.getScale (Vector3.Vector3 2 1 1))
             (Vector3.Vector3 6 4 0) (Vector3.Vector3 2 (-3) 0) H Hd).
  - exact (proj1 (proj2 (proj2 (proj2 (proj2 addSurface_normal_transform)))
                    (ArbitraryMeshVertex.ArbitraryMeshVertex
                       (Vector3.Vector3 0 0 0) (Vector3.Vector3 6 4 0)
                       (Vector2.Vector2 0 0) (Vector3.Vector3 1 1 1))
                    eq_refl)).
Defined.

End PipelineFacts.

(* ===================================================================== *)
(** * Properties of ExportStream::close *)
(* ===================================================================== *)

Module ExportStreamFacts.
Import ExportStream.

Lemma String_cons_neq (c : Ascii.ascii) (s : string) : String c s <> s.
Proof.
  revert c. induction s as [|c' s IH]; intros c; [discriminate|].
  intros [= -> H]. exact (IH _ H).
Qed.

(** The temporary file is never the target. *)
Lemma tempFile_neq_target (es : t) :
  wellFormed es -> _tempFile es <> targetPath es.
Proof.
  unfold wellFormed, targetPath, path_append. intros -> H.
  apply (inj (String.app _)) in H. apply (inj (String.app _)) in H.
  exact (String_cons_neq _ _ H).
Qed.

Lemma open_wellFormed (outputDirectory filename : string) (env : Faults)
  (files files' : Files) (es : t) :
  open outputDirectory filename env files = (files', Returned es) ->
  wellFormed es /\ files' !! _tempFile es = Some ""
  /\ is_open (_tempStream es) = true.
Proof.
  unfold open. destruct (open_fails env); [discriminate|].
  intros [= <- <-]. unfold wellFormed; cbn.
  split; [reflexivity|]. split; [apply lookup_insert_eq|reflexivity].
Qed.

Lemma fs_exists_Some (p : string) (files : Files) (c : string) :
  files !! p = Some c -> fs_exists p files = true.
Proof. intros H. unfold fs_exists. apply bool_decide_eq_true. eauto. Qed.

Lemma fs_exists_None (p : string) (files : Files) :
  files !! p = None -> fs_exists p files = false.
Proof.
  intros H. unfold fs_exists. apply bool_decide_eq_false.
  rewrite H. intros [? ?]. discriminate.
Qed.

(** C3: close() closes the temporary stream first, so that the temporary
    file holds everything written.  Then, when a file exists at the target
    path and its removal fails, close() throws, and the target and the
    temporary file are as they were.  Otherwise the target is removed; when
    the rename fails, close() throws, the target is absent and the temporary
    file is still at its path; when the rename succeeds, the target holds
    what the temporary file held and the temporary file is gone.  In every
    case the target is untouched, absent, or holds the complete content;
    other files are untouched. *)
Theorem close_outcomes (es : t) (env : Faults) (files : Files)
  (content : string) :
  wellFormed es ->
  files !! _tempFile es = Some content ->
  let written :=
    if is_open (_tempStream es)
    then content +:+ buffered (_tempStream es) else content in
  let target := targetPath es in
  let temp := _tempFile es in
  let es' := fst (fst (close es env files)) in
  let files' := snd (fst (close es env files)) in
  let result := snd (close es env files) in
  is_open (_tempStream es') = false
  /\ match files !! target, remove_fails env, rename_fails env with
     | Some old, Some what, _ =>
       result = Thrown (runtime_error ("Could not remove the existing file "
                                       +:+ target +:+ ": " +:+ what))
       /\ files' !! target = Some old
       /\ files' !! temp = Some written
     | _, _, Some what =>
       result = Thrown (runtime_error ("Could not rename the temporary file: "
                                       +:+ temp))
       /\ files' !! target = None
       /\ files' !! temp = Some written
     | _, _, None =>
       result = Returned tt
       /\ files' !! target = Some written
       /\ files' !! temp = None
     end
  /\ (files' !! target = files !! target
      \/ files' !! target = None
      \/ files' !! target = Some written)
  /\ (forall other : string, other <> target -> other <> temp ->
        files' !! other = files !! other).
Proof.
  intros Hwf Htemp written target temp es' files' result.
  pose proof (tempFile_neq_target es Hwf) as Hne. fold temp target in Hne.
  (* the stream is closed: the temporary file holds [written] *)
  set (stream1 := fst (ofstream_close temp (_tempStream es) files)).
  set (files1 := snd (ofstream_close temp (_tempStream es) files)).
  assert (Hclose : ofstream_close temp (_tempStream es) files
                   = (stream1, files1)
                     /\ is_open stream1 = false
                     /\ files1 !! temp = Some written
                     /\ (forall p, p <> temp -> files1 !! p = files !! p)).
  { subst stream1 files1 written. unfold ofstream_close. fold temp in Htemp.
    rewrite Htemp. destruct (_tempStream es) as [[|] buf]; cbn.
    - split; [reflexivity|]. split; [reflexivity|].
      split; [apply lookup_insert_eq|].
      intros p Hp. now apply lookup_insert_ne.
    - split; [reflexivity|]. split; [reflexivity|].
      split; [exact Htemp|]. reflexivity. }
  destruct Hclose as (Hclose & Hopen1 & Hw1 & Hother1).
  assert (Htarget1 : files1 !! target = files !! target)
    by (apply Hother1; congruence).
  subst es' files' result. unfold close. fold temp. rewrite Hclose.
  cbn [_tempFile _outputDirectory _filename _tempStream].
  change (path_append (_outputDirectory es) (_filename es)) with target.
  clearbody files1 stream1. clear Hclose.
  destruct (files !! target) as [old|] eqn:Hold.
  - rewrite (fs_exists_Some _ _ _ Htarget1).
    unfold fs_remove. destruct (remove_fails env) as [what|]; cbn.
    + split; [exact Hopen1|]. split; [auto|]. split; [left; exact Htarget1|].
      intros other H1 H2. now apply Hother1.
    + unfold fs_rename. destruct (rename_fails env) as [what|]; cbn.
      * split; [exact Hopen1|].
        split; [split; [reflexivity|]; split;
                [apply lookup_delete_eq|
                 rewrite lookup_delete_ne by congruence; exact Hw1]|].
        split; [right; left; apply lookup_delete_eq|].
        intros other H1 H2. rewrite lookup_delete_ne by congruence.
        now apply Hother1.
      * rewrite lookup_delete_ne by congruence. rewrite Hw1. cbn.
        split; [exact Hopen1|].
        split; [split; [reflexivity|]; split;
                [apply lookup_insert_eq|
                 rewrite lookup_insert_ne by congruence;
                 apply lookup_delete_eq]|].
        split; [right; right; apply lookup_insert_eq|].
        intros other H1 H2. rewrite lookup_insert_ne by congruence.
        rewrite !lookup_delete_ne by congruence. now apply Hother1.
  - rewrite (fs_exists_None _ _ Htarget1).
    unfold fs_rename. destruct (rename_fails env) as [what|]; cbn.
    + split; [exact Hopen1|].
      split; [destruct (remove_fails env); auto|].
      split; [left; exact Htarget1|].
      intros other H1 H2. now apply Hother1.
    + rewrite Hw1. cbn. split; [exact Hopen1|].
      split; [destruct (remove_fails env);
              (split; [reflexivity|]; split;
               [apply lookup_insert_eq|
                rewrite lookup_insert_ne by congruence;
                apply lookup_delete_eq])|].
      split; [right; right; apply lookup_insert_eq|].
      intros other H1 H2. rewrite lookup_insert_ne by congruence.
      rewrite lookup_delete_ne by congruence. now apply Hother1.
Qed.

Lemma close_outcomes_witness :
  snd (close sampleStream renameFails sampleFiles)
  = Thrown (runtime_error
              "Could not rename the temporary file: out/_model.lwo")
  /\ snd (fst (close sampleStream renameFails sampleFiles)) !! "out/model.lwo"
     = None
  /\ snd (fst (close sampleStream renameFails sampleFiles)) !! "out/_model.lwo"
     = Some "LWO2".
Proof.
  assert (Hwf : wellFormed sampleStream) by reflexivity.
  assert (Htemp : sampleFiles !! _tempFile sampleStream = Some "")
    by (vm_compute; reflexivity).
  destruct (close_outcomes sampleStream renameFails sampleFiles "" Hwf Htemp)
    as (_ & H & _).
  vm_compute in H. vm_compute. exact H.
Defined.

End ExportStreamFacts.

(* ===================================================================== *)
(** * Rotations, translations and scales *)
(* ===================================================================== *)

Module Matrix4Rotations.
Import Vector3 Matrix4 Matrix4Facts Matrix4Laws.
Local Open Scope R_scope.

Lemma sin_cos_one (a : R) : sin a * sin a + cos a * cos a = 1.
Proof. pose proof (sin2_cos2 a) as H. unfold Rsqr in H. exact H. Qed.

Lemma orthonormal_getMultipliedBy (A B : Matrix4.t) :
  orthonormal A -> orthonormal B -> orthonormal (getMultipliedBy A B).
Proof.
  intros [A1 A2] [B1 B2]. split; rewrite getTransposed_getMultipliedBy.
  - rewrite getMultipliedBy_assoc, <- (getMultipliedBy_assoc (getTransposed A)).
    now rewrite A1, getMultipliedBy_identity_l.
  - rewrite getMultipliedBy_assoc, <- (getMultipliedBy_assoc B).
    now rewrite B2, getMultipliedBy_identity_l.
Qed.

Lemma axis_rotations_orthonormal (s c : R) :
  s * s + c * c = 1 ->
  orthonormal (getRotationAboutXForSinCos s c)
  /\ orthonormal (getRotationAboutYForSinCos s c)
  /\ orthonormal (getRotationAboutZForSinCos s c).
Proof.
  intros H. unfold orthonormal. mat_unfold_all.
  repeat split; f_equal; nsatz.
Qed.

(** X10: over exact arithmetic (without rounding, sin and cos exact), the
    rotation for euler angles (x, y, z) is the rotation about Z
    times the rotation about Y times the rotation about X (so the rotation
    about X is applied to a point first); it is affine, its transpose is its
    two-sided inverse, and its determinant is 1. *)
Theorem getRotationForEulerXYZ_laws (euler : Vector3.t) :
  getRotationForEulerXYZ euler
  = getMultipliedBy
      (getMultipliedBy
         (getRotationAboutZForSinCos (sin (z euler)) (cos (z euler)))
         (getRotationAboutYForSinCos (sin (y euler)) (cos (y euler))))
      (getRotationAboutXForSinCos (sin (x euler)) (cos (x euler)))
  /\ isAffine (getRotationForEulerXYZ euler)
  /\ getMultipliedBy (getTransposed (getRotationForEulerXYZ euler))
       (getRotationForEulerXYZ euler) = getIdentity
  /\ getMultipliedBy (getRotationForEulerXYZ euler)
       (getTransposed (getRotationForEulerXYZ euler)) = getIdentity
  /\ determinant (getRotationForEulerXYZ euler) = 1.
Proof.
  assert (E : getRotationForEulerXYZ euler
  = getMultipliedBy
      (getMultipliedBy
         (getRotationAboutZForSinCos (sin (z euler)) (cos (z euler)))
         (getRotationAboutYForSinCos (sin (y euler)) (cos (y euler))))
      (getRotationAboutXForSinCos (sin (x euler)) (cos (x euler)))).
  { destruct euler as [ex ey ez]. mat_unfold_all. f_equal; ring. }
  split; [exact E|]. split; [repeat split|].
  assert (O : orthonormal (getRotationForEulerXYZ euler)).
  { rewrite E.
    destruct (axis_rotations_orthonormal _ _ (sin_cos_one (x euler))) as (Ox & _ & _).
    destruct (axis_rotations_orthonormal _ _ (sin_cos_one (y euler))) as (_ & Oy & _).
    destruct (axis_rotations_orthonormal _ _ (sin_cos_one (z euler))) as (_ & _ & Oz).
    now repeat apply orthonormal_getMultipliedBy. }
  split; [exact (proj1 O)|]. split; [exact (proj2 O)|].
  pose proof (sin_cos_one (x euler)) as Hx.
  pose proof (sin_cos_one (y euler)) as Hy.
  pose proof (sin_cos_one (z euler)) as Hz.
  destruct euler as [ex ey ez]. mat_unfold_all.
  generalize dependent (sin ex); generalize dependent (cos ex).
  generalize dependent (sin ey); generalize dependent (cos ey).
  generalize dependent (sin ez); generalize dependent (cos ez).
  intros. nsatz.
Qed.

(** X11: over exact arithmetic (without rounding, sin and cos exact), the
    rotation about a normalised axis leaves the axis where it is,
    is affine, and has its transpose as two-sided inverse; the rotation by
    the angle 0 is the identity. *)
Theorem getRotation_axis_laws (axis : Vector3.t) (angle : R) :
  x axis * x axis + y axis * y axis + z axis * z axis = 1 ->
  transformDirection (getRotation axis angle) axis = axis
  /\ transformPoint (getRotation axis angle) axis = axis
  /\ isAffine (getRotation axis angle)
  /\ getMultipliedBy (getTransposed (getRotation axis angle))
       (getRotation axis angle) = getIdentity
  /\ getMultipliedBy (getRotation axis angle)
       (getTransposed (getRotation axis angle)) = getIdentity
  /\ getRotation axis 0 = getIdentity.
Proof.
  intros Hn. pose proof (sin_cos_one angle) as Ha.
  destruct axis as [ax ay az]. mat_unfold_all.
  split; [|split; [|split; [repeat split|split; [|split]]]].
  - generalize dependent (sin angle); generalize dependent (cos angle).
    intros. f_equal; nsatz.
  - generalize dependent (sin angle); generalize dependent (cos angle).
    intros. f_equal; nsatz.
  - generalize dependent (sin angle); generalize dependent (cos angle).
    intros. f_equal; nsatz.
  - generalize dependent (sin angle); generalize dependent (cos angle).
    intros. f_equal; nsatz.
  - rewrite cos_0, sin_0. f_equal; ring.
Qed.

Lemma getRotation_axis_laws_witness :
  transformDirection (getRotation (Vector3 0 0 1) 1) (Vector3 0 0 1)
  = Vector3 0 0 1.
Proof.
  apply (getRotation_axis_laws (Vector3 0 0 1) 1). cbn. lra.
Defined.

Lemma getTranslation_isAffine (t : Vector3.t) : isAffine (getTranslation t).
Proof. repeat split. Qed.

Lemma getScale_isAffine (s : Vector3.t) : isAffine (getScale s).
Proof. repeat split. Qed.

(** X12: over exact arithmetic (without rounding), translating or scaling
    a matrix acts on the point first:
    m.getTranslatedBy(t) and m.translateBy(t) transform p as m transforms
    p + t; m.scaleBy(s) transforms p as m transforms the point scaled
    component by component; m.scaleBy(s, pivot) transforms p as m transforms
    pivot + s * (p - pivot), so the pivot goes where m puts it. *)
Theorem translateBy_scaleBy_points (m : Matrix4.t) (t s pivot p : Vector3.t) :
  transformPoint (getTranslatedBy m t) p
  = transformPoint m (Vector3 (x p + x t) (y p + y t) (z p + z t))
  /\ translateBy m t = getTranslatedBy m t
  /\ transformPoint (scaleBy m s) p
     = transformPoint m (Vector3 (x s * x p) (y s * y p) (z s * z p))
  /\ transformPoint (scaleByPivot m s pivot) p
     = transformPoint m
         (Vector3 (x pivot + x s * (x p - x pivot))
                  (y pivot + y s * (y p - y pivot))
                  (z pivot + z s * (z p - z pivot)))
  /\ transformPoint (scaleByPivot m s pivot) pivot = transformPoint m pivot.
Proof.
  assert (Ht : forall (A : Matrix4.t) (u q : Vector3.t),
             transformPoint (translateBy A u) q
             = transformPoint A (Vector3 (x q + x u) (y q + y u) (z q + z u))).
  { intros A u q. unfold translateBy, multiplyBy.
    rewrite getMultipliedBy_transformPoint by apply getTranslation_isAffine.
    f_equal. destruct u, q. mat_unfold. f_equal; ring. }
  assert (Hs : forall (A : Matrix4.t) (u q : Vector3.t),
             transformPoint (scaleBy A u) q
             = transformPoint A (Vector3 (x u * x q) (y u * y q) (z u * z q))).
  { intros A u q. unfold scaleBy, multiplyBy.
    rewrite getMultipliedBy_transformPoint by apply getScale_isAffine.
    f_equal. destruct u, q. mat_unfold. f_equal; ring. }
  assert (Hp : forall q : Vector3.t,
             transformPoint (scaleByPivot m s pivot) q
             = transformPoint m
                 (Vector3 (x pivot + x s * (x q - x pivot))
                          (y pivot + y s * (y q - y pivot))
                          (z pivot + z s * (z q - z pivot)))).
  { intros q. unfold scaleByPivot. cbv zeta. rewrite Ht, Hs, Ht.
    cbn [x y z]. f_equal. f_equal; ring. }
  split; [exact (Ht m t p)|]. split; [reflexivity|].
  split; [exact (Hs m s p)|]. split; [exact (Hp p)|].
  rewrite Hp. f_equal. destruct pivot. cbn [x y z]. f_equal; ring.
Qed.

(** X13: over exact arithmetic (without rounding), the affine inverse of a
    translation is the opposite translation,
    and the affine inverse of a scale without a zero factor is the scale by
    the reciprocals; translations compose by adding their vectors. *)
Theorem getInverse_translation_scale (t u s : Vector3.t) :
  x s <> 0 -> y s <> 0 -> z s <> 0 ->
  getInverse (getTranslation t)
  = getTranslation (Vector3 (- x t) (- y t) (- z t))
  /\ getInverse (getScale s) = getScale (Vector3 (1 / x s) (1 / y s) (1 / z s))
  /\ getMultipliedBy (getTranslation t) (getTranslation u)
     = getTranslation (Vector3 (x t + x u) (y t + y u) (z t + z u)).
Proof.
  intros Hx Hy Hz. destruct t, u, s. mat_unfold_all. cbn in Hx, Hy, Hz.
  split; [f_equal; field|]. split; [f_equal; field; auto|f_equal; ring].
Qed.

Lemma getInverse_translation_scale_witness :
  getInverse (getScale (Vector3 2 4 5))
  = getScale (Vector3 (1 / 2) (1 / 4) (1 / 5)).
Proof.
  apply (getInverse_translation_scale (Vector3 0 0 0) (Vector3 0 0 0)
           (Vector3 2 4 5)); cbn; lra.
Defined.

End Matrix4Rotations.

(* ===================================================================== *)
(** * The vertex index as a round trip *)
(* ===================================================================== *)

Module FbxSurfaceRoundTrip.
Import FbxSurface FbxSurfaceFacts.

Lemma addVertex_extends (v : ArbitraryMeshVertex.t) (s : t) :
  (exists idx : Z, indices (addVertex v s) = indices s ++ [idx])
  /\ (exists l : list ArbitraryMeshVertex.t,
        vertices (addVertex v s) = vertices s ++ l)
  /\ material (addVertex v s) = material s.
Proof.
  destruct (find v (vertexIndices s)) as [e|] eqn:Hf.
  - rewrite (addVertex_known _ _ _ Hf); cbn.
    split; [eauto|]. split; [exists []; now rewrite app_nil_r|reflexivity].
  - rewrite (addVertex_new _ _ Hf); cbn. eauto.
Qed.

Lemma addVertices_extends (vs : list ArbitraryMeshVertex.t) (s : t) :
  (exists l : list Z,
     indices (addVertices vs s) = indices s ++ l /\ length l = length vs)
  /\ (exists l : list ArbitraryMeshVertex.t,
        vertices (addVertices vs s) = vertices s ++ l)
  /\ material (addVertices vs s) = material s.
Proof.
  revert s. induction vs as [|v vs IH]; intros s.
  - cbn. split; [exists []; now rewrite app_nil_r|].
    split; [exists []; now rewrite app_nil_r|reflexivity].
  - rewrite addVertices_cons.
    destruct (IH (addVertex v s)) as ((li & Hi & Hl) & (lv & Hv) & Hm).
    destruct (addVertex_extends v s) as ((idx & Hi1) & (lv1 & Hv1) & Hm1).
    split; [|split].
    + exists (idx :: li). rewrite Hi, Hi1, <- app_assoc. cbn. now rewrite Hl.
    + exists (lv1 ++ lv). now rewrite Hv, Hv1, <- app_assoc.
    + now rewrite Hm.
Qed.

Lemma resolves_extends (s s' : t) (k : nat) (w : ArbitraryMeshVertex.t) :
  (exists l, indices s' = indices s ++ l) ->
  (exists l, vertices s' = vertices s ++ l) ->
  resolves s k w -> resolves s' k w.
Proof.
  intros [li Hi] [lv Hv] (idx & H1 & H2 & H3). exists idx.
  rewrite Hi, Hv. split; [|split; [exact H2|]].
  - rewrite lookup_app_l; [exact H1|]. eapply lookup_lt_Some, H1.
  - rewrite lookup_app_l; [exact H3|]. eapply lookup_lt_Some, H3.
Qed.

Lemma addVertex_resolves_last (v : ArbitraryMeshVertex.t) (s : t) :
  consistent s ->
  (Z.of_nat (length (vertices (addVertex v s))) <= 2 ^ 32)%Z ->
  resolves (addVertex v s) (length (indices s)) v.
Proof.
  intros Hc Hlen. unfold resolves.
  destruct (find v (vertexIndices s)) as [e|] eqn:Hf.
  - rewrite (addVertex_known _ _ _ Hf) in *; cbn [indices vertices] in *.
    destruct (consistent_find_Some _ _ _ Hc Hf) as (_ & Hl & Hlt).
    exists (static_cast_u32 (snd e)). unfold static_cast_u32.
    rewrite u32_small by lia.
    split; [rewrite lookup_app_r by lia; now rewrite Nat.sub_diag|].
    split; [lia|]. now rewrite Nat2Z.id.
  - rewrite (addVertex_new _ _ Hf) in *; cbn [indices vertices] in *.
    rewrite length_app in Hlen; cbn [length] in Hlen.
    exists (static_cast_u32 (length (vertices s))). unfold static_cast_u32.
    rewrite u32_small by lia.
    split; [rewrite lookup_app_r by lia; now rewrite Nat.sub_diag|].
    split; [lia|]. rewrite Nat2Z.id.
    rewrite lookup_app_r by lia. now rewrite Nat.sub_diag.
Qed.

Lemma addVertices_vertices_length (vs : list ArbitraryMeshVertex.t) (s : t) :
  (length (vertices s) <= length (vertices (addVertices vs s)))%nat
  /\ (length (vertices (addVertices vs s))
      <= length (vertices s) + length vs)%nat.
Proof.
  revert s. induction vs as [|v vs IH]; intros s; [cbn; lia|].
  rewrite addVertices_cons. destruct (IH (addVertex v s)) as [H1 H2].
  cbn [length].
  destruct (find v (vertexIndices s)) as [e|] eqn:Hf.
  - rewrite (addVertex_known _ _ _ Hf) in *; cbn [vertices] in *. lia.
  - rewrite (addVertex_new _ _ Hf) in *; cbn [vertices] in *.
    rewrite length_app in *; cbn [length] in *. lia.
Qed.

Lemma addVertices_resolves (vs : list ArbitraryMeshVertex.t) (s : t) :
  consistent s ->
  (Z.of_nat (length (vertices (addVertices vs s))) <= 2 ^ 32)%Z ->
  forall k v, vs !! k = Some v ->
    resolves (addVertices vs s) (length (indices s) + k) v.
Proof.
  revert s. induction vs as [|v0 vs IH]; intros s Hc Hlen k v Hk;
    [discriminate|].
  rewrite addVertices_cons in *.
  destruct (addVertex_extends v0 s) as ((idx & Hi1) & _ & _).
  destruct k as [|k]; cbn in Hk.
  - injection Hk as <-. rewrite Nat.add_0_r.
    destruct (addVertices_extends vs (addVertex v0 s)) as ((li & Hi & _) & Hv & _).
    apply (resolves_extends (addVertex v0 s)); [eauto|exact Hv|].
    apply addVertex_resolves_last; [exact Hc|].
    pose proof (proj1 (addVertices_vertices_length vs (addVertex v0 s))). lia.
  - replace (length (indices s) + S k)%nat
      with (length (indices (addVertex v0 s)) + k)%nat
      by (rewrite Hi1, length_app; cbn; lia).
    apply IH; [now apply addVertex_consistent|exact Hlen|exact Hk].
Qed.

Lemma addVertex_elem_of (v w : ArbitraryMeshVertex.t) (s : t) :
  consistent s ->
  w ∈ vertices (addVertex v s) <-> w ∈ vertices s \/ w = v.
Proof.
  intros Hc. destruct (find v (vertexIndices s)) as [e|] eqn:Hf.
  - rewrite (addVertex_known _ _ _ Hf); cbn [vertices].
    destruct (consistent_find_Some _ _ _ Hc Hf) as (_ & Hl & _).
    apply list_elem_of_lookup_2 in Hl. split; [auto|].
    intros [H| ->]; assumption.
  - rewrite (addVertex_new _ _ Hf); cbn [vertices].
    rewrite elem_of_app, list_elem_of_singleton. reflexivity.
Qed.

Lemma addVertices_elem_of (vs : list ArbitraryMeshVertex.t)
  (w : ArbitraryMeshVertex.t) (s : t) :
  consistent s ->
  w ∈ vertices (addVertices vs s) <-> w ∈ vertices s \/ w ∈ vs.
Proof.
  revert s. induction vs as [|v vs IH]; intros s Hc.
  - cbn. rewrite elem_of_nil. tauto.
  - rewrite addVertices_cons, IH by now apply addVertex_consistent.
    rewrite addVertex_elem_of by exact Hc. rewrite elem_of_cons. tauto.
Qed.

Lemma addVertices_app (vs ws : list ArbitraryMeshVertex.t) (s : t) :
  addVertices (vs ++ ws) s = addVertices ws (addVertices vs s).
Proof. unfold addVertices. apply fold_left_app. Qed.

(** X14: the indexed form is the triangle soup again.  After the vertices
    vs are added to a fresh surface (and while the vertex array has at most
    2^32 entries), the surface has one index per added vertex, and the k-th
    index addresses, in the vertex array, the k-th added vertex. *)
Theorem addVertices_round_trip (vs : list ArbitraryMeshVertex.t)
  (name : string) :
  let s := addVertices vs (setMaterial name empty) in
  (Z.of_nat (length (vertices s)) <= 2 ^ 32)%Z ->
  length (indices s) = length vs
  /\ forall (k : nat) (v : ArbitraryMeshVertex.t),
       vs !! k = Some v ->
       exists idx : Z,
         indices s !! k = Some idx /\ (0 <= idx)%Z
         /\ vertices s !! Z.to_nat idx = Some v.
Proof.
  intros s Hlen. subst s. split.
  - destruct (addVertices_extends vs (setMaterial name empty))
      as ((li & Hi & Hl) & _). rewrite Hi. cbn. exact Hl.
  - intros k v Hk.
    apply (addVertices_resolves vs (setMaterial name empty)
             consistent_empty Hlen k v Hk).
Qed.

Lemma addVertices_round_trip_witness :
  exists idx : Z,
    indices (addVertices [corner0; corner1; corner0] (setMaterial "M" empty))
      !! 2%nat = Some idx
    /\ (0 <= idx)%Z
    /\ vertices (addVertices [corner0; corner1; corner0] (setMaterial "M" empty))
         !! Z.to_nat idx = Some corner0.
Proof.
  apply (addVertices_round_trip [corner0; corner1; corner0] "M").
  - pose proof (proj2 (addVertices_vertices_length [corner0; corner1; corner0]
                         (setMaterial "M" empty))) as H.
    cbn [length setMaterial empty vertices] in H. lia.
  - reflexivity.
Defined.

(** X15: what the vertex array of a surface holds.  Built from a fresh
    surface, it holds exactly the vertices that were added, and never more
    entries than were added; adding further vertices later
    only appends to the vertex array and to the index array, so no index
    issued before changes its meaning; the material name is not touched. *)
Theorem addVertices_contents (vs ws : list ArbitraryMeshVertex.t)
  (name : string) :
  let s := addVertices vs (setMaterial name empty) in
  let s' := addVertices (vs ++ ws) (setMaterial name empty) in
  (forall w : ArbitraryMeshVertex.t, w ∈ vertices s <-> w ∈ vs)
  /\ (length (vertices s) <= length vs)%nat
  /\ (exists l, vertices s' = vertices s ++ l)
  /\ (exists l, indices s' = indices s ++ l)
  /\ material s' = name.
Proof.
  intros s s'. subst s s'. split; [|split; [|split; [|split]]].
  - intros w. rewrite addVertices_elem_of by apply consistent_empty.
    cbn. rewrite elem_of_nil. tauto.
  - pose proof (proj2 (addVertices_vertices_length vs (setMaterial name empty))).
    cbn in *. lia.
  - rewrite addVertices_app.
    exact (proj1 (proj2 (addVertices_extends ws _))).
  - rewrite addVertices_app.
    destruct (proj1 (addVertices_extends ws (addVertices vs (setMaterial name empty))))
      as (l & Hl & _). eauto.
  - now rewrite (proj2 (proj2 (addVertices_extends _ _))).
Qed.

End FbxSurfaceRoundTrip.

(* ===================================================================== *)
(** * Further properties of the surface aggregation *)
(* ===================================================================== *)

Module ExporterLaws.
Import ModelExporterBase.
Import FbxSurfaceFacts ModelExporterBaseFacts PipelineFacts.

Lemma surface_resolves_extends (s s' : Surface) (k : nat) (w : ArbitraryMeshVertex.t) :
  (exists l, indices s' = indices s ++ l) ->
  (exists l, vertices s' = vertices s ++ l) ->
  resolves s k w -> resolves s' k w.
Proof.
  intros [li Hi] [lv Hv] (idx & H1 & H2 & H3). exists idx.
  rewrite Hi, Hv. split; [|split; [exact H2|]].
  - rewrite lookup_app_l; [exact H1|]. eapply lookup_lt_Some, H1.
  - rewrite lookup_app_l; [exact H3|]. eapply lookup_lt_Some, H3.
Qed.

(** An incoming index, offset, addresses the transformed vertex. *)
Lemma aggregated_offset (incoming : FbxSurface.t) (T : Matrix4.t)
  (before : Surface) (idx : Z) (v : ArbitraryMeshVertex.t) :
  (Z.of_nat (length (vertices before))
   + Z.of_nat (length (FbxSurface.getVertexArray incoming)) <= 2 ^ 32)%Z ->
  (0 <= idx)%Z ->
  FbxSurface.getVertexArray incoming !! Z.to_nat idx = Some v ->
  let idx' := u32 (idx + static_cast_u32 (length (vertices before))) in
  (0 <= idx')%Z
  /\ vertices (aggregated incoming T before) !! Z.to_nat idx'
     = Some (transformVertex T
               (Matrix4.getTransposed (Matrix4.getFullInverse T)) v).
Proof.
  intros Hfit Hidx Hv idx'. subst idx'.
  pose proof (lookup_lt_Some _ _ _ Hv) as Hlt.
  unfold static_cast_u32. rewrite (u32_small (Z.of_nat _)) by lia.
  rewrite u32_small by lia. split; [lia|].
  cbn [aggregated vertices].
  replace (Z.to_nat (idx + Z.of_nat (length (vertices before))))
    with (length (vertices before) + Z.to_nat idx)%nat by lia.
  rewrite lookup_app_r by lia.
  replace (length (vertices before) + Z.to_nat idx - length (vertices before))%nat
    with (Z.to_nat idx) by lia.
  rewrite list_lookup_fmap. unfold FbxSurface.getVertexArray in Hv.
  unfold FbxSurface.getVertexArray. now rewrite Hv.
Qed.

Lemma addSurface_resolves (incoming : FbxSurface.t) (T : Matrix4.t)
  (st : Surfaces) (k : nat) (v0 v1 v2 : ArbitraryMeshVertex.t) :
  (3 <= length (FbxSurface.getIndexArray incoming))%nat ->
  FbxSurface.resolves incoming (3 * k) v0 ->
  FbxSurface.resolves incoming (3 * k + 1) v1 ->
  FbxSurface.resolves incoming (3 * k + 2) v2 ->
  let before := surfaceOf (FbxSurface.getActiveMaterial incoming) st in
  (Z.of_nat (length (vertices before))
   + Z.of_nat (length (FbxSurface.getVertexArray incoming)) <= 2 ^ 32)%Z ->
  exists after : Surface,
    fst (addSurface incoming T st) !! FbxSurface.getActiveMaterial incoming
    = Some after
    /\ (let tv := transformVertex T
                    (Matrix4.getTransposed (Matrix4.getFullInverse T)) in
        let n := length (indices before) in
        resolves after (n + 3 * k) (tv v2)
        /\ resolves after (n + 3 * k + 1) (tv v1)
        /\ resolves after (n + 3 * k + 2) (tv v0))
    /\ (forall (j : nat) (w : ArbitraryMeshVertex.t),
          resolves before j w -> resolves after j w).
Proof.
  intros Hacc (i0 & H0 & P0 & V0) (i1 & H1 & P1 & V1) (i2 & H2 & P2 & V2)
    before Hfit.
  exists (aggregated incoming T before).
  split; [exact (addSurface_accepted_lookup _ _ _ Hacc)|].
  destruct (reversedTriangles_lookup
              (static_cast_u32 (length (vertices before)))
              (FbxSurface.getIndexArray incoming) k i0 i1 i2 H0 H1 H2)
    as (R0 & R1 & R2).
  destruct (aggregated_offset incoming T before i0 v0 Hfit P0 V0) as [Q0 W0].
  destruct (aggregated_offset incoming T before i1 v1 Hfit P1 V1) as [Q1 W1].
  destruct (aggregated_offset incoming T before i2 v2 Hfit P2 V2) as [Q2 W2].
  split; [cbv zeta; split; [|split]|].
  - eexists. split; [|split; [exact Q2|exact W2]].
    cbn [aggregated indices]. rewrite lookup_app_r by lia.
    replace (length (indices before) + 3 * k - length (indices before))%nat
      with (3 * k)%nat by lia. exact R0.
  - eexists. split; [|split; [exact Q1|exact W1]].
    cbn [aggregated indices]. rewrite lookup_app_r by lia.
    replace (length (indices before) + 3 * k + 1 - length (indices before))%nat
      with (3 * k + 1)%nat by lia. exact R1.
  - eexists. split; [|split; [exact Q0|exact W0]].
    cbn [aggregated indices]. rewrite lookup_app_r by lia.
    replace (length (indices before) + 3 * k + 2 - length (indices before))%nat
      with (3 * k + 2)%nat by lia. exact R2.
  - intros j w. apply surface_resolves_extends; cbn [aggregated indices vertices]; eauto.
Qed.


(** X16: addSurface keeps the triangles.  When the k-th triple of an
    accepted incoming surface addresses the vertices (v0, v1, v2), then,
    while the vertex count stays within 2^32, the triple addSurface stores
    for it addresses the transformed vertices in the order (v2, v1, v0); and
    every index the target Surface held before still addresses the vertex it
    addressed. *)
Theorem addSurface_keeps_triangles (incoming : FbxSurface.t) (T : Matrix4.t)
  (st : Surfaces) (k : nat) (v0 v1 v2 : ArbitraryMeshVertex.t) :
  (3 <= length (FbxSurface.getIndexArray incoming))%nat ->
  FbxSurface.resolves incoming (3 * k) v0 ->
  FbxSurface.resolves incoming (3 * k + 1) v1 ->
  FbxSurface.resolves incoming (3 * k + 2) v2 ->
  let before := surfaceOf (FbxSurface.getActiveMaterial incoming) st in
  (Z.of_nat (length (vertices before))
   + Z.of_nat (length (FbxSurface.getVertexArray incoming)) <= 2 ^ 32)%Z ->
  exists after : Surface,
    fst (addSurface incoming T st) !! FbxSurface.getActiveMaterial incoming
    = Some after
    /\ (let tv := transformVertex T
                    (Matrix4.getTransposed (Matrix4.getFullInverse T)) in
        let n := length (indices before) in
        resolves after (n + 3 * k) (tv v2)
        /\ resolves after (n + 3 * k + 1) (tv v1)
        /\ resolves after (n + 3 * k + 2) (tv v0))
    /\ (forall (j : nat) (w : ArbitraryMeshVertex.t),
          resolves before j w -> resolves after j w).
Proof. apply addSurface_resolves. Qed.

Lemma triangle_resolves (name : string) :
  FbxSurface.resolves (FbxSurface.triangle name) 0 FbxSurface.corner0
  /\ FbxSurface.resolves (FbxSurface.triangle name) 1 FbxSurface.corner1
  /\ FbxSurface.resolves (FbxSurface.triangle name) 2 FbxSurface.corner2.
Proof.
  rewrite triangle_eq. unfold FbxSurface.resolves. cbn.
  split; [exists 0%Z|split; [exists 1%Z|exists 2%Z]]; repeat split; lia.
Qed.

Lemma addSurface_keeps_triangles_witness :
  exists after : Surface,
    fst (addSurface (FbxSurface.triangle "M") Matrix4.getIdentity ∅) !! "M"
    = Some after
    /\ resolves after 0 FbxSurface.corner2
    /\ resolves after 1 FbxSurface.corner1
    /\ resolves after 2 FbxSurface.corner0.
Proof.
  assert (Hacc : (3 <= length (FbxSurface.getIndexArray (FbxSurface.triangle "M")))%nat)
    by (rewrite triangle_eq; cbn; lia).
  destruct (triangle_resolves "M") as (T0 & T1 & T2).
  destruct (addSurface_keeps_triangles (FbxSurface.triangle "M")
              Matrix4.getIdentity ∅ 0 _ _ _ Hacc T0 T1 T2)
    as (after & Hl & (R0 & R1 & R2) & _).
  { rewrite triangle_eq. cbn. rewrite surfaceOf_new by apply lookup_empty.
    cbn. lia. }
  exists after.
  replace (FbxSurface.getActiveMaterial (FbxSurface.triangle "M")) with "M"
    in * by (now rewrite triangle_eq).
  rewrite surfaceOf_new in R0, R1, R2 by apply lookup_empty.
  unfold FbxSurface.corner0, FbxSurface.corner1, FbxSurface.corner2 in *.
  rewrite !transformVertex_identity in *.
  split; [exact Hl|]. split; [exact R0|]. split; [exact R1|exact R2].
Defined.

(** X17: how much an accepted call adds.  The index buffer grows by three
    indices per full incoming triple: one or two indices left over after the
    last full triple are dropped.  The vertex array grows by all incoming
    vertices, whether an index addresses them or not.  The name of the
    Surface stays. *)
Theorem addSurface_growth (incoming : FbxSurface.t) (T : Matrix4.t)
  (st : Surfaces) :
  (3 <= length (FbxSurface.getIndexArray incoming))%nat ->
  let before := surfaceOf (FbxSurface.getActiveMaterial incoming) st in
  exists after : Surface,
    fst (addSurface incoming T st) !! FbxSurface.getActiveMaterial incoming
    = Some after
    /\ length (indices after)
       = (length (indices before)
          + 3 * (length (FbxSurface.getIndexArray incoming) / 3))%nat
    /\ length (vertices after)
       = (length (vertices before)
          + length (FbxSurface.getVertexArray incoming))%nat
    /\ materialName after = materialName before.
Proof.
  intros Hacc before. eexists.
  split; [exact (addSurface_accepted_lookup _ _ _ Hacc)|].
  cbn [aggregated indices vertices materialName].
  rewrite !length_app, length_map, reversedTriangles_length. auto.
Qed.

Lemma addSurface_growth_witness :
  exists after : Surface,
    fst (addSurface
           (FbxSurface.FbxSurface [0; 1; 2; 0]%Z
              [FbxSurface.corner0; FbxSurface.corner1; FbxSurface.corner2] "M" [])
           Matrix4.getIdentity ∅) !! "M" = Some after
    /\ length (indices after) = 3%nat.
Proof.
  destruct (addSurface_growth
              (FbxSurface.FbxSurface [0; 1; 2; 0]%Z
                 [FbxSurface.corner0; FbxSurface.corner1; FbxSurface.corner2]
                 "M" [])
              Matrix4.getIdentity ∅) as (after & Hl & Hi & _).
  { cbn. lia. }
  exists after. split; [exact Hl|]. rewrite Hi.
  cbn [FbxSurface.getActiveMaterial FbxSurface.material].
  rewrite surfaceOf_new by apply lookup_empty. reflexivity.
Defined.

(** X18: what addSurface leaves alone.  Whether it returns or throws, the
    entries of all other materials are as before; and a rejected call for a
    material that has an entry leaves the whole map as it was. *)
Theorem addSurface_frame (incoming : FbxSurface.t) (T : Matrix4.t)
  (st : Surfaces) :
  (forall other : string,
     FbxSurface.getActiveMaterial incoming <> other ->
     fst (addSurface incoming T st) !! other = st !! other)
  /\ (forall surface : Surface,
        st !! FbxSurface.getActiveMaterial incoming = Some surface ->
        (length (FbxSurface.getIndexArray incoming) < 3)%nat ->
        addSurface incoming T st = (st, Thrown InvalidGeometry)).
Proof.
  split.
  - intros other Hne. now apply addSurface_lookup_ne.
  - intros surface Hs Hshort.
    rewrite (addSurface_rejected _ _ _ Hshort).
    now rewrite (ensureSurface_existing _ _ _ Hs).
Qed.

Lemma addSurface_frame_witness :
  addSurface (FbxSurface.setMaterial "M" FbxSurface.empty) Matrix4.getIdentity
    {["M" := mkSurface "M" [] []]}
  = ({["M" := mkSurface "M" [] []]}, Thrown InvalidGeometry).
Proof.
  apply (proj2 (addSurface_frame (FbxSurface.setMaterial "M" FbxSurface.empty)
                  Matrix4.getIdentity {["M" := mkSurface "M" [] []]})
           (mkSurface "M" [] [])).
  - apply lookup_singleton_eq.
  - cbn. lia.
Defined.

(** *** addPolygons *)

Lemma addPolygon_extends (surface : Surface) (poly : ModelPolygon) :
  (exists l, indices (addPolygon surface poly) = indices surface ++ l)
  /\ (exists l, vertices (addPolygon surface poly) = vertices surface ++ l).
Proof. unfold addPolygon; cbn. eauto. Qed.

Lemma addPolygons_fold_extends (polys : list ModelPolygon) (surface : Surface) :
  (exists l, indices (fold_left addPolygon polys surface) = indices surface ++ l)
  /\ (exists l, vertices (fold_left addPolygon polys surface)
                = vertices surface ++ l)
  /\ length (vertices (fold_left addPolygon polys surface))
     = (length (vertices surface) + 3 * length polys)%nat
  /\ length (indices (fold_left addPolygon polys surface))
     = (length (indices surface) + 3 * length polys)%nat
  /\ materialName (fold_left addPolygon polys surface) = materialName surface.
Proof.
  revert surface. induction polys as [|p polys IH]; intros surface.
  - cbn. split; [exists []; now rewrite app_nil_r|].
    split; [exists []; now rewrite app_nil_r|]. repeat split; lia.
  - cbn [fold_left].
    destruct (IH (addPolygon surface p))
      as ((li & Hi) & (lv & Hv) & Hlv & Hli & Hm).
    assert (Hlen : length (vertices (addPolygon surface p))
                   = (length (vertices surface) + 3)%nat
                   /\ length (indices (addPolygon surface p))
                      = (length (indices surface) + 3)%nat)
      by (unfold addPolygon; cbn; rewrite !length_app; cbn; lia).
    split; [rewrite Hi; unfold addPolygon; cbn; rewrite <- app_assoc; eauto|].
    split; [rewrite Hv; unfold addPolygon; cbn; rewrite <- app_assoc; eauto|].
    rewrite Hlv, Hli, Hm. cbn [length]. repeat split; solve [lia|reflexivity].
Qed.

Lemma addPolygon_resolves (surface : Surface) (poly : ModelPolygon) :
  (Z.of_nat (length (vertices surface)) + 3 <= 2 ^ 32)%Z ->
  let n := length (indices surface) in
  resolves (addPolygon surface poly) n (a poly)
  /\ resolves (addPolygon surface poly) (n + 1) (b poly)
  /\ resolves (addPolygon surface poly) (n + 2) (c poly).
Proof.
  intros Hfit n. subst n. unfold resolves, addPolygon, static_cast_u32.
  cbn [indices vertices].
  rewrite (u32_small (Z.of_nat _)) by lia.
  rewrite !u32_small by lia.
  split; [|split].
  - exists (Z.of_nat (length (vertices surface))).
    split; [rewrite lookup_app_r by lia; now rewrite Nat.sub_diag|].
    split; [lia|]. rewrite Nat2Z.id.
    rewrite lookup_app_r by lia. now rewrite Nat.sub_diag.
  - exists (Z.of_nat (length (vertices surface)) + 1)%Z.
    split; [rewrite lookup_app_r by lia;
            now replace (length (indices surface) + 1 - length (indices surface))%nat
              with 1%nat by lia|].
    split; [lia|].
    replace (Z.to_nat (Z.of_nat (length (vertices surface)) + 1))
      with (length (vertices surface) + 1)%nat by lia.
    rewrite lookup_app_r by lia.
    now replace (length (vertices surface) + 1 - length (vertices surface))%nat
      with 1%nat by lia.
  - exists (Z.of_nat (length (vertices surface)) + 2)%Z.
    split; [rewrite lookup_app_r by lia;
            now replace (length (indices surface) + 2 - length (indices surface))%nat
              with 2%nat by lia|].
    split; [lia|].
    replace (Z.to_nat (Z.of_nat (length (vertices surface)) + 2))
      with (length (vertices surface) + 2)%nat by lia.
    rewrite lookup_app_r by lia.
    now replace (length (vertices surface) + 2 - length (vertices surface))%nat
      with 2%nat by lia.
Qed.

Lemma addPolygons_fold_resolves (polys : list ModelPolygon) (surface : Surface)
  (k : nat) (poly : ModelPolygon) :
  (Z.of_nat (length (vertices surface)) + 3 * Z.of_nat (length polys)
   <= 2 ^ 32)%Z ->
  polys !! k = Some poly ->
  let n := length (indices surface) in
  let after := fold_left addPolygon polys surface in
  resolves after (n + 3 * k) (a poly)
  /\ resolves after (n + 3 * k + 1) (b poly)
  /\ resolves after (n + 3 * k + 2) (c poly).
Proof.
  revert surface k. induction polys as [|p polys IH]; intros surface k Hfit Hk;
    [discriminate|].
  cbn [fold_left length] in *. destruct k as [|k]; cbn in Hk.
  - injection Hk as <-. cbv zeta.
    destruct (addPolygon_resolves surface p) as (Ra & Rb & Rc); [lia|].
    destruct (addPolygons_fold_extends polys (addPolygon surface p))
      as (Hi & Hv & _).
    replace (length (indices surface) + 3 * 0)%nat
      with (length (indices surface)) by lia.
    repeat split; eapply surface_resolves_extends; eauto.
  - cbv zeta.
    assert (Hlen : length (indices (addPolygon surface p))
                   = (length (indices surface) + 3)%nat)
      by (unfold addPolygon; cbn; rewrite length_app; cbn; lia).
    assert (Hlv : length (vertices (addPolygon surface p))
                  = (length (vertices surface) + 3)%nat)
      by (unfold addPolygon; cbn; rewrite length_app; cbn; lia).
    destruct (IH (addPolygon surface p) k) as (Ra & Rb & Rc);
      [rewrite Hlv; lia|exact Hk|].
    cbv zeta in Ra, Rb, Rc. rewrite Hlen in Ra, Rb, Rc.
    replace (length (indices surface) + 3 * S k)%nat
      with (length (indices surface) + 3 + 3 * k)%nat by lia.
    auto.
Qed.

Lemma addPolygons_lookup (name : string) (polys : list ModelPolygon)
  (st : Surfaces) :
  addPolygons name polys st !! name
  = Some (fold_left addPolygon polys (surfaceOf name st)).
Proof.
  unfold addPolygons, surfaceOf.
  destruct (ensureSurface name st) as [surface st']. cbn.
  apply lookup_insert_eq.
Qed.

Lemma addPolygons_lookup_ne (name other : string) (polys : list ModelPolygon)
  (st : Surfaces) :
  name <> other -> addPolygons name polys st !! other = st !! other.
Proof.
  intros Hne. unfold addPolygons.
  pose proof (ensureSurface_lookup_ne name other st Hne) as H.
  destruct (ensureSurface name st) as [surface st']. cbn in *.
  now rewrite lookup_insert_ne.
Qed.

(** X19: addPolygons stores each polygon as it comes.  It never rejects:
    an empty list still leaves an entry for the material.  Each polygon adds
    its three vertices (no vertex is shared, whatever was added before) and,
    while the vertex count stays within 2^32, the three indices stored for
    the k-th polygon address its vertices a, b, c in that order: the winding
    is not reversed, unlike in addSurface.  Other materials are not
    touched. *)
Theorem addPolygons_stores (name : string) (polys : list ModelPolygon)
  (st : Surfaces) :
  let before := surfaceOf name st in
  exists after : Surface,
    addPolygons name polys st !! name = Some after
    /\ materialName after = materialName before
    /\ length (vertices after)
       = (length (vertices before) + 3 * length polys)%nat
    /\ length (indices after)
       = (length (indices before) + 3 * length polys)%nat
    /\ (forall (j : nat) (w : ArbitraryMeshVertex.t),
          resolves before j w -> resolves after j w)
    /\ ((Z.of_nat (length (vertices before)) + 3 * Z.of_nat (length polys)
         <= 2 ^ 32)%Z ->
        forall (k : nat) (poly : ModelPolygon),
          polys !! k = Some poly ->
          resolves after (length (indices before) + 3 * k) (a poly)
          /\ resolves after (length (indices before) + 3 * k + 1) (b poly)
          /\ resolves after (length (indices before) + 3 * k + 2) (c poly))
    /\ (forall other : string,
          name <> other -> addPolygons name polys st !! other = st !! other).
Proof.
  intros before. eexists. split; [apply addPolygons_lookup|]. fold before.
  destruct (addPolygons_fold_extends polys before) as (Hi & Hv & Hlv & Hli & Hm).
  split; [exact Hm|]. split; [exact Hlv|]. split; [exact Hli|].
  split; [intros j w; now apply surface_resolves_extends|].
  split; [intros Hfit k poly Hk; now apply addPolygons_fold_resolves|].
  intros other Hne. now apply addPolygons_lookup_ne.
Qed.

Lemma addPolygons_stores_witness :
  exists after : Surface,
    addPolygons "M"
      [mkModelPolygon FbxSurface.corner0 FbxSurface.corner1 FbxSurface.corner2]
      ∅ !! "M" = Some after
    /\ resolves after 0 FbxSurface.corner0
    /\ resolves after 1 FbxSurface.corner1
    /\ resolves after 2 FbxSurface.corner2.
Proof.
  destruct (addPolygons_stores "M"
              [mkModelPolygon FbxSurface.corner0 FbxSurface.corner1
                 FbxSurface.corner2] ∅)
    as (after & Hl & _ & _ & _ & _ & Hk & _).
  exists after. split; [exact Hl|].
  rewrite surfaceOf_new in Hk by apply lookup_empty.
  assert (Hfit : (Z.of_nat (length (vertices (mkSurface "M" [] [])))
                  + 3 * Z.of_nat
                          (length [mkModelPolygon FbxSurface.corner0
                                     FbxSurface.corner1 FbxSurface.corner2])
                  <= 2 ^ 32)%Z) by (cbn; lia).
  exact (Hk Hfit 0%nat _ eq_refl).
Defined.

(** *** Invariants of the exporter *)

Lemma addPolygon_valid (surface : Surface) (poly : ModelPolygon) :
  surfaceValid surface -> surfaceValid (addPolygon surface poly).
Proof.
  intros [Hidx Hlen]. unfold surfaceValid, addPolygon, static_cast_u32.
  cbn [indices vertices]. rewrite !length_app. cbn [length].
  pose proof (u32_range (Z.of_nat (length (vertices surface)))) as R0.
  pose proof (u32_le (Z.of_nat (length (vertices surface)))) as L0.
  pose proof (u32_range (u32 (Z.of_nat (length (vertices surface))) + 1)) as R1.
  pose proof (u32_le (u32 (Z.of_nat (length (vertices surface))) + 1)) as L1.
  pose proof (u32_range (u32 (Z.of_nat (length (vertices surface))) + 2)) as R2.
  pose proof (u32_le (u32 (Z.of_nat (length (vertices surface))) + 2)) as L2.
  split.
  - apply Forall_app. split.
    + eapply Forall_impl; [exact Hidx|]. cbn. intros. lia.
    + repeat constructor; lia.
  - replace (length (indices surface) + (1 + (1 + 1)))%nat
      with (length (indices surface) + 1 * 3)%nat by lia.
    rewrite Nat.Div0.mod_add. exact Hlen.
Qed.

Lemma addPolygons_fold_valid (polys : list ModelPolygon) (surface : Surface) :
  surfaceValid surface -> surfaceValid (fold_left addPolygon polys surface).
Proof.
  revert surface. induction polys as [|p polys IH]; intros surface H;
    [exact H|].
  cbn [fold_left]. apply IH, addPolygon_valid, H.
Qed.

Lemma surfaceOf_materialName (name : string) (st : Surfaces) :
  (forall n s, st !! n = Some s -> materialName s = n) ->
  materialName (surfaceOf name st) = name.
Proof.
  intros Hst. destruct (st !! name) as [surf|] eqn:H.
  - rewrite (surfaceOf_existing _ _ _ H). exact (Hst _ _ H).
  - now rewrite (surfaceOf_new _ _ H).
Qed.

Lemma reachableByCalls_inv (st : Surfaces) (name : string)
  (s : Surface) :
  reachableByCalls st -> st !! name = Some s ->
  materialName s = name
  /\ Forall (fun idx => (0 <= idx < Z.of_nat (length (vertices s)))%Z)
       (indices s)
  /\ (length (indices s) mod 3 = 0)%nat.
Proof.
  intros Hr. revert name s.
  induction Hr as [|st incoming T Hr IH Hin|st m polys Hr IH]; intros name s H.
  - rewrite lookup_empty in H. discriminate.
  - assert (Hnames : forall n s, st !! n = Some s -> materialName s = n)
      by (intros n s' Hs; exact (proj1 (IH n s' Hs))).
    assert (Hvalid : forall n s, st !! n = Some s -> surfaceValid s)
      by (intros n s' Hs; exact (proj2 (IH n s' Hs))).
    split; [|exact (addSurface_preserves_valid incoming T st Hin Hvalid name s H)].
    destruct (decide (FbxSurface.getActiveMaterial incoming = name)) as [<-|Hne].
    + destruct (le_lt_dec 3 (length (FbxSurface.getIndexArray incoming))) as [Hl|Hl].
      * rewrite (addSurface_accepted_lookup _ _ _ Hl) in H.
        injection H as <-. cbn [aggregated materialName].
        now apply surfaceOf_materialName.
      * rewrite (addSurface_rejected _ _ _ Hl) in H. cbn [fst] in H.
        rewrite ensureSurface_lookup in H. injection H as <-.
        now apply surfaceOf_materialName.
    + rewrite (addSurface_lookup_ne _ _ _ _ Hne) in H.
      exact (proj1 (IH _ _ H)).
  - destruct (decide (m = name)) as [<-|Hne].
    + rewrite addPolygons_lookup in H. injection H as <-.
      assert (Hnames : forall n s, st !! n = Some s -> materialName s = n)
        by (intros n s' Hs; exact (proj1 (IH n s' Hs))).
      assert (Hvalid : forall n s, st !! n = Some s -> surfaceValid s)
        by (intros n s' Hs; exact (proj2 (IH n s' Hs))).
      split.
      * rewrite (proj2 (proj2 (proj2 (proj2 (addPolygons_fold_extends polys _))))).
        now apply surfaceOf_materialName.
      * apply addPolygons_fold_valid. now apply surfaceOf_valid.
    + rewrite (addPolygons_lookup_ne _ _ _ _ Hne) in H. exact (IH _ _ H).
Qed.


(** X20: the invariants of the exporter.  In every state reached from a
    fresh exporter by addSurface calls (with incoming surfaces of valid
    indices, returning or throwing) and addPolygons calls, every Surface of
    the map carries the name it is stored under, all its indices are below
    the length of its vertex array, and its index count is a multiple of
    3. *)
Theorem reachableByCalls_invariant (st : Surfaces) (name : string)
  (s : Surface) :
  reachableByCalls st -> st !! name = Some s ->
  materialName s = name
  /\ Forall (fun idx => (0 <= idx < Z.of_nat (length (vertices s)))%Z)
       (indices s)
  /\ (length (indices s) mod 3 = 0)%nat.
Proof. apply reachableByCalls_inv. Qed.

Lemma reachableByCalls_invariant_witness :
  materialName (fold_left addPolygon
                  [mkModelPolygon FbxSurface.corner0 FbxSurface.corner1
                     FbxSurface.corner2]
                  (surfaceOf "P" ∅)) = "P".
Proof.
  apply (reachableByCalls_invariant
           (addPolygons "P"
              [mkModelPolygon FbxSurface.corner0 FbxSurface.corner1
                 FbxSurface.corner2] ∅) "P").
  - apply reachableByCalls_addPolygons, reachableByCalls_empty.
  - apply addPolygons_lookup.
Defined.

End ExporterLaws.

(* ===================================================================== *)
(** * The life of an ExportStream *)
(* ===================================================================== *)

Module ExportStreamLife.
Import ExportStream ExportStreamFacts.

Lemma writeAll_fields (datas : list string) (es : t) :
  _tempFile (writeAll datas es) = _tempFile es
  /\ _outputDirectory (writeAll datas es) = _outputDirectory es
  /\ _filename (writeAll datas es) = _filename es
  /\ is_open (_tempStream (writeAll datas es)) = is_open (_tempStream es)
  /\ buffered (_tempStream (writeAll datas es))
     = fold_left (fun acc d => acc +:+ d) datas (buffered (_tempStream es)).
Proof.
  revert es. unfold writeAll.
  induction datas as [|d datas IH]; intros es; [repeat split|].
  cbn [fold_left]. destruct (IH (write d es)) as (H1 & H2 & H3 & H4 & H5).
  rewrite H1, H2, H3, H4, H5. repeat split.
Qed.

(** close() when neither remove nor rename fails and the temporary file is
    there. *)
Lemma close_commits (es : t) (env : Faults) (files : Files) (content : string) :
  wellFormed es ->
  files !! _tempFile es = Some content ->
  remove_fails env = None -> rename_fails env = None ->
  let written :=
    if is_open (_tempStream es)
    then content +:+ buffered (_tempStream es) else content in
  let es' := fst (fst (close es env files)) in
  let files' := snd (fst (close es env files)) in
  snd (close es env files) = Returned tt
  /\ files' !! targetPath es = Some written
  /\ files' !! _tempFile es = None
  /\ (forall other : string, other <> targetPath es -> other <> _tempFile es ->
        files' !! other = files !! other)
  /\ _tempFile es' = _tempFile es
  /\ _outputDirectory es' = _outputDirectory es
  /\ _filename es' = _filename es
  /\ is_open (_tempStream es') = false.
Proof.
  intros Hwf Htemp Hrm Hrn written es' files'.
  pose proof (tempFile_neq_target es Hwf) as Hne.
  subst es' files'. unfold close, fs_remove, fs_rename. rewrite Hrm, Hrn.
  unfold ofstream_close. rewrite Htemp.
  destruct (_tempStream es) as [[|] buf]; cbn [is_open buffered] in *; subst written;
    cbn [_tempFile _outputDirectory _filename _tempStream fst snd];
    change (path_append (_outputDirectory es) (_filename es)) with (targetPath es).
  - destruct (fs_exists (targetPath es) (<[_tempFile es:=content +:+ buf]> files));
      cbv beta iota zeta.
    + rewrite lookup_delete_ne, lookup_insert_eq by congruence.
      cbn [fst snd _tempFile _outputDirectory _filename _tempStream is_open].
      split; [reflexivity|]. split; [apply lookup_insert_eq|].
      split; [rewrite lookup_insert_ne by congruence; apply lookup_delete_eq|].
      split; [|repeat split].
      intros other H1 H2. rewrite lookup_insert_ne by congruence.
      rewrite !lookup_delete_ne by congruence.
      now rewrite lookup_insert_ne by congruence.
    + rewrite lookup_insert_eq.
      cbn [fst snd _tempFile _outputDirectory _filename _tempStream is_open].
      split; [reflexivity|]. split; [apply lookup_insert_eq|].
      split; [rewrite lookup_insert_ne by congruence; apply lookup_delete_eq|].
      split; [|repeat split].
      intros other H1 H2. rewrite lookup_insert_ne by congruence.
      rewrite lookup_delete_ne by congruence.
      now rewrite lookup_insert_ne by congruence.
  - destruct (fs_exists (targetPath es) files); cbv beta iota zeta.
    + rewrite lookup_delete_ne, Htemp by congruence.
      cbn [fst snd _tempFile _outputDirectory _filename _tempStream is_open].
      split; [reflexivity|]. split; [apply lookup_insert_eq|].
      split; [rewrite lookup_insert_ne by congruence; apply lookup_delete_eq|].
      split; [|repeat split].
      intros other H1 H2. rewrite lookup_insert_ne by congruence.
      now rewrite !lookup_delete_ne by congruence.
    + rewrite Htemp.
      cbn [fst snd _tempFile _outputDirectory _filename _tempStream is_open].
      split; [reflexivity|]. split; [apply lookup_insert_eq|].
      split; [rewrite lookup_insert_ne by congruence; apply lookup_delete_eq|].
      split; [|repeat split].
      intros other H1 H2. rewrite lookup_insert_ne by congruence.
      now rewrite lookup_delete_ne by congruence.
Qed.

(** X21: the round trip of an export.  When the constructor succeeds, the
    target path is as it was until close() (the constructor touches the
    temporary file only, writing touches no file); and when neither remove
    nor rename fails, close() returns, the target then holds exactly what
    was written, in order, whatever it held before, the temporary file is
    gone, and no other file has changed. *)
Theorem export_round_trip (outputDirectory filename : string) (env : Faults)
  (files files1 : Files) (es : t) (datas : list string) :
  open outputDirectory filename env files = (files1, Returned es) ->
  remove_fails env = None -> rename_fails env = None ->
  let target := path_append outputDirectory filename in
  let temp := path_append outputDirectory ("_" +:+ filename) in
  let files2 := snd (fst (close (writeAll datas es) env files1)) in
  files1 !! target = files !! target
  /\ snd (close (writeAll datas es) env files1) = Returned tt
  /\ files2 !! target = Some (allOf datas)
  /\ files2 !! temp = None
  /\ (forall other : string, other <> target -> other <> temp ->
        files2 !! other = files !! other).
Proof.
  intros Hopen Hrm Hrn target temp files2.
  destruct (open_wellFormed _ _ _ _ _ _ Hopen) as (Hwf & Hcontent & Hisopen).
  assert (Hes : es = ExportStream temp (mkOfstream true "") outputDirectory filename
                /\ files1 = <[temp := ""]> files).
  { unfold open in Hopen. destruct (open_fails env); [discriminate|].
    injection Hopen as <- <-. split; reflexivity. }
  destruct Hes as [Hes Hfiles1].
  destruct (writeAll_fields datas es) as (F1 & F2 & F3 & F4 & F5).
  assert (Htemp : _tempFile es = temp) by (now rewrite Hes).
  assert (Htarget : targetPath (writeAll datas es) = target)
    by (unfold targetPath; rewrite F2, F3, Hes; reflexivity).
  assert (Hwf' : wellFormed (writeAll datas es))
    by (unfold wellFormed; rewrite F1, F2, F3; exact Hwf).
  assert (Hne : temp <> target).
  { rewrite <- Htarget, <- Htemp, <- F1. now apply tempFile_neq_target. }
  assert (Hc' : files1 !! _tempFile (writeAll datas es) = Some "")
    by (rewrite F1; exact Hcontent).
  destruct (close_commits (writeAll datas es) env files1 "" Hwf' Hc' Hrm Hrn)
    as (Hret & Ht & Htmp & Hother & _).
  rewrite F4, Hisopen, F5 in Ht. rewrite Htarget in Ht, Hother.
  rewrite F1, Htemp in Htmp, Hother.
  split; [rewrite Hfiles1; now apply lookup_insert_ne|].
  split; [exact Hret|]. subst files2.
  split; [rewrite Ht; rewrite Hes; reflexivity|].
  split; [exact Htmp|].
  intros other H1 H2. rewrite (Hother other H1 H2), Hfiles1.
  now apply lookup_insert_ne.
Qed.

Lemma export_round_trip_witness :
  snd (fst (close
              (writeAll ["LWO2"; "TAGS"]
                 (ExportStream "out/_model.lwo" (mkOfstream true "") "out"
                    "model.lwo"))
              (mkFaults false None None)
              (<["out/_model.lwo" := ""]> (<["out/model.lwo" := "old"]> ∅))))
    !! "out/model.lwo"
  = Some "LWO2TAGS".
Proof.
  apply (export_round_trip "out" "model.lwo" (mkFaults false None None)
           (<["out/model.lwo" := "old"]> ∅)
           (<["out/_model.lwo" := ""]> (<["out/model.lwo" := "old"]> ∅))
           (ExportStream "out/_model.lwo" (mkOfstream true "") "out" "model.lwo")
           ["LWO2"; "TAGS"]); reflexivity.
Defined.

(** X22: close() is not to be called twice.  After a close() that
    committed, a second close() (nothing failing in remove) finds the target,
    removes it, fails to rename the temporary file, which is no longer there,
    and throws: the committed file is lost. *)
Theorem close_twice_loses_target (es : t) (env : Faults) (files : Files)
  (content : string) :
  wellFormed es ->
  files !! _tempFile es = Some content ->
  remove_fails env = None -> rename_fails env = None ->
  let first := close es env files in
  let second := close (fst (fst first)) env (snd (fst first)) in
  snd first = Returned tt
  /\ is_Some (snd (fst first) !! targetPath es)
  /\ snd second
     = Thrown (runtime_error ("Could not rename the temporary file: "
                              +:+ _tempFile es))
  /\ snd (fst second) !! targetPath es = None
  /\ snd (fst second) !! _tempFile es = None.
Proof.
  intros Hwf Htemp Hrm Hrn first second.
  destruct (close_commits es env files content Hwf Htemp Hrm Hrn)
    as (Hret & Ht & Htmp & _ & E1 & E2 & E3 & E4).
  fold first in Hret, Ht, Htmp, E1, E2, E3, E4.
  pose proof (tempFile_neq_target es Hwf) as Hne.
  split; [exact Hret|]. split; [eauto|].
  subst second. destruct first as [[es1 files1] r1]. cbn [fst snd] in *.
  unfold close, ofstream_close, fs_remove, fs_rename.
  rewrite E4, Hrm, Hrn.
  cbn [_tempFile _outputDirectory _filename _tempStream fst snd].
  rewrite E1, E2, E3.
  change (path_append (_outputDirectory es) (_filename es)) with (targetPath es).
  rewrite (fs_exists_Some _ _ _ Ht). cbv beta iota zeta.
  rewrite lookup_delete_ne, Htmp by congruence. cbn [fst snd].
  split; [reflexivity|]. split; [apply lookup_delete_eq|].
  now rewrite lookup_delete_ne by congruence.
Qed.

Lemma close_twice_loses_target_witness :
  snd (fst (close
              (fst (fst (close sampleStream (mkFaults false None None)
                           sampleFiles)))
              (mkFaults false None None)
              (snd (fst (close sampleStream (mkFaults false None None)
                           sampleFiles)))))
    !! "out/model.lwo"
  = None.
Proof.
  apply (close_twice_loses_target sampleStream (mkFaults false None None)
           sampleFiles ""); reflexivity.
Defined.

End ExportStreamLife.

(* ===================================================================== *)
(** * The endian-aware writers *)
(* ===================================================================== *)

Module EndianFacts.
Import Endian.

Lemma bigEndianBytes_length (size : nat) (value : Z) :
  length (bigEndianBytes size value) = size.
Proof.
  revert value. induction size as [|size IH]; intros value; [reflexivity|].
  cbn [bigEndianBytes]. rewrite length_app, IH. cbn. lia.
Qed.

Lemma readBigEndian_app (bytes : list Z) (byte : Z) :
  readBigEndian (bytes ++ [byte]) = (readBigEndian bytes * 256 + byte)%Z.
Proof. unfold readBigEndian. now rewrite fold_left_app. Qed.

Lemma readBigEndian_bigEndianBytes (size : nat) (value : Z) :
  readBigEndian (bigEndianBytes size value) = (value mod 256 ^ Z.of_nat size)%Z.
Proof.
  revert value. induction size as [|size IH]; intros value.
  - cbn. now rewrite Z.mod_1_r.
  - cbn [bigEndianBytes]. rewrite readBigEndian_app, IH.
    rewrite Nat2Z.inj_succ, Z.pow_succ_r by lia.
    rewrite Z.rem_mul_r by lia. lia.
Qed.

(** X23: on a host where __BIG_ENDIAN__ is defined exactly when the memory
    is big-endian, writeBigEndian appends to the stream the sizeof(value)
    bytes of the value, most significant first, and writeLittleEndian the
    same bytes in reverse order, whatever the host; reading the bytes
    writeBigEndian wrote, most significant first, gives the value back
    (modulo 256^size). *)
Theorem writeBigEndian_host_independent (hostIsBigEndian : bool)
  (stream : list Z) (size : nat) (value : Z) :
  let output := objectRepresentation hostIsBigEndian size value in
  writeBigEndian hostIsBigEndian stream output
  = stream ++ bigEndianBytes size value
  /\ writeLittleEndian hostIsBigEndian stream output
     = stream ++ rev (bigEndianBytes size value)
  /\ length (writeBigEndian hostIsBigEndian stream output)
     = (length stream + size)%nat
  /\ length (writeLittleEndian hostIsBigEndian stream output)
     = (length stream + size)%nat
  /\ readBigEndian (skipn (length stream)
                      (writeBigEndian hostIsBigEndian stream output))
     = (value mod 256 ^ Z.of_nat size)%Z.
Proof.
  intros output. subst output.
  assert (E1 : writeBigEndian hostIsBigEndian stream
                 (objectRepresentation hostIsBigEndian size value)
               = stream ++ bigEndianBytes size value).
  { unfold writeBigEndian, objectRepresentation.
    destruct hostIsBigEndian; [reflexivity|now rewrite rev_involutive]. }
  assert (E2 : writeLittleEndian hostIsBigEndian stream
                 (objectRepresentation hostIsBigEndian size value)
               = stream ++ rev (bigEndianBytes size value)).
  { unfold writeLittleEndian, objectRepresentation.
    destruct hostIsBigEndian; reflexivity. }
  rewrite E1, E2.
  rewrite !length_app, length_rev, bigEndianBytes_length.
  repeat split.
  rewrite drop_app_length. apply readBigEndian_bigEndianBytes.
Qed.

Example writeBigEndian_u32 :
  writeBigEndian false [] (objectRepresentation false 4 305419896)
  = [18; 52; 86; 120]%Z.
Proof. reflexivity. Qed.

End EndianFacts.

(* ===================================================================== *)
(** * Bounding boxes *)
(* ===================================================================== *)

Module AABBFacts.
Import Vector3 AABB.
Local Open Scope R_scope.

Ltac rabs :=
  unfold Rabs in *;
  repeat match goal with
  | |- context [Rcase_abs ?a] => destruct (Rcase_abs a)
  | H : context [Rcase_abs ?a] |- _ => destruct (Rcase_abs a)
  end.

Lemma includePointAxis_spec (o e p : R) :
  0 <= e ->
  let o' := fst (includePointAxis o e p) in
  let e' := snd (includePointAxis o e p) in
  Rabs (p - o') <= e'
  /\ e <= e'
  /\ (forall q : R, Rabs (q - o) <= e -> Rabs (q - o') <= e')
  /\ (Rabs (p - o) <= e -> o' = o /\ e' = e).
Proof.
  intros He o' e'. subst o' e'. unfold includePointAxis.
  destruct (Rlt_dec 0 (1 / 2 * (Rabs (p - o) - e))) as [H|H];
    [destruct (Rlt_dec 0 (p - o)) as [D|D]|]; cbn [fst snd].
  - repeat split; try (intros; rabs; lra); rabs; lra.
  - repeat split; try (intros; rabs; lra); rabs; lra.
  - repeat split; try (intros; rabs; lra); rabs; lra.
Qed.

(** X24: includePoint.  A box that is not valid becomes the point itself,
    with zero extents.  A valid box with non-negative extents afterwards
    contains the point and every point it contained before, its extents do
    not shrink, and it is unchanged when it contained the point already. *)
Theorem includePoint_contains (isValid : AABB.t -> bool) (box : AABB.t)
  (point : Vector3.t) :
  (isValid box = false ->
   includePoint isValid box point = AABB point (Vector3 0 0 0))
  /\ (isValid box = true -> nonNegative box ->
      contains (includePoint isValid box point) point
      /\ nonNegative (includePoint isValid box point)
      /\ (forall q : Vector3.t,
            contains box q -> contains (includePoint isValid box point) q)
      /\ (contains box point -> includePoint isValid box point = box)).
Proof.
  split; unfold includePoint; intros Hv; rewrite Hv; cbn [negb];
    [reflexivity|].
  intros (Ex & Ey & Ez).
  destruct box as [[ox oy oz] [ex ey ez]], point as [px py pz].
  cbn [origin extents x y z] in *.
  destruct (includePointAxis_spec ox ex px Ex) as (X1 & X2 & X3 & X4).
  destruct (includePointAxis_spec oy ey py Ey) as (Y1 & Y2 & Y3 & Y4).
  destruct (includePointAxis_spec oz ez pz Ez) as (Z1 & Z2 & Z3 & Z4).
  unfold contains, nonNegative. cbn [origin extents x y z].
  split; [auto|]. split; [repeat split; lra|]. split.
  - intros [qx qy qz] (Q1 & Q2 & Q3). cbn [x y z] in *. auto.
  - intros (P1 & P2 & P3).
    destruct (X4 P1) as [-> ->], (Y4 P2) as [-> ->], (Z4 P3) as [-> ->].
    reflexivity.
Qed.

Lemma includePoint_contains_witness :
  contains
    (includePoint (fun _ => true) (AABB (Vector3 0 0 0) (Vector3 1 1 1))
       (Vector3 3 0 0))
    (Vector3 3 0 0).
Proof.
  assert (Hn : nonNegative (AABB (Vector3 0 0 0) (Vector3 1 1 1)))
    by (unfold nonNegative; cbn; lra).
  exact (proj1 (proj2 (includePoint_contains (fun _ => true)
                         (AABB (Vector3 0 0 0) (Vector3 1 1 1))
                         (Vector3 3 0 0)) eq_refl Hn)).
Defined.

Lemma includeAABBAxis_spec (o e oo oe : R) :
  0 <= e -> 0 <= oe ->
  let o' := fst (includeAABBAxis o e oo oe) in
  let e' := snd (includeAABBAxis o e oo oe) in
  (forall q : R, Rabs (q - o) <= e -> Rabs (q - o') <= e')
  /\ (forall q : R, Rabs (q - oo) <= oe -> Rabs (q - o') <= e')
  /\ 0 <= e'
  /\ (o' - e' = Rmin (o - e) (oo - oe) /\ o' + e' = Rmax (o + e) (oo + oe)).
Proof.
  intros He Hoe o' e'. subst o' e'. unfold includeAABBAxis.
  destruct (Rlt_dec (Rabs (oe - e)) (Rabs (oo - o))) as [H|H].
  - destruct (Rlt_dec 0 (1 / 2 * (Rabs (oo - o) + (oe - e)))) as [G|G];
      [destruct (Rle_dec 0 (oo - o)) as [D|D]|]; cbn [fst snd];
      unfold Rmin, Rmax;
      repeat match goal with |- context [Rle_dec ?a ?b] => destruct (Rle_dec a b) end;
      repeat split; try (intros; rabs; lra); rabs; lra.
  - destruct (Rlt_dec 0 (oe - e)) as [G|G]; cbn [fst snd];
      unfold Rmin, Rmax;
      repeat match goal with |- context [Rle_dec ?a ?b] => destruct (Rle_dec a b) end;
      repeat split; try (intros; rabs; lra); rabs; lra.
Qed.

(** X25: includeAABB, over exact arithmetic (without rounding; isValid is
    a parameter).  When the other box is not valid the box is
    unchanged; when only the other box is valid the box becomes the other
    box; when both are valid, with non-negative extents, the box afterwards
    contains every point of either box, and on each axis it spans exactly
    from the smaller of the two lower ends to the larger of the two upper
    ends. *)
Theorem includeAABB_union (isValid : AABB.t -> bool) (box other : AABB.t) :
  (isValid other = false -> includeAABB isValid box other = box)
  /\ (isValid box = false -> isValid other = true ->
      includeAABB isValid box other = other)
  /\ (isValid box = true -> isValid other = true ->
      nonNegative box -> nonNegative other ->
      let result := includeAABB isValid box other in
      (forall q : Vector3.t, contains box q -> contains result q)
      /\ (forall q : Vector3.t, contains other q -> contains result q)
      /\ nonNegative result
      /\ x (origin result) - x (extents result)
         = Rmin (x (origin box) - x (extents box))
                (x (origin other) - x (extents other))
      /\ x (origin result) + x (extents result)
         = Rmax (x (origin box) + x (extents box))
                (x (origin other) + x (extents other))
      /\ y (origin result) - y (extents result)
         = Rmin (y (origin box) - y (extents box))
                (y (origin other) - y (extents other))
      /\ y (origin result) + y (extents result)
         = Rmax (y (origin box) + y (extents box))
                (y (origin other) + y (extents other))
      /\ z (origin result) - z (extents result)
         = Rmin (z (origin box) - z (extents box))
                (z (origin other) - z (extents other))
      /\ z (origin result) + z (extents result)
         = Rmax (z (origin box) + z (extents box))
                (z (origin other) + z (extents other))).
Proof.
  unfold includeAABB. split; [|split].
  - intros ->. now rewrite andb_false_r.
  - intros -> ->. cbn. now destruct other.
  - intros -> -> (Ex & Ey & Ez) (Fx & Fy & Fz). cbn [andb].
    destruct box as [[ox oy oz] [ex ey ez]], other as [[px py pz] [fx fy fz]].
    cbn [origin extents x y z] in *.
    destruct (includeAABBAxis_spec ox ex px fx Ex Fx) as (X1 & X2 & X3 & X4 & X5).
    destruct (includeAABBAxis_spec oy ey py fy Ey Fy) as (Y1 & Y2 & Y3 & Y4 & Y5).
    destruct (includeAABBAxis_spec oz ez pz fz Ez Fz) as (Z1 & Z2 & Z3 & Z4 & Z5).
    cbv zeta. unfold contains, nonNegative. cbn [origin extents x y z].
    split; [intros [qx qy qz] (Q1 & Q2 & Q3); cbn [x y z] in *; auto|].
    split; [intros [qx qy qz] (Q1 & Q2 & Q3); cbn [x y z] in *; auto|].
    split; [auto|]. repeat split; assumption.
Qed.

Lemma includeAABB_union_witness :
  contains
    (includeAABB (fun _ => true) (AABB (Vector3 0 0 0) (Vector3 1 1 1))
       (AABB (Vector3 3 0 0) (Vector3 1 1 1)))
    (Vector3 4 0 0).
Proof.
  assert (Hn : nonNegative (AABB (Vector3 0 0 0) (Vector3 1 1 1)))
    by (unfold nonNegative; cbn; lra).
  assert (Ho : nonNegative (AABB (Vector3 3 0 0) (Vector3 1 1 1)))
    by (unfold nonNegative; cbn; lra).
  assert (Hc : contains (AABB (Vector3 3 0 0) (Vector3 1 1 1)) (Vector3 4 0 0))
    by (unfold contains; cbn; rabs; lra).
  exact (proj1 (proj2 (proj2 (proj2 (includeAABB_union (fun _ => true)
                         (AABB (Vector3 0 0 0) (Vector3 1 1 1))
                         (AABB (Vector3 3 0 0) (Vector3 1 1 1))))
                         eq_refl eq_refl Hn Ho)) _ Hc).
Defined.

Lemma Rabs_sum3 (a b c d e f u v w : R) :
  Rabs u <= d -> Rabs v <= e -> Rabs w <= f ->
  Rabs (a * u + b * v + c * w) <= Rabs (a * d) + Rabs (b * e) + Rabs (c * f).
Proof.
  intros Hu Hv Hw.
  assert (Hd : 0 <= d) by (pose proof (Rabs_pos u); lra).
  assert (He : 0 <= e) by (pose proof (Rabs_pos v); lra).
  assert (Hf : 0 <= f) by (pose proof (Rabs_pos w); lra).
  rewrite (Rabs_mult a d), (Rabs_mult b e), (Rabs_mult c f).
  rewrite (Rabs_pos_eq d), (Rabs_pos_eq e), (Rabs_pos_eq f) by assumption.
  eapply Rle_trans; [apply Rabs_triang|].
  eapply Rle_trans; [apply Rplus_le_compat_r, Rabs_triang|].
  rewrite !Rabs_mult.
  pose proof (Rabs_pos a). pose proof (Rabs_pos b). pose proof (Rabs_pos c).
  pose proof (Rabs_pos u). pose proof (Rabs_pos v). pose proof (Rabs_pos w).
  nra.
Qed.

(** X26: createFromOrientedAABB bounds the transformed box: every point of
    the box, transformed, lies in the axis-aligned box it returns, whose
    centre is the transformed centre. *)
Theorem createFromOrientedAABB_bounds (aabb : AABB.t) (transform : Matrix4.t)
  (q : Vector3.t) :
  contains aabb q ->
  contains (createFromOrientedAABB aabb transform)
    (Matrix4.transformPoint transform q)
  /\ origin (createFromOrientedAABB aabb transform)
     = Matrix4.transformPoint transform (origin aabb).
Proof.
  intros (Q1 & Q2 & Q3). split; [|reflexivity].
  destruct aabb as [[ox oy oz] [ex ey ez]], q as [qx qy qz], transform.
  unfold contains, createFromOrientedAABB, Matrix4.transformPoint, Matrix4._m,
    at_ in *.
  cbn [origin extents x y z Matrix4.xx Matrix4.xy Matrix4.xz Matrix4.yx
       Matrix4.yy Matrix4.yz Matrix4.zx Matrix4.zy Matrix4.zz Matrix4.tx
       Matrix4.ty Matrix4.tz] in *.
  repeat split.
  - replace (xx * qx + yx * qy + zx * qz + tx - (xx * ox + yx * oy + zx * oz + tx))
      with (xx * (qx - ox) + yx * (qy - oy) + zx * (qz - oz)) by ring.
    now apply Rabs_sum3.
  - replace (xy * qx + yy * qy + zy * qz + ty - (xy * ox + yy * oy + zy * oz + ty))
      with (xy * (qx - ox) + yy * (qy - oy) + zy * (qz - oz)) by ring.
    now apply Rabs_sum3.
  - replace (xz * qx + yz * qy + zz * qz + tz - (xz * ox + yz * oy + zz * oz + tz))
      with (xz * (qx - ox) + yz * (qy - oy) + zz * (qz - oz)) by ring.
    now apply Rabs_sum3.
Qed.

Lemma createFromOrientedAABB_bounds_witness :
  contains
    (createFromOrientedAABB (AABB (Vector3 0 0 0) (Vector3 1 1 1))
       (Matrix4.getScale (Vector3 2 1 1)))
    (Matrix4.transformPoint (Matrix4.getScale (Vector3 2 1 1)) (Vector3 1 1 1)).
Proof.
  apply (createFromOrientedAABB_bounds (AABB (Vector3 0 0 0) (Vector3 1 1 1))
           (Matrix4.getScale (Vector3 2 1 1)) (Vector3 1 1 1)).
  unfold contains; cbn. rabs; lra.
Defined.

End AABBFacts.

(* ===================================================================== *)
(** * From the scene to the exporter *)
(* ===================================================================== *)

Module FbxToLwoFacts.
Import FbxToLwo.
Import FbxSurfaceFacts FbxSurfaceRoundTrip ModelExporterBaseFacts PipelineFacts
  ExporterLaws.

Lemma allSlots_alter (P : FbxSurface.t -> Prop) (f : FbxSurface.t -> FbxSurface.t)
  (i : nat) (l : list FbxSurface.t) :
  (forall s, P s -> P (f s)) -> allSlots P l -> allSlots P (alter f i l).
Proof.
  intros Hf Hl m s. destruct (decide (i = m)) as [<-|Hne].
  - rewrite list_lookup_alter_eq. destruct (l !! i) as [s0|] eqn:E; [|discriminate].
    intros [= <-]. apply Hf. exact (Hl _ _ E).
  - rewrite list_lookup_alter_ne by exact Hne. apply Hl.
Qed.

Lemma wellBuilt_empty : wellBuilt FbxSurface.empty.
Proof. split; [apply consistent_empty|split; [constructor|reflexivity]]. Qed.

Lemma wellBuilt_setMaterial (name : string) (s : FbxSurface.t) :
  wellBuilt s -> wellBuilt (FbxSurface.setMaterial name s).
Proof. intros H. exact H. Qed.

Lemma addVertex_indices_length (v : ArbitraryMeshVertex.t) (s : FbxSurface.t) :
  length (FbxSurface.indices (FbxSurface.addVertex v s))
  = S (length (FbxSurface.indices s)).
Proof.
  destruct (addVertex_extends v s) as ((idx & Hi) & _).
  rewrite Hi, length_app. cbn. lia.
Qed.

Lemma wellBuilt_three (a b c : ArbitraryMeshVertex.t) (s : FbxSurface.t) :
  wellBuilt s ->
  wellBuilt (FbxSurface.addVertex c (FbxSurface.addVertex b (FbxSurface.addVertex a s))).
Proof.
  intros (Hc & Hi & Hm). split; [|split].
  - now repeat apply addVertex_consistent.
  - repeat apply addVertex_indicesValid; try assumption;
      repeat apply addVertex_consistent; assumption.
  - rewrite !addVertex_indices_length.
    replace (S (S (S (length (FbxSurface.indices s)))))
      with (length (FbxSurface.indices s) + 1 * 3)%nat by lia.
    now rewrite Nat.Div0.mod_add.
Qed.

Lemma addTriangle_alter (geometry : Geometry) (i : nat)
  (l : list FbxSurface.t) :
  addTriangle geometry i l
  = alter (fun s =>
             FbxSurface.addVertex (ConstructMeshVertex geometry (indexC geometry i))
               (FbxSurface.addVertex (ConstructMeshVertex geometry (indexB geometry i))
                  (FbxSurface.addVertex
                     (ConstructMeshVertex geometry (indexA geometry i)) s)))
      (Z.to_nat (materialIndexAt geometry i)) l.
Proof. unfold addTriangle. now rewrite !list_alter_alter_eq. Qed.

Lemma triangleLoop_allSlots (P : FbxSurface.t -> Prop) (fuel : nat)
  (geometry : Geometry) (i : nat) (l : list FbxSurface.t) :
  (forall a b c s, P s ->
     P (FbxSurface.addVertex c (FbxSurface.addVertex b (FbxSurface.addVertex a s)))) ->
  allSlots P l -> allSlots P (triangleLoop fuel geometry i l).
Proof.
  intros HP. revert i l. induction fuel as [|fuel IH]; intros i l Hl; [exact Hl|].
  cbn [triangleLoop]. destruct (i <? getIndexCount geometry)%nat; [|exact Hl].
  apply IH. rewrite addTriangle_alter. apply allSlots_alter; [|exact Hl].
  intros s Hs. now apply HP.
Qed.

Lemma nameSurfaces_allSlots (P : FbxSurface.t -> Prop) (names : list string)
  (l : list FbxSurface.t) :
  (forall name s, P s -> P (FbxSurface.setMaterial name s)) ->
  allSlots P l -> allSlots P (nameSurfaces names l).
Proof.
  intros HP. unfold nameSurfaces. generalize (seq 0 (length names)).
  intros ms. revert l. induction ms as [|m ms IH]; intros l Hl; [exact Hl|].
  cbn [fold_left]. apply IH, allSlots_alter; [|exact Hl].
  intros s Hs. now apply HP.
Qed.

Lemma initialSurfaces_allSlots (P : FbxSurface.t -> Prop) (mesh : Mesh) :
  P FbxSurface.empty ->
  (forall name s, P s -> P (FbxSurface.setMaterial name s)) ->
  allSlots P (initialSurfaces mesh).
Proof.
  intros H0 HP. unfold initialSurfaces. apply nameSurfaces_allSlots; [exact HP|].
  intros m s Hs. apply list_elem_of_lookup_2 in Hs.
  destruct (getMaterialCount mesh =? 0)%nat.
  - apply elem_of_app in Hs as [Hs|Hs].
    + apply list_elem_of_In, repeat_spec in Hs as ->. exact H0.
    + apply list_elem_of_singleton in Hs as ->. now apply HP.
  - apply list_elem_of_In, repeat_spec in Hs as ->. exact H0.
Qed.

Lemma surfacesOfMesh_wellBuilt (mesh : Mesh) :
  allSlots wellBuilt (surfacesOfMesh mesh).
Proof.
  unfold surfacesOfMesh. apply triangleLoop_allSlots.
  - intros a b c s. apply wellBuilt_three.
  - apply initialSurfaces_allSlots;
      [apply wellBuilt_empty|apply wellBuilt_setMaterial].
Qed.

Lemma addSurfaces_reachable (l : list FbxSurface.t) (T : Matrix4.t)
  (st : ModelExporterBase.Surfaces) :
  allSlots FbxSurface.indicesValid l ->
  ModelExporterBase.reachableByCalls st ->
  ModelExporterBase.reachableByCalls (fst (ModelExporterBase.addSurfaces l T st)).
Proof.
  revert st. induction l as [|s l IH]; intros st Hl Hr; [exact Hr|].
  cbn [ModelExporterBase.addSurfaces].
  assert (Hs : FbxSurface.indicesValid s) by (apply (Hl 0%nat); reflexivity).
  pose proof (ModelExporterBase.reachableByCalls_addSurface st s T Hr Hs) as Hstep.
  destruct (ModelExporterBase.addSurface s T st) as [st' [[]|e]]; cbn [fst] in *.
  - apply IH; [|exact Hstep]. intros m s' Hm. exact (Hl (S m) s' Hm).
  - exact Hstep.
Qed.

Lemma exportMeshes_reachable (d2r : R -> R) (upY : bool) (meshes : list Mesh)
  (st : ModelExporterBase.Surfaces) :
  ModelExporterBase.reachableByCalls st ->
  ModelExporterBase.reachableByCalls (fst (exportMeshes d2r upY meshes st)).
Proof.
  revert st. induction meshes as [|mesh meshes IH]; intros st Hr; [exact Hr|].
  cbn [exportMeshes].
  assert (Hstep : ModelExporterBase.reachableByCalls
                    (fst (exportMesh d2r upY mesh st))).
  { unfold exportMesh. apply addSurfaces_reachable; [|exact Hr].
    intros m s Hs. exact (proj1 (proj2 (surfacesOfMesh_wellBuilt mesh m s Hs))). }
  destruct (exportMesh d2r upY mesh st) as [st' [[]|e]]; cbn [fst] in *.
  - now apply IH.
  - exact Hstep.
Qed.

(** X27: ExportFbxMesh feeds the exporter well.  Every surface it builds
    for a mesh has a vertex index that agrees with its vertex array, indices
    that address vertices, and an index count that is a multiple of 3,
    whatever the scene holds.  So, started on an exporter reached by such
    calls (a fresh one, for instance), it leaves a map, whether it returns or
    throws, in which every Surface carries the name it is stored under, has
    all indices below the length of its vertex array and an index count
    that is a multiple of 3. *)
Theorem ExportFbxMesh_invariant (degrees_to_radians : R -> R) (scene : Scene)
  (exporter : ModelExporterBase.Surfaces) :
  ModelExporterBase.reachableByCalls exporter ->
  (forall (mesh : Mesh) (m : nat) (s : FbxSurface.t),
     surfacesOfMesh mesh !! m = Some s ->
     FbxSurface.consistent s /\ FbxSurface.indicesValid s
     /\ (length (FbxSurface.indices s) mod 3 = 0)%nat)
  /\ (forall (name : string) (s : ModelExporterBase.Surface),
        fst (ExportFbxMesh degrees_to_radians scene exporter) !! name = Some s ->
        ModelExporterBase.materialName s = name
        /\ Forall (fun idx =>
                     (0 <= idx < Z.of_nat (length (ModelExporterBase.vertices s)))%Z)
             (ModelExporterBase.indices s)
        /\ (length (ModelExporterBase.indices s) mod 3 = 0)%nat).
Proof.
  intros Hr. split.
  - intros mesh m s Hs. exact (surfacesOfMesh_wellBuilt mesh m s Hs).
  - intros name s Hs.
    apply (reachableByCalls_inv
             (fst (ExportFbxMesh degrees_to_radians scene exporter)) name s);
      [|exact Hs].
    unfold ExportFbxMesh. now apply exportMeshes_reachable.
Qed.

Lemma sampleMesh_surfaces :
  surfacesOfMesh sampleMesh
  = [FbxSurface.addVertex (ConstructMeshVertex (getGeometry sampleMesh) 0)
       (FbxSurface.addVertex (ConstructMeshVertex (getGeometry sampleMesh) 1)
          (FbxSurface.addVertex (ConstructMeshVertex (getGeometry sampleMesh) 2)
             (FbxSurface.setMaterial "Stone" FbxSurface.empty)))].
Proof. reflexivity. Qed.

(** The one surface of [sampleMesh]: the corners are added last corner
    first, and no two of them are equal. *)
Lemma sampleMesh_slot :
  FbxSurface.addVertices
    [ArbitraryMeshVertex.ofPosition 0 1 0; ArbitraryMeshVertex.ofPosition 1 0 0;
     ArbitraryMeshVertex.ofPosition 0 0 0]
    (FbxSurface.setMaterial "Stone" FbxSurface.empty)
  = {| FbxSurface.indices := [0; 1; 2]%Z;
       FbxSurface.vertices :=
         [ArbitraryMeshVertex.ofPosition 0 1 0;
          ArbitraryMeshVertex.ofPosition 1 0 0;
          ArbitraryMeshVertex.ofPosition 0 0 0];
       FbxSurface.material := "Stone";
       FbxSurface.vertexIndices :=
         [(ArbitraryMeshVertex.ofPosition 0 1 0, 0%nat);
          (ArbitraryMeshVertex.ofPosition 1 0 0, 1%nat);
          (ArbitraryMeshVertex.ofPosition 0 0 0, 2%nat)] |}.
Proof.
  unfold ArbitraryMeshVertex.ofPosition.
  rewrite addVertices_cons, addVertex_new by reflexivity.
  cbn [FbxSurface.setMaterial FbxSurface.empty FbxSurface.indices
       FbxSurface.vertices FbxSurface.material FbxSurface.vertexIndices
       app length].
  rewrite addVertices_cons, addVertex_new by (cbn; vertex_cases; reflexivity).
  cbn [FbxSurface.indices FbxSurface.vertices FbxSurface.material
       FbxSurface.vertexIndices app length].
  rewrite addVertices_cons, addVertex_new by (cbn; vertex_cases; reflexivity).
  cbn [FbxSurface.indices FbxSurface.vertices FbxSurface.material
       FbxSurface.vertexIndices app length].
  reflexivity.
Qed.

Lemma ExportFbxMesh_invariant_witness :
  exists after : ModelExporterBase.Surface,
    fst (ExportFbxMesh (fun d => (d * PI / 180)%R)
           (mkScene [sampleMesh] false)
           (fst (ModelExporterBase.addSurface (FbxSurface.triangle "Stone")
                   Matrix4.getIdentity ∅))) !! "Stone" = Some after
    /\ length (ModelExporterBase.vertices after) = 6%nat
    /\ length (ModelExporterBase.indices after) = 6%nat
    /\ ModelExporterBase.materialName after = "Stone"
    /\ Forall (fun idx =>
                 (0 <= idx
                  < Z.of_nat (length (ModelExporterBase.vertices after)))%Z)
         (ModelExporterBase.indices after)
    /\ (length (ModelExporterBase.indices after) mod 3 = 0)%nat.
Proof.
  set (start := fst (ModelExporterBase.addSurface (FbxSurface.triangle "Stone")
                       Matrix4.getIdentity ∅)).
  set (slot := FbxSurface.addVertices
                 [ArbitraryMeshVertex.ofPosition 0 1 0;
                  ArbitraryMeshVertex.ofPosition 1 0 0;
                  ArbitraryMeshVertex.ofPosition 0 0 0]
                 (FbxSurface.setMaterial "Stone" FbxSurface.empty)).
  assert (Hr : ModelExporterBase.reachableByCalls start).
  { apply ModelExporterBase.reachableByCalls_addSurface;
      [apply ModelExporterBase.reachableByCalls_empty
      |apply triangle_indicesValid]. }
  assert (Hslot : surfacesOfMesh sampleMesh = [slot]) by reflexivity.
  assert (Hname : FbxSurface.getActiveMaterial slot = "Stone")
    by (unfold slot; now rewrite sampleMesh_slot).
  assert (Hlen : length (FbxSurface.getIndexArray slot) = 3%nat)
    by (unfold slot; now rewrite sampleMesh_slot).
  assert (Hvlen : length (FbxSurface.getVertexArray slot) = 3%nat)
    by (unfold slot; now rewrite sampleMesh_slot).
  assert (Hacc : (3 <= length (FbxSurface.getIndexArray slot))%nat) by lia.
  assert (Hstart : start !! "Stone"
                   = Some (ModelExporterBase.aggregated
                             (FbxSurface.triangle "Stone") Matrix4.getIdentity
                             (ModelExporterBase.mkSurface "Stone" [] []))).
  { unfold start.
    assert (H3 : (3 <= length (FbxSurface.getIndexArray
                                 (FbxSurface.triangle "Stone")))%nat)
      by (rewrite triangle_eq; cbn; lia).
    pose proof (addSurface_accepted_lookup (FbxSurface.triangle "Stone")
                  Matrix4.getIdentity ∅ H3) as H.
    rewrite surfaceOf_new in H by apply lookup_empty.
    replace (FbxSurface.getActiveMaterial (FbxSurface.triangle "Stone"))
      with "Stone" in H by (now rewrite triangle_eq).
    exact H. }
  assert (Hafter : fst (ExportFbxMesh (fun d => (d * PI / 180)%R)
                          (mkScene [sampleMesh] false) start) !! "Stone"
                   = Some (ModelExporterBase.aggregated slot
                             (sceneTransform (fun d => (d * PI / 180)%R) false)
                             (ModelExporterBase.surfaceOf "Stone" start))).
  { unfold ExportFbxMesh.
    cbn [getMeshes upAxisIsY exportMeshes]. unfold exportMesh.
    rewrite Hslot. cbn [ModelExporterBase.addSurfaces].
    rewrite (addSurface_accepted slot _ start Hacc).
    cbn [fst]. rewrite Hname. apply lookup_insert_eq. }
  destruct (proj2 (ExportFbxMesh_invariant (fun d => (d * PI / 180)%R)
                     (mkScene [sampleMesh] false) start Hr)
              "Stone" _ Hafter) as (Hm & Hv & H3).
  eexists. split; [exact Hafter|].
  split; [|split; [|split; [exact Hm|split; [exact Hv|exact H3]]]].
  - cbn [ModelExporterBase.aggregated ModelExporterBase.vertices].
    rewrite length_app, length_map, Hvlen.
    rewrite (surfaceOf_existing _ _ _ Hstart), aggregated_triangle_identity.
    reflexivity.
  - cbn [ModelExporterBase.aggregated ModelExporterBase.indices].
    rewrite length_app, reversedTriangles_length, Hlen.
    rewrite (surfaceOf_existing _ _ _ Hstart), aggregated_triangle_identity.
    reflexivity.
Defined.

(** *** Surfaces without triangles *)

Lemma addSurfaces_throws (l : list FbxSurface.t) (T : Matrix4.t)
  (st : ModelExporterBase.Surfaces) (m : nat) (s : FbxSurface.t) :
  l !! m = Some s ->
  (length (FbxSurface.getIndexArray s) < 3)%nat ->
  snd (ModelExporterBase.addSurfaces l T st)
  = Thrown ModelExporterBase.InvalidGeometry.
Proof.
  revert st m. induction l as [|s0 l IH]; intros st m Hm Hs; [discriminate|].
  cbn [ModelExporterBase.addSurfaces].
  destruct (addSurface_cases s0 T st) as [[Hshort Hres]|[Hacc Hres]];
    destruct (ModelExporterBase.addSurface s0 T st) as [st' r];
    cbn [snd] in Hres; subst r; [reflexivity|].
  destruct m as [|m]; cbn in Hm.
  - injection Hm as ->. lia.
  - exact (IH st' m Hm Hs).
Qed.

Lemma initialSurfaces_length (mesh : Mesh) :
  length (initialSurfaces mesh) = Nat.max 1 (getMaterialCount mesh).
Proof.
  unfold initialSurfaces, nameSurfaces.
  assert (H : forall ms (l : list FbxSurface.t),
            length (fold_left
                      (fun acc m =>
                         alter (FbxSurface.setMaterial
                                  (nth m (getMaterialNames mesh) "")) m acc)
                      ms l) = length l).
  { induction ms as [|m ms IH]; intros l; [reflexivity|].
    cbn [fold_left]. now rewrite IH, length_alter. }
  rewrite H. destruct (getMaterialCount mesh) as [|n] eqn:E; cbn.
  - reflexivity.
  - rewrite repeat_length. lia.
Qed.

Lemma initialSurfaces_noIndices (mesh : Mesh) :
  allSlots noIndices (initialSurfaces mesh).
Proof. apply initialSurfaces_allSlots; [reflexivity|intros name s H; exact H]. Qed.

(** A slot no triangle names is as it was before the loop. *)
Lemma triangleLoop_untouched (fuel : nat) (geometry : Geometry) (i m : nat)
  (l : list FbxSurface.t) :
  (i mod 3 = 0)%nat ->
  (forall j : nat, (j < getIndexCount geometry)%nat -> (j mod 3 = 0)%nat ->
     Z.to_nat (materialIndexAt geometry j) <> m) ->
  triangleLoop fuel geometry i l !! m = l !! m.
Proof.
  intros Hi Hm. revert i l Hi. induction fuel as [|fuel IH]; intros i l Hi;
    [reflexivity|].
  cbn [triangleLoop].
  destruct (i <? getIndexCount geometry)%nat eqn:E; [|reflexivity].
  apply Nat.ltb_lt in E. rewrite IH.
  - rewrite addTriangle_alter. apply list_lookup_alter_ne. now apply Hm.
  - replace (i + 3)%nat with (i + 1 * 3)%nat by lia.
    now rewrite Nat.Div0.mod_add.
Qed.

(** X28: a material without triangles stops the export.  When a mesh has a
    surface slot (one per material, or the single slot "Material") that no
    triangle names, exporting the mesh throws the error of the rejected
    index buffer; so does a mesh without face indices, and so does a mesh
    of two or more materials without a per-triangle material array (all its
    triangles go to the first material). *)
Theorem exportMesh_unused_material_throws (degrees_to_radians : R -> R)
  (UpAxisIsY : bool) (mesh : Mesh) (exporter : ModelExporterBase.Surfaces) :
  (forall m : nat,
     (m < Nat.max 1 (getMaterialCount mesh))%nat ->
     (forall j : nat,
        (j < getIndexCount (getGeometry mesh))%nat -> (j mod 3 = 0)%nat ->
        Z.to_nat (materialIndexAt (getGeometry mesh) j) <> m) ->
     snd (exportMesh degrees_to_radians UpAxisIsY mesh exporter)
     = Thrown ModelExporterBase.InvalidGeometry)
  /\ (getFaceIndices (getGeometry mesh) = [] ->
      snd (exportMesh degrees_to_radians UpAxisIsY mesh exporter)
      = Thrown ModelExporterBase.InvalidGeometry)
  /\ (getMaterials (getGeometry mesh) = None ->
      (2 <= getMaterialCount mesh)%nat ->
      snd (exportMesh degrees_to_radians UpAxisIsY mesh exporter)
      = Thrown ModelExporterBase.InvalidGeometry).
Proof.
  assert (General : forall m : nat,
     (m < Nat.max 1 (getMaterialCount mesh))%nat ->
     (forall j : nat,
        (j < getIndexCount (getGeometry mesh))%nat -> (j mod 3 = 0)%nat ->
        Z.to_nat (materialIndexAt (getGeometry mesh) j) <> m) ->
     snd (exportMesh degrees_to_radians UpAxisIsY mesh exporter)
     = Thrown ModelExporterBase.InvalidGeometry).
  { intros m Hm Hunused. unfold exportMesh.
    rewrite <- initialSurfaces_length in Hm.
    destruct (lookup_lt_is_Some_2 _ _ Hm) as [s Hs].
    apply (addSurfaces_throws _ _ _ m s).
    - unfold surfacesOfMesh.
      rewrite triangleLoop_untouched by (try reflexivity; exact Hunused).
      exact Hs.
    - pose proof (initialSurfaces_noIndices mesh m s Hs) as Hn.
      unfold FbxSurface.getIndexArray. rewrite Hn. cbn. lia. }
  split; [exact General|]. split.
  - intros Hempty. apply (General 0%nat); [lia|].
    intros j Hj. unfold getIndexCount in Hj. rewrite Hempty in Hj. cbn in Hj. lia.
  - intros Hnone Hcount. apply (General 1%nat); [lia|].
    intros j _ _. unfold materialIndexAt. rewrite Hnone. cbn. lia.
Qed.

Lemma exportMesh_unused_material_throws_witness :
  snd (exportMesh (fun d => (d * PI / 180)%R) true
         (mkMesh (mkGeometry [] None None None None []) ["Stone"]) ∅)
  = Thrown ModelExporterBase.InvalidGeometry.
Proof.
  exact (proj1 (proj2 (exportMesh_unused_material_throws
                         (fun d => (d * PI / 180)%R) true
                         (mkMesh (mkGeometry [] None None None None []) ["Stone"])
                         ∅)) eq_refl).
Defined.

End FbxToLwoFacts.

(* ===================================================================== *)
(** * The vertex order of a triangle, from the scene to the exporter *)
(* ===================================================================== *)

Module FbxToLwoOrder.
Import FbxToLwo.
Import FbxSurfaceFacts FbxSurfaceRoundTrip ModelExporterBaseFacts PipelineFacts
  ExporterLaws FbxToLwoFacts.

Lemma extends_refl (s : FbxSurface.t) : extends s s.
Proof. repeat split; exists []; now rewrite app_nil_r. Qed.

Lemma extends_trans (s0 s1 s2 : FbxSurface.t) :
  extends s0 s1 -> extends s1 s2 -> extends s0 s2.
Proof.
  intros ((a & Ha) & (b & Hb) & Hm) ((c & Hc) & (d & Hd) & Hn).
  split; [exists (a ++ c); now rewrite Hc, Ha, <- app_assoc|].
  split; [exists (b ++ d); now rewrite Hd, Hb, <- app_assoc|congruence].
Qed.

Lemma extends_addVertex (v : ArbitraryMeshVertex.t) (s : FbxSurface.t) :
  extends s (FbxSurface.addVertex v s).
Proof.
  destruct (addVertex_extends v s) as ((idx & Hi) & Hv & Hm).
  split; [eauto|]. split; assumption.
Qed.

Lemma extends_length (s0 s : FbxSurface.t) :
  extends s0 s ->
  (length (FbxSurface.vertices s0) <= length (FbxSurface.vertices s))%nat.
Proof. intros (_ & (l & Hl) & _). rewrite Hl, length_app. lia. Qed.

Lemma extends_triple (s0 s : FbxSurface.t) (n : nat)
  (u v w : ArbitraryMeshVertex.t) :
  extends s0 s -> triple s0 n u v w -> triple s n u v w.
Proof.
  intros (Hi & Hv & _) (A & B & C).
  repeat split; eapply FbxSurfaceRoundTrip.resolves_extends; eauto.
Qed.

Lemma three_triple (u v w : ArbitraryMeshVertex.t) (s0 : FbxSurface.t) :
  FbxSurface.consistent s0 ->
  let s3 := FbxSurface.addVertex w (FbxSurface.addVertex v (FbxSurface.addVertex u s0)) in
  (Z.of_nat (length (FbxSurface.vertices s3)) <= 2 ^ 32)%Z ->
  triple s3 (length (FbxSurface.indices s0)) u v w.
Proof.
  intros Hc s3 Hlen. subst s3.
  set (s1 := FbxSurface.addVertex u s0) in *.
  set (s2 := FbxSurface.addVertex v s1) in *.
  pose proof (extends_addVertex w s2) as E3.
  pose proof (extends_addVertex v s1) as E2.
  pose proof (extends_length _ _ E3) as L3.
  pose proof (extends_length _ _ E2) as L2.
  assert (C1 : FbxSurface.consistent s1) by now apply addVertex_consistent.
  assert (C2 : FbxSurface.consistent s2) by now apply addVertex_consistent.
  fold s2 in L2, E2. 
  assert (R1 : FbxSurface.resolves s1 (length (FbxSurface.indices s0)) u)
    by (apply addVertex_resolves_last; [exact Hc|fold s1; lia]).
  assert (R2 : FbxSurface.resolves s2 (length (FbxSurface.indices s1)) v)
    by (apply addVertex_resolves_last; [exact C1|fold s2; lia]).
  assert (R3 : FbxSurface.resolves (FbxSurface.addVertex w s2)
                 (length (FbxSurface.indices s2)) w)
    by (apply addVertex_resolves_last; [exact C2|lia]).
  assert (N1 : length (FbxSurface.indices s1) = (length (FbxSurface.indices s0) + 1)%nat)
    by (unfold s1; rewrite addVertex_indices_length; lia).
  assert (N2 : length (FbxSurface.indices s2) = (length (FbxSurface.indices s0) + 2)%nat)
    by (unfold s2; rewrite addVertex_indices_length; lia).
  rewrite N1 in R2. rewrite N2 in R3.
  destruct E2 as (E2i & E2v & _), E3 as (E3i & E3v & _).
  split; [|split; [|exact R3]].
  - eapply FbxSurfaceRoundTrip.resolves_extends; [exact E3i|exact E3v|].
    eapply FbxSurfaceRoundTrip.resolves_extends; [exact E2i|exact E2v|exact R1].
  - eapply FbxSurfaceRoundTrip.resolves_extends; [exact E3i|exact E3v|exact R2].
Qed.

Lemma triangleLoop_length (fuel : nat) (geometry : Geometry) (i : nat)
  (l : list FbxSurface.t) :
  length (triangleLoop fuel geometry i l) = length l.
Proof.
  revert i l. induction fuel as [|fuel IH]; intros i l; [reflexivity|].
  cbn [triangleLoop]. destruct (i <? getIndexCount geometry)%nat; [|reflexivity].
  rewrite IH, addTriangle_alter. apply length_alter.
Qed.

Lemma triangleLoop_extends (fuel : nat) (geometry : Geometry) (i m : nat)
  (l : list FbxSurface.t) (s0 : FbxSurface.t) :
  l !! m = Some s0 ->
  exists s, triangleLoop fuel geometry i l !! m = Some s /\ extends s0 s.
Proof.
  revert i l s0. induction fuel as [|fuel IH]; intros i l s0 H.
  - exists s0. split; [exact H|apply extends_refl].
  - cbn [triangleLoop]. destruct (i <? getIndexCount geometry)%nat.
    + rewrite addTriangle_alter.
      destruct (decide (Z.to_nat (materialIndexAt geometry i) = m)) as [E|NE].
      * match goal with
        | |- context [alter ?f ?k l] =>
          assert (H3 : alter f k l !! m = Some (f s0))
            by (rewrite E, list_lookup_alter_eq, H; reflexivity)
        end.
        destruct (IH (i + 3)%nat _ _ H3) as (s & Hs & He).
        exists s. split; [exact Hs|].
        eapply extends_trans; [|exact He].
        eapply extends_trans; [apply extends_addVertex|].
        eapply extends_trans; apply extends_addVertex.
      * apply IH. now rewrite list_lookup_alter_ne.
    + exists s0. split; [exact H|apply extends_refl].
Qed.

(** Every triangle of the mesh is found, as a triple, in the surface of its
    material. *)
Lemma triangleLoop_triple (fuel : nat) (geometry : Geometry) (i0 i : nat)
  (l0 : list FbxSurface.t) (s : FbxSurface.t) :
  allSlots wellBuilt l0 ->
  (i0 mod 3 = 0)%nat -> (getIndexCount geometry <= fuel + i0)%nat ->
  (i0 <= i)%nat -> (i < getIndexCount geometry)%nat -> (i mod 3 = 0)%nat ->
  triangleLoop fuel geometry i0 l0 !! Z.to_nat (materialIndexAt geometry i)
  = Some s ->
  (Z.of_nat (length (FbxSurface.vertices s)) <= 2 ^ 32)%Z ->
  exists j : nat,
    triple s (3 * j)
      (ConstructMeshVertex geometry (indexA geometry i))
      (ConstructMeshVertex geometry (indexB geometry i))
      (ConstructMeshVertex geometry (indexC geometry i)).
Proof.
  revert i0 l0. induction fuel as [|fuel IH];
    intros i0 l0 Hwb Hi0 Hfuel Hle Hlt Hi Hs Hlen; [lia|].
  cbn [triangleLoop] in Hs.
  rewrite (proj2 (Nat.ltb_lt i0 (getIndexCount geometry))) in Hs by lia.
  assert (Hwb1 : allSlots wellBuilt (addTriangle geometry i0 l0)).
  { rewrite addTriangle_alter. apply allSlots_alter; [|exact Hwb].
    intros s' Hs'. now apply wellBuilt_three. }
  destruct (decide (i = i0)) as [->|Hne].
  - set (m := Z.to_nat (materialIndexAt geometry i0)) in *.
    assert (Hm : (m < length l0)%nat).
    { apply lookup_lt_Some in Hs.
      rewrite triangleLoop_length, addTriangle_alter, length_alter in Hs.
      exact Hs. }
    destruct (lookup_lt_is_Some_2 _ _ Hm) as [s0 Hs0].
    destruct (Hwb _ _ Hs0) as (Hc0 & _ & Hmod).
    set (s3 := FbxSurface.addVertex (ConstructMeshVertex geometry (indexC geometry i0))
                 (FbxSurface.addVertex (ConstructMeshVertex geometry (indexB geometry i0))
                    (FbxSurface.addVertex
                       (ConstructMeshVertex geometry (indexA geometry i0)) s0))).
    assert (H3 : addTriangle geometry i0 l0 !! m = Some s3).
    { rewrite addTriangle_alter. fold m.
      rewrite list_lookup_alter_eq, Hs0. reflexivity. }
    destruct (triangleLoop_extends fuel geometry (i0 + 3) m _ s3 H3)
      as (s' & Hs' & He).
    rewrite Hs in Hs'. injection Hs' as <-.
    exists (length (FbxSurface.indices s0) / 3)%nat.
    replace (3 * (length (FbxSurface.indices s0) / 3))%nat
      with (length (FbxSurface.indices s0))
      by (pose proof (Nat.div_mod_eq (length (FbxSurface.indices s0)) 3); lia).
    apply (extends_triple s3); [exact He|].
    apply three_triple; [exact Hc0|].
    pose proof (extends_length _ _ He). fold s3. lia.
  - assert (Hge : (i0 + 3 <= i)%nat).
    { pose proof (Nat.div_mod_eq i 3). pose proof (Nat.div_mod_eq i0 3). lia. }
    apply (IH (i0 + 3)%nat (addTriangle geometry i0 l0)); try assumption; try lia.
    replace (i0 + 3)%nat with (i0 + 1 * 3)%nat by lia.
    now rewrite Nat.Div0.mod_add.
Qed.

(** The vertex counts of the surfaces of a mesh add up to at most three per
    round of the loop. *)
Lemma totalVertices_alter (f : FbxSurface.t -> FbxSurface.t) (k m : nat)
  (l : list FbxSurface.t) :
  (forall s, (length (FbxSurface.vertices (f s))
              <= length (FbxSurface.vertices s) + k)%nat) ->
  (totalVertices (alter f m l) <= totalVertices l + k)%nat.
Proof.
  intros Hf. revert m.
  induction l as [|s l IH]; intros m; [destruct m; simpl; lia|].
  destruct m as [|m]; simpl.
  - pose proof (Hf s). lia.
  - pose proof (IH m). unfold alter in *. lia.
Qed.

Lemma addVertex_vertices_le (v : ArbitraryMeshVertex.t) (s : FbxSurface.t) :
  (length (FbxSurface.vertices (FbxSurface.addVertex v s))
   <= length (FbxSurface.vertices s) + 1)%nat.
Proof.
  pose proof (proj2 (addVertices_vertices_length [v] s)) as H.
  cbn in H. exact H.
Qed.

Lemma triangleLoop_totalVertices (fuel : nat) (geometry : Geometry) (i : nat)
  (l : list FbxSurface.t) :
  (totalVertices (triangleLoop fuel geometry i l)
   <= totalVertices l + 3 * fuel)%nat.
Proof.
  revert i l. induction fuel as [|fuel IH]; intros i l; [cbn; lia|].
  cbn [triangleLoop]. destruct (i <? getIndexCount geometry)%nat; [|lia].
  pose proof (IH (i + 3)%nat (addTriangle geometry i l)) as H1.
  assert (H2 : (totalVertices (addTriangle geometry i l) <= totalVertices l + 3)%nat).
  { rewrite addTriangle_alter. apply totalVertices_alter. intros s.
    pose proof (addVertex_vertices_le (ConstructMeshVertex geometry (indexA geometry i)) s).
    pose proof (addVertex_vertices_le (ConstructMeshVertex geometry (indexB geometry i))
                  (FbxSurface.addVertex (ConstructMeshVertex geometry (indexA geometry i)) s)).
    pose proof (addVertex_vertices_le (ConstructMeshVertex geometry (indexC geometry i))
                  (FbxSurface.addVertex (ConstructMeshVertex geometry (indexB geometry i))
                  (FbxSurface.addVertex (ConstructMeshVertex geometry (indexA geometry i)) s))).
    lia. }
  lia.
Qed.

Lemma initialSurfaces_totalVertices (mesh : Mesh) :
  totalVertices (initialSurfaces mesh) = 0%nat.
Proof.
  assert (H : allSlots (fun s => FbxSurface.vertices s = []) (initialSurfaces mesh))
    by (apply initialSurfaces_allSlots; [reflexivity|intros name s Hs; exact Hs]).
  unfold allSlots in *.
  induction (initialSurfaces mesh) as [|s l IH]; [reflexivity|].
  cbn. rewrite (H 0%nat s eq_refl). cbn. apply IH.
  intros m s' Hm. exact (H (S m) s' Hm).
Qed.

Lemma surfacesOfMesh_totalVertices (mesh : Mesh) :
  (totalVertices (surfacesOfMesh mesh) <= 3 * getIndexCount (getGeometry mesh))%nat.
Proof.
  unfold surfacesOfMesh.
  pose proof (triangleLoop_totalVertices (getIndexCount (getGeometry mesh))
                (getGeometry mesh) 0 (initialSurfaces mesh)) as H.
  rewrite initialSurfaces_totalVertices in H. lia.
Qed.

(** *** Through the exporter *)

Lemma addSurface_keeps (incoming : FbxSurface.t) (T : Matrix4.t)
  (st : ModelExporterBase.Surfaces) (name : string)
  (a : ModelExporterBase.Surface) :
  st !! name = Some a ->
  exists a' : ModelExporterBase.Surface,
    fst (ModelExporterBase.addSurface incoming T st) !! name = Some a'
    /\ forall k w, ModelExporterBase.resolves a k w ->
                   ModelExporterBase.resolves a' k w.
Proof.
  intros Ha.
  destruct (decide (FbxSurface.getActiveMaterial incoming = name)) as [E|NE].
  - destruct (le_lt_dec 3 (length (FbxSurface.getIndexArray incoming))) as [H|H].
    + exists (ModelExporterBase.aggregated incoming T a). split.
      * rewrite <- E, (addSurface_accepted_lookup _ _ _ H).
        rewrite E. now rewrite (surfaceOf_existing _ _ _ Ha).
      * intros k w. apply ExporterLaws.surface_resolves_extends;
          cbn [ModelExporterBase.aggregated ModelExporterBase.indices
               ModelExporterBase.vertices]; eauto.
    + exists a. rewrite (addSurface_rejected _ _ _ H). cbn [fst].
      rewrite E, (ensureSurface_existing _ _ _ Ha). cbn [snd]. auto.
  - exists a. rewrite (addSurface_lookup_ne _ _ _ _ NE). auto.
Qed.

Lemma addSurfaces_keeps (l : list FbxSurface.t) (T : Matrix4.t)
  (st : ModelExporterBase.Surfaces) (name : string)
  (a : ModelExporterBase.Surface) :
  st !! name = Some a ->
  exists a' : ModelExporterBase.Surface,
    fst (ModelExporterBase.addSurfaces l T st) !! name = Some a'
    /\ forall k w, ModelExporterBase.resolves a k w ->
                   ModelExporterBase.resolves a' k w.
Proof.
  revert st a. induction l as [|s0 l IH]; intros st a Ha; [eauto|].
  cbn [ModelExporterBase.addSurfaces].
  destruct (addSurface_keeps s0 T st name a Ha) as (a1 & H1 & K1).
  destruct (ModelExporterBase.addSurface s0 T st) as [st1 [[]|e]]; cbn [fst] in *.
  - destruct (IH st1 a1 H1) as (a2 & H2 & K2). exists a2. split; [exact H2|].
    intros k w Hk. apply K2, K1, Hk.
  - exists a1. auto.
Qed.

Lemma cap_addSurface (incoming : FbxSurface.t) (T : Matrix4.t)
  (st : ModelExporterBase.Surfaces) (name : string) :
  (cap (fst (ModelExporterBase.addSurface incoming T st)) name
   <= cap st name + length (FbxSurface.vertices incoming))%nat.
Proof.
  unfold cap, ModelExporterBase.surfaceOf, ModelExporterBase.ensureSurface.
  destruct (decide (FbxSurface.getActiveMaterial incoming = name)) as [E|NE].
  - destruct (le_lt_dec 3 (length (FbxSurface.getIndexArray incoming))) as [H|H].
    + rewrite <- E, (addSurface_accepted_lookup _ _ _ H). cbn [fst].
      cbn [ModelExporterBase.aggregated ModelExporterBase.vertices].
      rewrite length_app, length_map.
      unfold ModelExporterBase.surfaceOf, ModelExporterBase.ensureSurface,
        FbxSurface.getVertexArray.
      destruct (st !! FbxSurface.getActiveMaterial incoming); cbn; lia.
    + rewrite (addSurface_rejected _ _ _ H). cbn [fst]. rewrite <- E.
      rewrite ensureSurface_lookup. cbn [fst].
      unfold ModelExporterBase.ensureSurface.
      destruct (st !! FbxSurface.getActiveMaterial incoming); cbn; lia.
  - rewrite (addSurface_lookup_ne _ _ _ _ NE).
    destruct (st !! name); cbn; lia.
Qed.

Lemma totalVertices_lookup (l : list FbxSurface.t) (m : nat) (s : FbxSurface.t) :
  l !! m = Some s ->
  (length (FbxSurface.vertices s) <= totalVertices l)%nat.
Proof.
  revert m. induction l as [|s0 l IH]; intros m H; [discriminate|].
  destruct m as [|m]; cbn in *.
  - injection H as ->. lia.
  - pose proof (IH m H). lia.
Qed.

Lemma addSurfaces_triple (l : list FbxSurface.t) (T : Matrix4.t)
  (st : ModelExporterBase.Surfaces) (m j : nat) (slot : FbxSurface.t)
  (u v w : ArbitraryMeshVertex.t) :
  allSlots FbxSurface.indicesValid l -> allValid st ->
  snd (ModelExporterBase.addSurfaces l T st) = Returned tt ->
  l !! m = Some slot -> triple slot (3 * j) u v w ->
  (forall name, (Z.of_nat (cap st name) + Z.of_nat (totalVertices l) <= 2 ^ 32)%Z) ->
  let tv := ModelExporterBase.transformVertex T
              (Matrix4.getTransposed (Matrix4.getFullInverse T)) in
  exists (after : ModelExporterBase.Surface) (j' : nat),
    fst (ModelExporterBase.addSurfaces l T st) !! FbxSurface.material slot
    = Some after
    /\ tripleOf after (3 * j') (tv w) (tv v) (tv u).
Proof.
  intros Hl Hst Hret Hm Htr Hcap tv. subst tv.
  revert st m Hl Hst Hret Hm Hcap.
  induction l as [|s0 l IH]; intros st m Hl Hst Hret Hm Hcap; [discriminate|].
  cbn [ModelExporterBase.addSurfaces] in *.
  assert (Hs0 : FbxSurface.indicesValid s0) by (apply (Hl 0%nat); reflexivity).
  pose proof (addSurface_preserves_valid s0 T st Hs0 Hst) as Hst1.
  pose proof (fun name => cap_addSurface s0 T st name) as Hcap1.
  destruct (addSurface_cases s0 T st) as [[Hshort Hres]|[Hacc Hres]];
    [destruct (ModelExporterBase.addSurface s0 T st) as [st1 r];
     cbn [snd] in Hres; subst r; cbn [snd] in Hret; discriminate|].
  destruct m as [|m]; cbn in Hm.
  - injection Hm as ->. destruct Htr as (R0 & R1 & R2).
    assert (Hfit : (Z.of_nat (length (ModelExporterBase.vertices
                       (ModelExporterBase.surfaceOf
                          (FbxSurface.getActiveMaterial slot) st)))
                    + Z.of_nat (length (FbxSurface.getVertexArray slot))
                    <= 2 ^ 32)%Z).
    { specialize (Hcap (FbxSurface.getActiveMaterial slot)).
      unfold cap in Hcap. cbn [totalVertices] in Hcap.
      unfold FbxSurface.getVertexArray. lia. }
    destruct (addSurface_resolves slot T st j u v w Hacc R0 R1 R2 Hfit)
      as (after1 & Hl1 & (Q0 & Q1 & Q2) & _).
    cbv zeta in Q0, Q1, Q2.
    pose proof (surfaceOf_valid (FbxSurface.getActiveMaterial slot) st Hst)
      as [_ Hmod].
    set (n := length (ModelExporterBase.indices
                        (ModelExporterBase.surfaceOf
                           (FbxSurface.getActiveMaterial slot) st))) in *.
    destruct (ModelExporterBase.addSurface slot T st) as [st1 r].
    cbn [fst snd] in *. subst r.
    destruct (addSurfaces_keeps l T st1 _ after1 Hl1) as (after & Ha & K).
    exists after, (n / 3 + j)%nat. split; [exact Ha|].
    replace (3 * (n / 3 + j))%nat with (n + 3 * j)%nat
      by (pose proof (Nat.div_mod_eq n 3); lia).
    repeat split; apply K; assumption.
  - destruct (ModelExporterBase.addSurface s0 T st) as [st1 r].
    cbn [fst snd] in *. subst r.
    apply (IH st1 m); try assumption.
    + intros k s Hk. exact (Hl (S k) s Hk).
    + intros name. specialize (Hcap name). specialize (Hcap1 name).
      cbn [totalVertices] in Hcap. lia.
Qed.

(** *** The names of the surfaces *)

Lemma nameSurfaces_lookup (names : list string) (n a m : nat)
  (l : list FbxSurface.t) :
  fold_left
    (fun acc k => alter (FbxSurface.setMaterial (nth k names "")) k acc)
    (seq a n) l !! m
  = if decide (a <= m < a + n)%nat
    then FbxSurface.setMaterial (nth m names "") <$> l !! m
    else l !! m.
Proof.
  revert a l. induction n as [|n IH]; intros a l.
  - cbn. destruct (decide (a <= m < a + 0)%nat); [lia|reflexivity].
  - cbn [seq fold_left]. rewrite IH.
    destruct (decide (S a <= m < S a + n)%nat) as [H|H].
    + rewrite list_lookup_alter_ne by lia.
      destruct (decide (a <= m < a + S n)%nat); [reflexivity|lia].
    + destruct (decide (a <= m < a + S n)%nat) as [G|G].
      * assert (m = a) as -> by lia. apply list_lookup_alter_eq.
      * apply list_lookup_alter_ne. lia.
Qed.

Lemma lookup_repeat {A : Type} (x : A) (n m : nat) :
  (m < n)%nat -> repeat x n !! m = Some x.
Proof.
  revert m. induction n as [|n IH]; intros m H; [lia|].
  destruct m as [|m]; [reflexivity|]. cbn. apply IH. lia.
Qed.

Lemma surfacesOfMesh_material (mesh : Mesh) (m : nat) (slot : FbxSurface.t) :
  surfacesOfMesh mesh !! m = Some slot ->
  FbxSurface.material slot
  = if (getMaterialCount mesh =? 0)%nat then "Material"
    else nth m (getMaterialNames mesh) "".
Proof.
  intros Hs.
  assert (Hm : (m < length (initialSurfaces mesh))%nat).
  { apply lookup_lt_Some in Hs. unfold surfacesOfMesh in Hs.
    now rewrite triangleLoop_length in Hs. }
  destruct (lookup_lt_is_Some_2 _ _ Hm) as [s0 Hs0].
  destruct (triangleLoop_extends (getIndexCount (getGeometry mesh))
              (getGeometry mesh) 0 m _ s0 Hs0) as (s & Hs' & (_ & _ & Hmat)).
  unfold surfacesOfMesh in Hs. rewrite Hs in Hs'. injection Hs' as <-.
  rewrite Hmat. clear Hs Hmat.
  rewrite initialSurfaces_length in Hm.
  unfold initialSurfaces, nameSurfaces in Hs0.
  rewrite nameSurfaces_lookup in Hs0. unfold getMaterialCount in *.
  destruct (length (getMaterialNames mesh)) as [|c] eqn:Ec.
  - cbn in Hm. assert (m = 0)%nat as -> by lia.
    cbn in Hs0. injection Hs0 as <-. reflexivity.
  - cbn [Nat.eqb] in *.
    destruct (decide (0 <= m < 0 + S c)%nat) as [_|G]; [|lia].
    rewrite lookup_repeat in Hs0 by lia.
    cbn in Hs0. injection Hs0 as <-. reflexivity.
Qed.

(** X29: a triangle keeps its vertex order from the scene to the exporter.
    ExportFbxMesh adds the three corners of a triangle last corner first,
    and addSurface reverses each triple again.  So, when the export of a
    mesh returns (and the vertex counts stay within 2^32), the Surface
    named after the material of the triangle that starts at face index i
    holds a triple whose indices address, in this order, the transformed
    vertices of the face indices i, i + 1 and i + 2 (the last one decoded
    from its negative form). *)
Theorem exportMesh_keeps_vertex_order (degrees_to_radians : R -> R)
  (UpAxisIsY : bool) (mesh : Mesh) (exporter : ModelExporterBase.Surfaces)
  (i : nat) (slot : FbxSurface.t) :
  ModelExporterBase.reachableByCalls exporter ->
  (i mod 3 = 0)%nat -> (i + 2 < getIndexCount (getGeometry mesh))%nat ->
  surfacesOfMesh mesh !! Z.to_nat (materialIndexAt (getGeometry mesh) i)
  = Some slot ->
  (forall name : string,
     (Z.of_nat (length (ModelExporterBase.vertices
                          (ModelExporterBase.surfaceOf name exporter)))
      + 3 * Z.of_nat (getIndexCount (getGeometry mesh)) <= 2 ^ 32)%Z) ->
  snd (exportMesh degrees_to_radians UpAxisIsY mesh exporter) = Returned tt ->
  let geometry := getGeometry mesh in
  let T := sceneTransform degrees_to_radians UpAxisIsY in
  let tv := ModelExporterBase.transformVertex T
              (Matrix4.getTransposed (Matrix4.getFullInverse T)) in
  let name :=
    if (getMaterialCount mesh =? 0)%nat then "Material"
    else nth (Z.to_nat (materialIndexAt geometry i)) (getMaterialNames mesh) "" in
  exists (after : ModelExporterBase.Surface) (j : nat),
    fst (exportMesh degrees_to_radians UpAxisIsY mesh exporter) !! name
    = Some after
    /\ ModelExporterBase.resolves after (3 * j)
         (tv (ConstructMeshVertex geometry
                (nth i (getFaceIndices geometry) 0%Z)))
    /\ ModelExporterBase.resolves after (3 * j + 1)
         (tv (ConstructMeshVertex geometry
                (nth (i + 1) (getFaceIndices geometry) 0%Z)))
    /\ ModelExporterBase.resolves after (3 * j + 2)
         (tv (ConstructMeshVertex geometry
                (- nth (i + 2) (getFaceIndices geometry) 0 - 1)%Z)).
Proof.
  intros Hr Hi Hlt Hslot Hcap Hret geometry T tv name.
  assert (Hst : allValid exporter).
  { intros n s Hs. exact (proj2 (reachableByCalls_inv exporter n s Hr Hs)). }
  pose proof (surfacesOfMesh_totalVertices mesh) as Htot.
  pose proof (totalVertices_lookup _ _ _ Hslot) as Hslotlen.
  assert (Hbig : (0 <= Z.of_nat (length (ModelExporterBase.vertices
                          (ModelExporterBase.surfaceOf "" exporter))))%Z) by lia.
  pose proof (Hcap "") as Hcap0.
  assert (Htr : exists j : nat,
            triple slot (3 * j)
              (ConstructMeshVertex geometry (indexA geometry i))
              (ConstructMeshVertex geometry (indexB geometry i))
              (ConstructMeshVertex geometry (indexC geometry i))).
  { apply (triangleLoop_triple (getIndexCount geometry) geometry 0 i
             (initialSurfaces mesh) slot).
    - apply initialSurfaces_allSlots;
        [apply wellBuilt_empty|apply wellBuilt_setMaterial].
    - reflexivity.
    - lia.
    - lia.
    - subst geometry. lia.
    - exact Hi.
    - exact Hslot.
    - subst geometry. lia. }
  destruct Htr as (j & Htr).
  assert (Hvalid : allSlots FbxSurface.indicesValid (surfacesOfMesh mesh))
    by (intros m s Hs; exact (proj1 (proj2 (surfacesOfMesh_wellBuilt mesh m s Hs)))).
  assert (Hcap' : forall n : string,
            (Z.of_nat (cap exporter n)
             + Z.of_nat (totalVertices (surfacesOfMesh mesh)) <= 2 ^ 32)%Z)
    by (intros n; specialize (Hcap n); unfold cap; lia).
  unfold exportMesh in *. fold T in Hret |- *.
  destruct (addSurfaces_triple (surfacesOfMesh mesh) T exporter _ j slot _ _ _
              Hvalid Hst Hret Hslot Htr Hcap')
    as (after & j' & Ha & (Q0 & Q1 & Q2)).
  exists after, j'. subst name geometry.
  rewrite <- (surfacesOfMesh_material mesh _ slot Hslot).
  split; [exact Ha|].
  unfold indexA, indexB, indexC in *.
  replace (i + 0)%nat with i in * by lia.
  replace (nth (i + 2) (getFaceIndices (getGeometry mesh)) 0 * -1 - 1)%Z
    with (- nth (i + 2) (getFaceIndices (getGeometry mesh)) 0 - 1)%Z in * by lia.
  auto.
Qed.

Lemma exportMesh_keeps_vertex_order_witness :
  exists (after : ModelExporterBase.Surface) (j : nat),
    fst (exportMesh (fun d => (d * PI / 180)%R) false sampleMesh ∅) !! "Stone"
    = Some after
    /\ ModelExporterBase.resolves after (3 * j)
         (ModelExporterBase.transformVertex Matrix4.getIdentity
            (Matrix4.getTransposed (Matrix4.getFullInverse Matrix4.getIdentity))
            (ConstructMeshVertex (getGeometry sampleMesh) 0)).
Proof.
  assert (Hslot : surfacesOfMesh sampleMesh
                    !! Z.to_nat (materialIndexAt (getGeometry sampleMesh) 0)
                  = Some (FbxSurface.addVertex
                            (ConstructMeshVertex (getGeometry sampleMesh) 0)
                            (FbxSurface.addVertex
                               (ConstructMeshVertex (getGeometry sampleMesh) 1)
                               (FbxSurface.addVertex
                                  (ConstructMeshVertex (getGeometry sampleMesh) 2)
                                  (FbxSurface.setMaterial "Stone" FbxSurface.empty)))))
    by (rewrite sampleMesh_surfaces; reflexivity).
  assert (Hret : snd (exportMesh (fun d => (d * PI / 180)%R) false sampleMesh ∅)
                 = Returned tt).
  { unfold exportMesh. rewrite sampleMesh_surfaces. apply addSurfaces_accepted.
    constructor; [|constructor]. unfold FbxSurface.getIndexArray.
    rewrite !addVertex_indices_length. cbn. lia. }
  assert (Hcap : forall name : string,
            (Z.of_nat (length (ModelExporterBase.vertices
                                 (ModelExporterBase.surfaceOf name ∅)))
             + 3 * Z.of_nat (getIndexCount (getGeometry sampleMesh)) <= 2 ^ 32)%Z).
  { intros name. rewrite surfaceOf_new by apply lookup_empty. cbn. lia. }
  assert (H0 : (0 mod 3 = 0)%nat) by reflexivity.
  assert (H2 : (0 + 2 < getIndexCount (getGeometry sampleMesh))%nat)
    by (cbn; lia).
  destruct (exportMesh_keeps_vertex_order (fun d => (d * PI / 180)%R) false
              sampleMesh ∅ 0 _ ModelExporterBase.reachableByCalls_empty
              H0 H2 Hslot Hcap Hret) as (after & j & Ha & Q0 & _).
  exists after, j. split; [exact Ha|exact Q0].
Defined.

End FbxToLwoOrder.

(* ===================================================================== *)
(** * The transform of a scene *)
(* ===================================================================== *)

Module FbxToLwoTransform.
Import Vector3 Matrix4 Matrix4Facts Matrix4Laws FbxToLwo.
Local Open Scope R_scope.

Lemma getNormalised_unit (n : Vector3.t) :
  x n * x n + y n * y n + z n * z n = 1 -> getNormalised n = n.
Proof.
  intros H. unfold getNormalised, getLength. rewrite H, sqrt_1.
  destruct n. cbn. f_equal; field.
Qed.

Lemma sceneTransform_Y_up (degrees_to_radians : R -> R) :
  degrees_to_radians 90 = PI / 2 -> degrees_to_radians 0 = 0 ->
  sceneTransform degrees_to_radians true
  = byColumns 1 0 0 0  0 0 1 0  0 (-1) 0 0  0 0 0 1.
Proof.
  intros H90 H0.
  unfold sceneTransform, getRotationForEulerXYZDegrees,
    euler_degrees_to_radians, getPremultipliedBy.
  cbn [x y z]. rewrite H90, H0, getMultipliedBy_identity_r.
  unfold getRotationForEulerXYZ, at_. cbn [x y z].
  rewrite cos_PI2, sin_PI2, cos_0, sin_0.
  unfold byColumns. f_equal; ring.
Qed.

(** X30: the transform ExportFbxMesh applies.  For a scene whose up axis is
    not Y it is the identity; for a scene whose up axis is Y (with a
    conversion from degrees that sends 90 to PI/2 and 0 to 0, over exact
    arithmetic) it is the quarter turn about X that sends the Y axis to the
    Z axis.  A vertex with a normal of length 1 is then stored with position
    (x, -z, y), normal (nx, -nz, ny), and its texture coordinate and colour
    unchanged; in a scene whose up axis is not Y it is stored as it is. *)
Theorem sceneTransform_up_axis (degrees_to_radians : R -> R)
  (v : ArbitraryMeshVertex.t) :
  degrees_to_radians 90 = PI / 2 -> degrees_to_radians 0 = 0 ->
  (let n := ArbitraryMeshVertex.normal v in
   x n * x n + y n * y n + z n * z n = 1) ->
  let Tz := sceneTransform degrees_to_radians false in
  let Ty := sceneTransform degrees_to_radians true in
  Tz = getIdentity
  /\ Ty = byColumns 1 0 0 0  0 0 1 0  0 (-1) 0 0  0 0 0 1
  /\ ModelExporterBase.transformVertex Tz
       (getTransposed (getFullInverse Tz)) v = v
  /\ ModelExporterBase.transformVertex Ty
       (getTransposed (getFullInverse Ty)) v
     = ArbitraryMeshVertex.ArbitraryMeshVertex
         (Vector3 (x (ArbitraryMeshVertex.vertex v))
                  (- z (ArbitraryMeshVertex.vertex v))
                  (y (ArbitraryMeshVertex.vertex v)))
         (Vector3 (x (ArbitraryMeshVertex.normal v))
                  (- z (ArbitraryMeshVertex.normal v))
                  (y (ArbitraryMeshVertex.normal v)))
         (ArbitraryMeshVertex.texcoord v)
         (ArbitraryMeshVertex.colour v).
Proof.
  intros H90 H0 Hn Tz Ty. subst Tz Ty. cbv zeta in Hn.
  rewrite (sceneTransform_Y_up _ H90 H0).
  split; [reflexivity|]. split; [reflexivity|].
  destruct v as [[px py pz] [nx ny nz] uv col].
  cbn [ArbitraryMeshVertex.vertex ArbitraryMeshVertex.normal
       ArbitraryMeshVertex.texcoord ArbitraryMeshVertex.colour x y z] in *.
  unfold ModelExporterBase.transformVertex, sceneTransform.
  cbn [ArbitraryMeshVertex.vertex ArbitraryMeshVertex.normal
       ArbitraryMeshVertex.texcoord ArbitraryMeshVertex.colour].
  split.
  - rewrite getFullInverse_identity, getTransposed_identity.
    rewrite !getIdentity_transformPoint.
    rewrite getNormalised_unit by exact Hn. reflexivity.
  - replace (transformPoint
               (getTransposed
                  (getFullInverse (byColumns 1 0 0 0 0 0 1 0 0 (-1) 0 0 0 0 0 1)))
               (Vector3 nx ny nz))
      with (Vector3 nx (- nz) ny) by (mat_unfold; f_equal; field).
    rewrite getNormalised_unit by (cbn [x y z]; rewrite <- Hn; ring).
    f_equal. mat_unfold. f_equal; ring.
Qed.

Lemma sceneTransform_up_axis_witness :
  sceneTransform (fun d => d * PI / 180) true
  = byColumns 1 0 0 0  0 0 1 0  0 (-1) 0 0  0 0 0 1.
Proof.
  assert (H90 : (fun d => d * PI / 180) 90 = PI / 2) by (cbv beta; field).
  assert (H0 : (fun d => d * PI / 180) 0 = 0) by (cbv beta; field).
  assert (Hn : let n := ArbitraryMeshVertex.normal (ArbitraryMeshVertex.ofPosition 0 0 0) in
               x n * x n + y n * y n + z n * z n = 1) by (cbn; ring).
  exact (proj1 (proj2 (sceneTransform_up_axis (fun d => d * PI / 180)
                         (ArbitraryMeshVertex.ofPosition 0 0 0) H90 H0 Hn))).
Defined.

End FbxToLwoTransform.
